(** * The realtime conversation and messaging engine (Convex backend)

    A shallow embedding of the Convex functions in [convex/users.ts],
    [convex/conversations.ts], [convex/messages.ts], [convex/typing.ts] and
    the reactions module, over the six tables of the Convex schema.

    Conventions of the embedding.
    - A table is the list of its documents in insertion order, which is the
      order of Convex's [_creationTime]; an index range read keeps that
      order among documents with equal index keys.
    - Document ids are natural numbers drawn from one counter of the store
      ([nextId]); an id is never handed out twice.
    - A handler is a computation in the monad [M]: it reads and writes the
      store and may throw.  [mutation] runs a handler as a Convex
      transaction: when the handler throws, none of its writes is kept.
    - [Date.now()] is an argument [now] of the handler: Convex freezes the
      clock for the duration of one function call.  Timestamps are
      integers (milliseconds), far below 2^53, so the arithmetic of the
      source on them is exact and is done in [Z].
    - [.unique()] yields the only document of a read, [null] when there is
      none, and throws when there are several, as Convex defines it. *)

From Stdlib Require Import ZArith Ascii String List Lia Permutation.
From stdpp Require Import base decidable option list strings sorting.

Open Scope string_scope.
Open Scope list_scope.
Open Scope nat_scope.

(** ** Documents and tables (the Convex schema) *)

Module Schema.

Record User := mkUser {
  user_id : nat;
  clerkId : string;
  name : string;
  email : string;
  avatarUrl : string;
  isOnline : bool;
  lastSeen : Z }.

Record Conversation := mkConversation {
  conv_id : nat;
  isGroup : bool;
  conv_name : option string;
  conv_createdAt : Z }.

Record Member := mkMember {
  cm_id : nat;
  cm_conversationId : nat;
  cm_userId : nat;
  lastReadAt : Z }.

Record Message := mkMessage {
  msg_id : nat;
  msg_conversationId : nat;
  senderId : nat;
  body : string;
  createdAt : Z;
  isDeleted : bool }.

Record Reaction := mkReaction {
  r_id : nat;
  r_messageId : nat;
  r_userId : nat;
  emoji : string }.

Record TypingIndicator := mkTypingIndicator {
  ti_id : nat;
  ti_conversationId : nat;
  ti_userId : nat;
  updatedAt : Z }.

(** Every document carries the [_id] the store gave it. *)
Class Doc (R : Type) := _id : R → nat.
#[global] Instance User_doc : Doc User := user_id.
#[global] Instance Conversation_doc : Doc Conversation := conv_id.
#[global] Instance Member_doc : Doc Member := cm_id.
#[global] Instance Message_doc : Doc Message := msg_id.
#[global] Instance Reaction_doc : Doc Reaction := r_id.
#[global] Instance TypingIndicator_doc : Doc TypingIndicator := ti_id.

Record DB := mkDB {
  users : list User;
  conversations : list Conversation;
  conversationMembers : list Member;
  messages : list Message;
  reactions : list Reaction;
  typingIndicators : list TypingIndicator;
  nextId : nat }.

Definition empty_db : DB := mkDB [] [] [] [] [] [] 0.

Definition set_users (f : list User → list User) (db : DB) : DB :=
  mkDB (f (users db)) (conversations db) (conversationMembers db)
       (messages db) (reactions db) (typingIndicators db) (nextId db).
Definition set_conversations
    (f : list Conversation → list Conversation) (db : DB) : DB :=
  mkDB (users db) (f (conversations db)) (conversationMembers db)
       (messages db) (reactions db) (typingIndicators db) (nextId db).
Definition set_conversationMembers
    (f : list Member → list Member) (db : DB) : DB :=
  mkDB (users db) (conversations db) (f (conversationMembers db))
       (messages db) (reactions db) (typingIndicators db) (nextId db).
Definition set_messages (f : list Message → list Message) (db : DB) : DB :=
  mkDB (users db) (conversations db) (conversationMembers db)
       (f (messages db)) (reactions db) (typingIndicators db) (nextId db).
Definition set_reactions (f : list Reaction → list Reaction) (db : DB) : DB :=
  mkDB (users db) (conversations db) (conversationMembers db)
       (messages db) (f (reactions db)) (typingIndicators db) (nextId db).
Definition set_typingIndicators
    (f : list TypingIndicator → list TypingIndicator) (db : DB) : DB :=
  mkDB (users db) (conversations db) (conversationMembers db)
       (messages db) (reactions db) (f (typingIndicators db)) (nextId db).
Definition set_nextId (f : nat → nat) (db : DB) : DB :=
  mkDB (users db) (conversations db) (conversationMembers db)
       (messages db) (reactions db) (typingIndicators db) (f (nextId db)).

End Schema.
Export Schema.

(** ** The store interface used by the handlers ([ctx.db]) *)

Module Store.

Inductive outcome (A : Type) : Type :=
| Ok (a : A)
| Throw (e : string).
Arguments Ok {A} a.
Arguments Throw {A} e.

(** A handler: reads and writes the store, returns or throws. *)
Definition M (A : Type) : Type := DB → outcome A * DB.

#[global] Instance M_ret : MRet M := λ A a db, (Ok a, db).
#[global] Instance M_bind : MBind M := λ A B f m db,
  match m db with
  | (Ok a, db') => f a db'
  | (Throw e, db') => (Throw e, db')
  end.

Definition throw {A} (e : string) : M A := λ db, (Throw e, db).
Definition gets {A} (f : DB → A) : M A := λ db, (Ok (f db), db).
Definition modify (f : DB → DB) : M () := λ db, (Ok (), f db).

(** A mutation is a transaction: the writes of a handler that throws are
    discarded. *)
Definition mutation {A} (handler : M A) (db : DB) : outcome A * DB :=
  match handler db with
  | (Ok a, db') => (Ok a, db')
  | (Throw e, _) => (Throw e, db)
  end.

(** [ctx.db.get(id)] on one table. *)
Definition get {R} `{Doc R} (i : nat) (t : list R) : option R :=
  head (filter (λ r, _id r = i) t).

(** The table after [patch(id, ...)]: [f] applied to the document [id]. *)
Definition patched {R} `{Doc R} (i : nat) (f : R → R) (t : list R) : list R :=
  (λ r, if decide (_id r = i) then f r else r) <$> t.

(** The table after [delete(id)]. *)
Definition deleted {R} `{Doc R} (i : nat) (t : list R) : list R :=
  filter (λ r, _id r ≠ i) t.

(** [.unique()]. *)
Definition unique {R} (l : list R) : M (option R) :=
  match l with
  | [] => mret None
  | [r] => mret (Some r)
  | _ => throw "unique() query returned more than one result"
  end.

(** A fresh document id. *)
Definition fresh : M nat :=
  λ db, (Ok (nextId db), set_nextId S db).

(** Stable insertion sort by an integer key, ascending: the order of an
    index on one numeric field, and of JavaScript's [Array.prototype.sort]
    with a comparator that subtracts keys. *)
Fixpoint insert_by {A} (key : A → Z) (x : A) (l : list A) : list A :=
  match l with
  | [] => [x]
  | y :: l' =>
      if decide (key x ≤ key y)%Z then x :: y :: l'
      else y :: insert_by key x l'
  end.

Definition sort_by {A} (key : A → Z) (l : list A) : list A :=
  foldr (insert_by key) [] l.

(** The last element of [l], when there is one, carries the largest
    key of [l]. *)
Definition last_max {A} (key : A → Z) (l : list A) : Prop :=
  ∀ x, last l = Some x → ∀ y, y ∈ l → (key y ≤ key x)%Z.

End Store.
Export Store.

(** ** Writes on each table ([ctx.db.insert], [patch], [delete]) *)

Module Writes.

Definition insert_user (c n e a : string) (o : bool) (t : Z) : M nat :=
  i ← fresh;
  modify (set_users (λ l, l ++ [mkUser i c n e a o t]));;
  mret i.

Definition insert_conversation (g : bool) (n : option string) (t : Z) : M nat :=
  i ← fresh;
  modify (set_conversations (λ l, l ++ [mkConversation i g n t]));;
  mret i.

Definition insert_member (c u : nat) (t : Z) : M nat :=
  i ← fresh;
  modify (set_conversationMembers (λ l, l ++ [mkMember i c u t]));;
  mret i.

Definition insert_message (c s : nat) (b : string) (t : Z) (d : bool) : M nat :=
  i ← fresh;
  modify (set_messages (λ l, l ++ [mkMessage i c s b t d]));;
  mret i.

Definition insert_reaction (m u : nat) (e : string) : M nat :=
  i ← fresh;
  modify (set_reactions (λ l, l ++ [mkReaction i m u e]));;
  mret i.

Definition insert_typingIndicator (c u : nat) (t : Z) : M nat :=
  i ← fresh;
  modify (set_typingIndicators (λ l, l ++ [mkTypingIndicator i c u t]));;
  mret i.

(** [patch] and [delete] throw on an id that names no document. *)
Definition patch_user (i : nat) (f : User → User) : M () :=
  d ← gets (λ db, get i (users db));
  match d with
  | None => throw "Update on nonexistent document"
  | Some _ => modify (set_users (patched i f))
  end.

Definition patch_member (i : nat) (f : Member → Member) : M () :=
  d ← gets (λ db, get i (conversationMembers db));
  match d with
  | None => throw "Update on nonexistent document"
  | Some _ => modify (set_conversationMembers (patched i f))
  end.

Definition patch_message (i : nat) (f : Message → Message) : M () :=
  d ← gets (λ db, get i (messages db));
  match d with
  | None => throw "Update on nonexistent document"
  | Some _ => modify (set_messages (patched i f))
  end.

Definition patch_typingIndicator
    (i : nat) (f : TypingIndicator → TypingIndicator) : M () :=
  d ← gets (λ db, get i (typingIndicators db));
  match d with
  | None => throw "Update on nonexistent document"
  | Some _ => modify (set_typingIndicators (patched i f))
  end.

Definition delete_reaction (i : nat) : M () :=
  d ← gets (λ db, get i (reactions db));
  match d with
  | None => throw "Delete on nonexistent document"
  | Some _ => modify (set_reactions (deleted i))
  end.

Definition delete_typingIndicator (i : nat) : M () :=
  d ← gets (λ db, get i (typingIndicators db));
  match d with
  | None => throw "Delete on nonexistent document"
  | Some _ => modify (set_typingIndicators (deleted i))
  end.

(** [for (const x of xs) { await body(x) }]. *)
Fixpoint for_each {A} (body : A → M ()) (xs : list A) : M () :=
  match xs with
  | [] => mret ()
  | x :: xs' => body x;; for_each body xs'
  end.

End Writes.
Export Writes.

(** ** Index reads ([.withIndex(...)]) *)

Module Index.

(** [users.by_clerkId]. *)
Definition users_by_clerkId (c : string) (db : DB) : list User :=
  filter (λ u, clerkId u = c) (users db).

(** [conversationMembers.by_userId]. *)
Definition members_by_userId (u : nat) (db : DB) : list Member :=
  filter (λ m, cm_userId m = u) (conversationMembers db).

(** [conversationMembers.by_conversationId]. *)
Definition members_by_conversationId (c : nat) (db : DB) : list Member :=
  filter (λ m, cm_conversationId m = c) (conversationMembers db).

(** [conversationMembers.by_user_conversation]. *)
Definition members_by_user_conversation (u c : nat) (db : DB) : list Member :=
  filter (λ m, cm_userId m = u ∧ cm_conversationId m = c)
         (conversationMembers db).

(** [messages.by_conversation_createdAt], one conversation: ascending
    [createdAt], insertion order among equal timestamps. *)
Definition messages_by_conversation_createdAt (c : nat) (db : DB) : list Message :=
  sort_by createdAt (filter (λ m, msg_conversationId m = c) (messages db)).

(** [reactions.by_messageId]. *)
Definition reactions_by_messageId (m : nat) (db : DB) : list Reaction :=
  filter (λ r, r_messageId r = m) (reactions db).

(** [reactions.by_message_user]. *)
Definition reactions_by_message_user (m u : nat) (db : DB) : list Reaction :=
  filter (λ r, r_messageId r = m ∧ r_userId r = u) (reactions db).

(** [typingIndicators.by_user_conversation]. *)
Definition typing_by_user_conversation (u c : nat) (db : DB) : list TypingIndicator :=
  filter (λ t, ti_userId t = u ∧ ti_conversationId t = c)
         (typingIndicators db).

(** [typingIndicators.by_conversationId]. *)
Definition typing_by_conversationId (c : nat) (db : DB) : list TypingIndicator :=
  filter (λ t, ti_conversationId t = c) (typingIndicators db).

End Index.
Export Index.

(** ** convex/users.ts *)

Module Users.

Definition upsertUser (clerkId_ name_ email_ avatarUrl_ : string) (now : Z) : M nat :=
  l ← gets (users_by_clerkId clerkId_);
  existingUser ← unique l;
  match existingUser with
  | Some u =>
      patch_user (_id u)
        (λ r, mkUser (user_id r) (clerkId r) name_ email_ avatarUrl_
                     (isOnline r) (lastSeen r));;
      mret (_id u)
  | None => insert_user clerkId_ name_ email_ avatarUrl_ false now
  end.

Definition getUserByClerkId (clerkId_ : string) : M (option User) :=
  l ← gets (users_by_clerkId clerkId_);
  unique l.

Definition getAllUsers (currentUserId : nat) (db : DB) : list User :=
  filter (λ u, _id u ≠ currentUserId) (users db).

(** [s.includes(sub)]: [sub] occurs in [s] as a contiguous piece. *)
Fixpoint includes (s sub : string) : bool :=
  if String.prefix sub s then true
  else match s with
       | EmptyString => false
       | String _ s' => includes s' sub
       end.

Section Search.
(** [String.prototype.toLowerCase], a built-in of the language. *)
Variable toLowerCase : string → string.

Definition searchUsers (searchTerm : string) (currentUserId : nat) (db : DB)
    : list User :=
  let allUsers := users db in
  let lowerSearch := toLowerCase searchTerm in
  filter (λ user, _id user ≠ currentUserId
                  ∧ includes (toLowerCase (name user)) lowerSearch = true)
         allUsers.
End Search.

Definition updateOnlineStatus (userId : nat) (isOnline_ : bool) (now : Z) : M () :=
  patch_user userId
    (λ r, mkUser (user_id r) (clerkId r) (name r) (email r) (avatarUrl r)
                 isOnline_ now).

Definition getUserById (userId : nat) (db : DB) : option User :=
  get userId (users db).

End Users.

(** ** convex/conversations.ts *)

Module Conversations.

(** The loop of [getOrCreateDirectConversation] over the memberships of
    the current user; [Some c] is its early [return c]. *)
Fixpoint findDirect (otherUserId : nat) (memberships : list Member) : M (option nat) :=
  match memberships with
  | [] => mret None
  | membership :: rest =>
      conversation ← gets (λ db, get (cm_conversationId membership) (conversations db));
      match conversation with
      | None => findDirect otherUserId rest
      | Some conv =>
          if isGroup conv then findDirect otherUserId rest
          else
            l ← gets (members_by_user_conversation
                        otherUserId (cm_conversationId membership));
            otherMembership ← unique l;
            match otherMembership with
            | Some _ => mret (Some (cm_conversationId membership))
            | None => findDirect otherUserId rest
            end
      end
  end.

Definition getOrCreateDirectConversation
    (currentUserId otherUserId : nat) (now : Z) : M nat :=
  currentUserMemberships ← gets (members_by_userId currentUserId);
  found ← findDirect otherUserId currentUserMemberships;
  match found with
  | Some c => mret c
  | None =>
      conversationId ← insert_conversation false None now;
      insert_member conversationId currentUserId now;;
      insert_member conversationId otherUserId now;;
      mret conversationId
  end.

Definition createGroupConversation
    (name_ : string) (memberIds : list nat) (creatorId : nat) (now : Z) : M nat :=
  conversationId ← insert_conversation true (Some name_) now;
  insert_member conversationId creatorId now;;
  for_each (λ memberId, insert_member conversationId memberId now;; mret ())
           memberIds;;
  mret conversationId.

Record EnrichedConversation := mkEnriched {
  conversation : Conversation;
  members : list User;
  latestMessage : option Message;
  latestMessageSender : option User;
  unreadCount : nat;
  memberCount : nat }.

(** One iteration of the loop of [getUserConversations]; [None] is its
    [continue]. *)
Definition enrich (db : DB) (userId : nat) (membership : Member)
    : option EnrichedConversation :=
  match get (cm_conversationId membership) (conversations db) with
  | None => None
  | Some conv =>
      let allMembers := members_by_conversationId (_id conv) db in
      let memberUsers := (λ m, get (cm_userId m) (users db)) <$> allMembers in
      let latestMessage :=
        head (reverse (messages_by_conversation_createdAt (_id conv) db)) in
      let unreadMessages := messages_by_conversation_createdAt (_id conv) db in
      let unreadCount :=
        length (filter (λ msg, (lastReadAt membership < createdAt msg)%Z
                               ∧ senderId msg ≠ userId) unreadMessages) in
      let latestMessageSender :=
        match latestMessage with
        | Some m => get (senderId m) (users db)
        | None => None
        end in
      Some (mkEnriched conv (omap id memberUsers) latestMessage
                       latestMessageSender unreadCount (length allMembers))
  end.

(** [a.latestMessage?.createdAt ?? a.createdAt]. *)
Definition sortTime (a : EnrichedConversation) : Z :=
  match latestMessage a with
  | Some m => createdAt m
  | None => conv_createdAt (conversation a)
  end.

Definition getUserConversations (userId : nat) (db : DB) : list EnrichedConversation :=
  let memberships := members_by_userId userId db in
  let conversations := omap (enrich db userId) memberships in
  sort_by (λ a, - sortTime a)%Z conversations.

(** The patch [{ lastReadAt: now }]. *)
Definition readAt (now : Z) (r : Member) : Member :=
  mkMember (cm_id r) (cm_conversationId r) (cm_userId r) now.

Definition markAsRead (userId conversationId : nat) (now : Z) : M () :=
  l ← gets (members_by_user_conversation userId conversationId);
  membership ← unique l;
  match membership with
  | Some m => patch_member (_id m) (readAt now)
  | None => mret ()
  end.

Definition getConversationById (conversationId : nat) (db : DB)
    : option (Conversation * list User * nat) :=
  match get conversationId (conversations db) with
  | None => None
  | Some conv =>
      let members := members_by_conversationId (_id conv) db in
      let memberUsers := (λ m, get (cm_userId m) (users db)) <$> members in
      Some (conv, omap id memberUsers, length members)
  end.

End Conversations.

(** ** convex/messages.ts *)

Module Messages.

Definition sendMessage
    (conversationId senderId_ : nat) (body_ : string) (now : Z) : M nat :=
  messageId ← insert_message conversationId senderId_ body_ now false;
  l ← gets (typing_by_user_conversation senderId_ conversationId);
  typingIndicator ← unique l;
  match typingIndicator with
  | Some t => delete_typingIndicator (_id t)
  | None => mret ()
  end;;
  mret messageId.

Record EnrichedMessage := mkEnrichedMessage {
  message : Message;
  sender : option User;
  enrichedReactions : list (Reaction * string) }.

Definition getMessages (conversationId : nat) (db : DB) : list EnrichedMessage :=
  let messages := messages_by_conversation_createdAt conversationId db in
  (λ message,
     let sender := get (senderId message) (users db) in
     let reactions := reactions_by_messageId (_id message) db in
     let enrichedReactions :=
       (λ reaction,
          (reaction,
           match get (r_userId reaction) (users db) with
           | Some user => name user
           | None => "Unknown"
           end)) <$> reactions in
     mkEnrichedMessage message sender enrichedReactions) <$> messages.

(** The patch [{ isDeleted: true }]. *)
Definition withdrawn (r : Message) : Message :=
  mkMessage (msg_id r) (msg_conversationId r) (senderId r) (body r)
            (createdAt r) true.

Definition deleteMessage (messageId userId : nat) : M () :=
  message ← gets (λ db, get messageId (messages db));
  match message with
  | None => throw "Message not found"
  | Some m =>
      if decide (senderId m ≠ userId)
      then throw "You can only delete your own messages"
      else patch_message messageId withdrawn
  end.

End Messages.

(** ** The reactions module *)

Module Reactions.

Definition ALLOWED_EMOJIS : list string := ["👍"; "❤️"; "😂"; "😮"; "😢"].

Definition toggleReaction (messageId userId : nat) (emoji_ : string) : M () :=
  if decide (emoji_ ∉ ALLOWED_EMOJIS)
  then throw ("Invalid emoji. Allowed: " +:+ String.concat ", " ALLOWED_EMOJIS)
  else
    existingReactions ← gets (reactions_by_message_user messageId userId);
    let sameReaction := head (filter (λ r, emoji r = emoji_) existingReactions) in
    match sameReaction with
    | Some r => delete_reaction (_id r)
    | None =>
        for_each (λ reaction, delete_reaction (_id reaction)) existingReactions;;
        insert_reaction messageId userId emoji_;;
        mret ()
    end.

End Reactions.

(** ** convex/typing.ts *)

Module Typing.

Definition TYPING_EXPIRY_MS : Z := 2000.

(** The patch [{ updatedAt: now }]. *)
Definition refreshed (now : Z) (r : TypingIndicator) : TypingIndicator :=
  mkTypingIndicator (ti_id r) (ti_conversationId r) (ti_userId r) now.

Definition setTyping (conversationId userId : nat) (now : Z) : M () :=
  l ← gets (typing_by_user_conversation userId conversationId);
  existing ← unique l;
  match existing with
  | Some t => patch_typingIndicator (_id t) (refreshed now)
  | None => insert_typingIndicator conversationId userId now;; mret ()
  end.

Definition clearTyping (conversationId userId : nat) : M () :=
  l ← gets (typing_by_user_conversation userId conversationId);
  existing ← unique l;
  match existing with
  | Some t => delete_typingIndicator (_id t)
  | None => mret ()
  end.

(** The [activeIndicators] of [getTypingUsers]. *)
Definition activeIndicators
    (conversationId currentUserId : nat) (now : Z) (db : DB) : list TypingIndicator :=
  let indicators := typing_by_conversationId conversationId db in
  filter (λ indicator, ti_userId indicator ≠ currentUserId
                       ∧ (now - updatedAt indicator < TYPING_EXPIRY_MS)%Z)
         indicators.

(** [user?.name ?? "Someone"]. *)
Definition typingName (db : DB) (userId : nat) : string :=
  match get userId (users db) with
  | Some user => name user
  | None => "Someone"
  end.

Definition getTypingUsers
    (conversationId currentUserId : nat) (now : Z) (db : DB) : list string :=
  (λ indicator, typingName db (ti_userId indicator))
    <$> activeIndicators conversationId currentUserId now db.

End Typing.

(** ** Histories of the store and its invariants *)

Module Spec.
Import Users Conversations Messages Reactions Typing.

(** The ten mutations the backend exports. *)
Inductive Call : Type :=
| UpsertUser (clerkId_ name_ email_ avatarUrl_ : string) (now : Z)
| UpdateOnlineStatus (userId : nat) (isOnline_ : bool) (now : Z)
| GetOrCreateDirectConversation (currentUserId otherUserId : nat) (now : Z)
| CreateGroupConversation (name_ : string) (memberIds : list nat)
                          (creatorId : nat) (now : Z)
| MarkAsRead (userId conversationId : nat) (now : Z)
| SendMessage (conversationId senderId_ : nat) (body_ : string) (now : Z)
| DeleteMessage (messageId userId : nat)
| ToggleReaction (messageId userId : nat) (emoji_ : string)
| SetTyping (conversationId userId : nat) (now : Z)
| ClearTyping (conversationId userId : nat).

(** The store after one call, run as a transaction. *)
Definition exec (c : Call) (db : DB) : DB :=
  match c with
  | UpsertUser c n e a now => snd (mutation (upsertUser c n e a now) db)
  | UpdateOnlineStatus u o now => snd (mutation (updateOnlineStatus u o now) db)
  | GetOrCreateDirectConversation a b now =>
      snd (mutation (getOrCreateDirectConversation a b now) db)
  | CreateGroupConversation n ms c now =>
      snd (mutation (createGroupConversation n ms c now) db)
  | MarkAsRead u c now => snd (mutation (markAsRead u c now) db)
  | SendMessage c s b now => snd (mutation (sendMessage c s b now) db)
  | DeleteMessage m u => snd (mutation (deleteMessage m u) db)
  | ToggleReaction m u e => snd (mutation (toggleReaction m u e) db)
  | SetTyping c u now => snd (mutation (setTyping c u now) db)
  | ClearTyping c u => snd (mutation (clearTyping c u) db)
  end.

(** The stores that sequential calls can produce from the empty one. *)
Inductive reachable : DB → Prop :=
| reachable_empty : reachable empty_db
| reachable_exec c db : reachable db → reachable (exec c db).

(** [u] holds a Membership on conversation [c]. *)
Definition is_member (db : DB) (u c : nat) : Prop :=
  ∃ m, m ∈ conversationMembers db ∧ cm_userId m = u ∧ cm_conversationId m = c.

(** Well-formedness of the conversation tables: ids come from the
    counter, a direct conversation has two Membership rows, and two users
    share at most one direct conversation. *)
Record conv_wf (db : DB) : Prop := mk_conv_wf {
  wf_conv_fresh :
    ∀ c, c ∈ conversations db → conv_id c < nextId db;
  wf_member_fresh :
    ∀ m, m ∈ conversationMembers db → cm_conversationId m < nextId db;
  wf_conv_nodup : NoDup (conv_id <$> conversations db);
  wf_direct_two :
    ∀ c, c ∈ conversations db → isGroup c = false →
         length (members_by_conversationId (conv_id c) db) = 2;
  wf_direct_dedup :
    ∀ c1 c2 u v,
      c1 ∈ conversations db → c2 ∈ conversations db →
      isGroup c1 = false → isGroup c2 = false → u ≠ v →
      is_member db u (conv_id c1) → is_member db v (conv_id c1) →
      is_member db u (conv_id c2) → is_member db v (conv_id c2) →
      conv_id c1 = conv_id c2 }.

(** At most one Reaction per (message, user). *)
Definition reactions_unique (db : DB) : Prop :=
  ∀ m u, length (reactions_by_message_user m u db) ≤ 1.

(** At most one TypingIndicator per (user, conversation). *)
Definition typing_unique (db : DB) : Prop :=
  ∀ u c, length (typing_by_user_conversation u c db) ≤ 1.

(** The ids of the TypingIndicator rows are distinct and come from the
    counter. *)
Definition typing_ids_wf (db : DB) : Prop :=
  NoDup (ti_id <$> typingIndicators db)
  ∧ ∀ t, t ∈ typingIndicators db → ti_id t < nextId db.

(** Well-formedness of the users table: ids are distinct and come from
    the counter, and no two users share a [clerkId]. *)
Definition users_wf (db : DB) : Prop :=
  NoDup (user_id <$> users db)
  ∧ (∀ u, u ∈ users db → user_id u < nextId db)
  ∧ NoDup (clerkId <$> users db).

(** The invariants of the store together. *)
Definition store_wf (db : DB) : Prop :=
  conv_wf db ∧ reactions_unique db ∧ typing_unique db ∧ typing_ids_wf db.

(** The calls that write the TypingIndicator of user [u] in conversation
    [c]: [setTyping], [clearTyping] and [sendMessage] by [u] in [c]. *)
Definition writes_typing (c u : nat) (call : Call) : Prop :=
  match call with
  | SetTyping c' u' _ => c' = c ∧ u' = u
  | ClearTyping c' u' => c' = c ∧ u' = u
  | SendMessage c' s _ _ => c' = c ∧ s = u
  | _ => False
  end.

(** The direct conversation of the pair [{a, b}]: a non-group
    conversation whose member set is exactly [{a, b}]. *)
Definition direct_of (db : DB) (a b : nat) (conv : Conversation) : Prop :=
  conv ∈ conversations db ∧ isGroup conv = false ∧
  ∀ u, is_member db u (conv_id conv) ↔ u = a ∨ u = b.

(** A sequence of [getOrCreateDirectConversation] calls between [a] and
    [b]; [true] is a call with arguments [(a, b)], [false] one with
    [(b, a)].  The results are collected in call order. *)
Fixpoint runDirect (a b : nat) (calls : list (bool * Z)) (db : DB)
    : list (outcome nat) * DB :=
  match calls with
  | [] => ([], db)
  | (dir, now) :: rest =>
      let '(r, db') :=
        mutation (if dir : bool
                  then getOrCreateDirectConversation a b now
                  else getOrCreateDirectConversation b a now) db in
      let '(rs, db'') := runDirect a b rest db' in
      (r :: rs, db'')
  end.

(** The number of Messages of conversation [c] that are newer than the
    read cursor [cursor] and were not sent by [u]. *)
Definition unreadSpec (db : DB) (u c : nat) (cursor : Z) : nat :=
  length (filter (λ msg, msg_conversationId msg = c
                         ∧ (cursor < createdAt msg)%Z
                         ∧ senderId msg ≠ u) (messages db)).

(** A sequence of [deleteMessage] calls, each [(messageId, userId)]. *)
Definition runDeletes (calls : list (nat * nat)) (db : DB) : DB :=
  foldl (λ d c, snd (mutation (deleteMessage c.1 c.2) d)) db calls.

(** The typing-indicator table after [sendMessage] has removed the row
    of the sender [s] in conversation [c]. *)
Definition cleared (s c : nat) (db : DB)
    : list TypingIndicator → list TypingIndicator :=
  match head (typing_by_user_conversation s c db) with
  | Some t => deleted (_id t)
  | None => λ l, l
  end.

(** What the sidebar shows of an entry as far as unread counts go: the
    conversation and its [unreadCount]. *)
Definition badge (e : EnrichedConversation) : nat * nat :=
  (_id (conversation e), unreadCount e).

(** The store after a successful [toggleReaction m u e]. *)
Definition toggled (m u : nat) (e : string) (db : DB) : DB :=
  match reactions_by_message_user m u db with
  | [] =>
      set_reactions (λ l, l ++ [mkReaction (nextId db) m u e]) (set_nextId S db)
  | r :: _ =>
      if decide (emoji r = e) then set_reactions (deleted (_id r)) db
      else set_reactions
             (λ l, deleted (_id r) l ++ [mkReaction (nextId db) m u e])
             (set_nextId S db)
  end.

(** The result of the scan of [getOrCreateDirectConversation], read off
    the store: the conversation of the first Membership in [ms] whose
    conversation exists, is not a group, and has a Membership of
    [other]. *)
Fixpoint firstDirect (db : DB) (other : nat) (ms : list Member)
    : outcome (option nat) :=
  match ms with
  | [] => Ok None
  | m :: rest =>
      match get (cm_conversationId m) (conversations db) with
      | None => firstDirect db other rest
      | Some conv =>
          if isGroup conv then firstDirect db other rest
          else match members_by_user_conversation other (cm_conversationId m) db with
               | [] => firstDirect db other rest
               | [_] => Ok (Some (cm_conversationId m))
               | _ => Throw "unique() query returned more than one result"
               end
      end
  end.

(** The store after [getOrCreateDirectConversation a b] has created a
    conversation: one Conversation row and two Membership rows. *)
Definition created (a b : nat) (now : Z) (db : DB) : DB :=
  mkDB (users db)
       (conversations db ++ [mkConversation (nextId db) false None now])
       (conversationMembers db
          ++ [mkMember (S (nextId db)) (nextId db) a now;
              mkMember (S (S (nextId db))) (nextId db) b now])
       (messages db) (reactions db) (typingIndicators db)
       (S (S (S (nextId db)))).

(** [a] holds a Membership on an existing non-group conversation. *)
Definition holds_direct (db : DB) (a : nat) : Prop :=
  ∃ m conv, m ∈ conversationMembers db ∧ cm_userId m = a
            ∧ get (cm_conversationId m) (conversations db) = Some conv
            ∧ isGroup conv = false.

(** Conversation [c] is a non-group conversation whose Membership rows
    are one for [a] and one for [b]. *)
Definition canonical (db : DB) (a b c : nat) : Prop :=
  ∃ conv, conv ∈ conversations db ∧ conv_id conv = c ∧ isGroup conv = false
          ∧ cm_userId <$> members_by_conversationId c db ≡ₚ [a; b].

(** The Membership rows [createGroupConversation] writes for the users
    [us], with ids from [start] on. *)
Fixpoint groupRows (conv : nat) (now : Z) (start : nat) (us : list nat)
    : list Member :=
  match us with
  | [] => []
  | u :: us' => mkMember start conv u now :: groupRows conv now (S start) us'
  end.

(** The store after [createGroupConversation]: one Conversation row, a
    Membership row for the creator and one for each entry of
    [memberIds]. *)
Definition grouped (name_ : string) (memberIds : list nat) (creatorId : nat)
    (now : Z) (db : DB) : DB :=
  mkDB (users db)
       (conversations db ++ [mkConversation (nextId db) true (Some name_) now])
       (conversationMembers db
          ++ groupRows (nextId db) now (S (nextId db)) (creatorId :: memberIds))
       (messages db) (reactions db) (typingIndicators db)
       (S (S (nextId db)) + length memberIds).

(** The store after a successful [setTyping c u]. *)
Definition typed (c u : nat) (now : Z) (db : DB) : DB :=
  match head (typing_by_user_conversation u c db) with
  | Some t => set_typingIndicators (patched (_id t) (refreshed now)) db
  | None =>
      set_typingIndicators (λ l, l ++ [mkTypingIndicator (nextId db) c u now])
                           (set_nextId S db)
  end.

(** The same message, up to its [isDeleted] flag, which may only have
    been raised. *)
Definition persists (m m' : Message) : Prop :=
  msg_id m' = msg_id m ∧ msg_conversationId m' = msg_conversationId m
  ∧ senderId m' = senderId m ∧ body m' = body m ∧ createdAt m' = createdAt m
  ∧ (isDeleted m = true → isDeleted m' = true).

(** A sequence of calls, each run as a transaction. *)
Definition execs (cs : list Call) (db : DB) : DB :=
  foldl (λ d c, exec c d) db cs.

(** ** Concrete stores used as test inputs *)

(** Two users, synced from the identity provider. *)
Definition db_users : DB :=
  execs [UpsertUser "clerk_a" "Ann Lee" "ann@example.org" "a.png" 10;
         UpsertUser "clerk_b" "Bob" "bob@example.org" "b.png" 20] empty_db.

(** Users 1 and 2 share the direct conversation 0; user 1 sent "hi" and
    then "oops", and withdrew "oops". *)
Definition db_preview : DB :=
  execs [GetOrCreateDirectConversation 1 2 100;
         SendMessage 0 1 "hi" 1000;
         SendMessage 0 1 "oops" 2000;
         DeleteMessage 4 1] empty_db.

(** User 1 opened a direct conversation with itself. *)
Definition db_self : DB :=
  execs [GetOrCreateDirectConversation 1 1 100] empty_db.

(** User 1 created a group and named user 2 twice. *)
Definition db_group_twice : DB :=
  execs [CreateGroupConversation "g" [2; 2] 1 100] empty_db.

(** User 1 created a group and named itself among the members. *)
Definition db_group_self : DB :=
  execs [CreateGroupConversation "g" [1; 2] 1 100] empty_db.

(** Users 1 and 2 share the direct conversation 0; user 1 sent "hi". *)
Definition db_chat : DB :=
  execs [GetOrCreateDirectConversation 1 2 100;
         SendMessage 0 1 "hi" 1000] empty_db.

(** Some user other than [U] and the reader [V] has a TypingIndicator
    in [C] that is fresh at [t] and is listed under the name [n]: the
    name of that user's document, "Someone" when it has none. *)
Definition namesake (db : DB) (C U V : nat) (t : Z) (n : string) : Prop :=
  ∃ i, i ∈ typing_by_conversationId C db
       ∧ ti_userId i ≠ U ∧ ti_userId i ≠ V
       ∧ (t - updatedAt i < 2000)%Z
       ∧ match get (ti_userId i) (users db) with
         | Some w => name w = n
         | None => n = "Someone"
         end.

(** User 1 created group 0 and named user 2 twice; then user 1 sent
    "hi" into the group. *)
Definition db_group_unread : DB :=
  execs [CreateGroupConversation "g" [2; 2] 1 100;
         SendMessage 0 1 "hi" 1000] empty_db.

(** Users 0 and 1 are both named Sam; user 0 started typing in
    conversation 7 at 1000 and user 1 at 2500. *)
Definition db_namesakes : DB :=
  execs [UpsertUser "clerk_a" "Sam" "sam@example.org" "a.png" 10;
         UpsertUser "clerk_b" "Sam" "sam@example.com" "b.png" 20;
         SetTyping 7 0 1000;
         SetTyping 7 1 2500] empty_db.

(** Users 1 and 3, neither with a user document, started typing in
    conversation 0 at 1000 and at 2500. *)
Definition db_unnamed_typers : DB :=
  execs [SetTyping 0 1 1000; SetTyping 0 3 2500] empty_db.

(** One message, sent by user 1 in conversation 7. *)
Definition db_one_message : DB :=
  mkDB [] [] [] [mkMessage 0 7 1 "hi" 1000 false] [] [] 1.

End Spec.

(** * The client *)

(** ** src/lib/constants.ts *)

Module Constants.

Definition ALLOWED_REACTIONS : list string := ["👍"; "❤️"; "😂"; "😮"; "😢"].

Definition TYPING_EXPIRY_MS : Z := 2000.

Definition TYPING_DEBOUNCE_MS : Z := 500.

End Constants.

(** ** The mutations as the client calls them ([useMutation])

    A request carries the arguments; the time of the call is read by the
    handler on the server. *)

Module Api.
Import Spec.

Inductive Request : Type :=
| getOrCreateDirectConversation (currentUserId otherUserId : nat)
| createGroupConversation (name_ : string) (memberIds : list nat) (creatorId : nat)
| markAsRead (userId conversationId : nat)
| sendMessage (conversationId senderId_ : nat) (body_ : string)
| deleteMessage (messageId userId : nat)
| toggleReaction (messageId userId : nat) (emoji_ : string)
| setTyping (conversationId userId : nat)
| clearTyping (conversationId userId : nat).

(** The call the server runs for a request that arrives at [now]. *)
Definition serve (now : Z) (r : Request) : Call :=
  match r with
  | getOrCreateDirectConversation a b => GetOrCreateDirectConversation a b now
  | createGroupConversation n ms c => CreateGroupConversation n ms c now
  | markAsRead u c => MarkAsRead u c now
  | sendMessage c s b => SendMessage c s b now
  | deleteMessage m u => DeleteMessage m u
  | toggleReaction m u e => ToggleReaction m u e
  | setTyping c u => SetTyping c u now
  | clearTyping c u => ClearTyping c u
  end.

End Api.

(** ** src/services/conversationService.ts *)

Module ConversationService.
Import Conversations.

(** [members.find((m) => m._id !== currentUserId)]. *)
Definition getOtherUser (members : list User) (currentUserId : nat) : option User :=
  List.find (λ m, bool_decide (_id m ≠ currentUserId)) members.

Definition getDisplayName (conv : EnrichedConversation) (currentUserId : nat) : string :=
  if isGroup (conversation conv) then
    match conv_name (conversation conv) with
    | Some n => n
    | None => "Group"
    end
  else
    let otherUser :=
      List.find (λ m, bool_decide (_id m ≠ currentUserId)) (members conv) in
    match otherUser with
    | Some u => name u
    | None => "Unknown"
    end.

(** [s.split(" ")[0]]: the part of [s] before its first space. *)
Fixpoint firstWord (s : string) : string :=
  match s with
  | EmptyString => EmptyString
  | String c s' =>
      if Ascii.eqb c " "%char then EmptyString else String c (firstWord s')
  end.

Definition getMessagePreview
    (latestMessage : option Message) (senderName : option string) (isGroup_ : bool)
    : string :=
  match latestMessage with
  | None => "No messages yet"
  | Some m =>
      if isDeleted m then "This message was deleted"
      else
        let prefix :=
          match senderName with
          | Some n =>
              if isGroup_ && negb (String.eqb n "")
              then firstWord n +:+ ": " else ""
          | None => ""
          end in
        prefix +:+ body m
  end.

End ConversationService.

(** ** src/components/sidebar/ConversationItem.tsx

    What a row of the sidebar shows, apart from the initials of the avatar
    fallback and the formatted time. *)

Module ConversationItem.
Import Conversations.

Record Row := mkRow {
  displayName : string;
  rowAvatarUrl : string;
  rowIsOnline : bool;
  previewText : string;
  unreadBadge : option nat;
  memberLine : option nat }.

Definition render (conv : EnrichedConversation) (currentUserId : nat) : Row :=
  let group := isGroup (conversation conv) in
  let otherUser :=
    if group then None
    else ConversationService.getOtherUser (members conv) currentUserId in
  let displayName_ := ConversationService.getDisplayName conv currentUserId in
  let avatarUrl_ :=
    if group then ""
    else match otherUser with Some u => avatarUrl u | None => "" end in
  let isOnline_ :=
    if group then false
    else match otherUser with Some u => isOnline u | None => false end in
  let previewText_ :=
    ConversationService.getMessagePreview
      (latestMessage conv) (name <$> latestMessageSender conv) group in
  mkRow displayName_ avatarUrl_ isOnline_ previewText_
        (if decide (0 < unreadCount conv) then Some (unreadCount conv) else None)
        (if group then Some (memberCount conv) else None).

End ConversationItem.

(** ** src/services/messageService.ts *)

Module MessageService.

Record ReactionGroup := mkReactionGroup {
  group_emoji : string;
  count : nat;
  hasReacted : bool;
  group_users : list string }.

(** The accumulator of [groupReactions], an object keyed by emoji: its
    entries in the order the keys were added, which is the order
    [Object.values] lists them in.  The keys are emojis: no key is the
    name of a property that every object inherits. *)
Definition Groups : Type := list (string * ReactionGroup).

(** [acc[key]]. *)
Definition lookup (acc : Groups) (key : string) : option ReactionGroup :=
  snd <$> List.find (λ kv, bool_decide (kv.1 = key)) acc.

(** A write to the fields of [acc[key]]. *)
Definition update (key : string) (f : ReactionGroup → ReactionGroup) (acc : Groups)
    : Groups :=
  (λ kv, if decide (kv.1 = key) then (kv.1, f kv.2) else kv) <$> acc.

(** The callback of the [reduce]; a reaction comes with its
    [userName]. *)
Definition step (currentUserId : nat) (acc : Groups) (reaction : Reaction * string)
    : Groups :=
  let key := emoji reaction.1 in
  let acc1 :=
    match lookup acc key with
    | Some _ => acc
    | None => acc ++ [(key, mkReactionGroup key 0 false [])]
    end in
  update key
    (λ g, mkReactionGroup
            (group_emoji g) (S (count g))
            (if decide (r_userId reaction.1 = currentUserId)
             then true else hasReacted g)
            (group_users g ++ [reaction.2]))
    acc1.

Definition groupReactions (reactions : list (Reaction * string)) (currentUserId : nat)
    : Groups :=
  foldl (step currentUserId) [] reactions.

End MessageService.

(** ** src/services/reactionService.ts *)

Module ReactionService.


End ReactionService.

(** ** src/components/messages/MessageItem.tsx

    What a message bubble shows and offers: its text, the emojis of the
    reaction picker and the delete button (both behind a hover), and the
    reaction chips under the bubble.  [MessageList] passes
    [message.senderId === currentUserId] as [isOwnMessage]. *)

Module MessageItem.
Import Messages.

Record Bubble := mkBubble {
  text : string;
  picker : list string;
  deleteButton : bool;
  chips : list MessageService.ReactionGroup }.

Definition render (msg : EnrichedMessage) (isOwnMessage : bool) (currentUserId : nat)
    : Bubble :=
  let reactionGroups :=
    MessageService.groupReactions (enrichedReactions msg) currentUserId in
  mkBubble
    (if isDeleted (message msg) then "This message was deleted"
     else body (message msg))
    (if isDeleted (message msg) then [] else Constants.ALLOWED_REACTIONS)
    (negb (isDeleted (message msg)) && isOwnMessage)
    (snd <$> reactionGroups).

End MessageItem.

(** ** src/hooks/useTyping.ts *)

Module UseTyping.

(** The two refs of the hook: the time of the last [setTyping] sent, and
    the time at which the pending timer, if any, is due. *)
Record Refs := mkRefs {
  lastTypingRef : Z;
  typingTimeoutRef : option Z }.

Definition initialRefs : Refs := mkRefs 0 None.

(** [handleTyping], at time [now] of the clock of the client: the
    requests it sends and the refs it leaves. *)
Definition handleTyping (conversationId userId : option nat) (now : Z) (refs : Refs)
    : list Api.Request * Refs :=
  match conversationId, userId with
  | Some c, Some u =>
      let send := bool_decide (now - lastTypingRef refs > Constants.TYPING_DEBOUNCE_MS)%Z in
      (if send then [Api.setTyping c u] else [],
       mkRefs (if send then now else lastTypingRef refs)
              (Some (now + Constants.TYPING_EXPIRY_MS)%Z))
  | _, _ => ([], refs)
  end.

Definition stopTyping (conversationId userId : option nat) (refs : Refs)
    : list Api.Request * Refs :=
  match conversationId, userId with
  | Some c, Some u => ([Api.clearTyping c u], mkRefs (lastTypingRef refs) None)
  | _, _ => ([], refs)
  end.

End UseTyping.

(** ** src/hooks/useMessages.ts *)

Module UseMessages.

Section Trim.
(** [String.prototype.trim], a built-in of the language. *)
Variable trim : string → string.

Definition sendMessage (conversationId userId : option nat) (body_ : string)
    : list Api.Request :=
  match conversationId, userId with
  | Some c, Some u =>
      if decide (trim body_ = "") then []
      else [Api.sendMessage c u (trim body_)]
  | _, _ => []
  end.
End Trim.

Definition deleteMessage (userId : option nat) (messageId : nat) : list Api.Request :=
  match userId with
  | Some u => [Api.deleteMessage messageId u]
  | None => []
  end.

Definition toggleReaction (userId : option nat) (messageId : nat) (emoji_ : string)
    : list Api.Request :=
  match userId with
  | Some u => [Api.toggleReaction messageId u emoji_]
  | None => []
  end.

End UseMessages.

(** ** src/components/chat/ChatArea.tsx and the MessageInput of
    MessageList.tsx *)

Module ChatArea.

Section Trim.
Variable trim : string → string.

(** [handleSendMessage]: [stopTyping()], then [sendMessage(body)]. *)
Definition handleSendMessage (conversationId currentUserId : nat) (body_ : string)
    (refs : UseTyping.Refs) : list Api.Request * UseTyping.Refs :=
  let stopped := UseTyping.stopTyping (Some conversationId) (Some currentUserId) refs in
  (stopped.1
     ++ UseMessages.sendMessage trim (Some conversationId) (Some currentUserId) body_,
   stopped.2).

(** [handleSend] of the input, for the text [message] typed so far. *)
Definition handleSend (conversationId currentUserId : nat) (isSending : bool)
    (message : string) (refs : UseTyping.Refs)
    : list Api.Request * UseTyping.Refs :=
  let trimmed := trim message in
  if decide (trimmed = "") then ([], refs)
  else if isSending then ([], refs)
  else handleSendMessage conversationId currentUserId trimmed refs.
End Trim.

End ChatArea.

(** ** src/components/sidebar/CreateGroupDialog.tsx *)

Module CreateGroupDialog.

Definition toggleMember (prev : list nat) (userId : nat) : list nat :=
  if decide (userId ∈ prev)
  then filter (λ id, id ≠ userId) prev
  else prev ++ [userId].

Section Trim.
Variable trim : string → string.

(** [handleCreate], wired by the sidebar to [createGroupChat] of
    [useConversations] for the signed-in user. *)
Definition handleCreate (currentUserId : nat) (groupName : string)
    (selectedMembers : list nat) : list Api.Request :=
  if decide (trim groupName = "" ∨ length selectedMembers < 1) then []
  else [Api.createGroupConversation (trim groupName) selectedMembers currentUserId].
End Trim.

End CreateGroupDialog.

(** ** src/components/sidebar/UserSearch.tsx *)

Module UserSearch.
Import Users.

Section Builtins.
Variable trim : string → string.
Variable toLowerCase : string → string.

(** The users listed in the panel for the text [searchTerm] of the
    search box. *)
Definition listed (currentUserId : nat) (searchTerm : string) (db : DB) : list User :=
  if decide (trim searchTerm = "") then getAllUsers currentUserId db
  else searchUsers toLowerCase (trim searchTerm) currentUserId db.
End Builtins.

(** A click on a listed user: [handleSelectUser] of the sidebar, which
    calls [openDirectConversation] of [useConversations]. *)
Definition select (currentUserId : nat) (user : User) : list Api.Request :=
  [Api.getOrCreateDirectConversation currentUserId (_id user)].

End UserSearch.

(** ** convex/http.ts *)

Module Http.
Import Users.

(** The fields of a Clerk event that the webhook reads. *)
Record EmailAddress := mkEmailAddress {
  email_address : option string }.

Record UserData := mkUserData {
  id : string;
  first_name : option string;
  last_name : option string;
  email_addresses : option (list EmailAddress);
  image_url : option string }.

Record Body := mkBody {
  type : string;
  data : UserData }.

Record Response := mkResponse {
  responseBody : string;
  status : nat }.

Section Trim.
(** [String.prototype.trim], a built-in of the language. *)
Variable trim : string → string.

(** The name the webhook passes on. *)
Definition displayName (userData : UserData) : string :=
  let trimmed :=
    trim (default "" (first_name userData) +:+ " "
            +:+ default "" (last_name userData)) in
  if decide (trimmed = "") then "Anonymous" else trimmed.

(** The handler of [POST /clerk-webhook]; the mutation it runs is a
    transaction of its own. *)
Definition handler (body : Body) (now : Z) : M Response :=
  λ db,
    let eventType := type body in
    if decide (eventType = "user.created" ∨ eventType = "user.updated") then
      let userData := data body in
      let clerkId_ := id userData in
      let name_ := displayName userData in
      let email_ :=
        match email_addresses userData with
        | Some (address :: _) => default "" (email_address address)
        | _ => ""
        end in
      let avatarUrl_ := default "" (image_url userData) in
      match mutation (upsertUser clerkId_ name_ email_ avatarUrl_ now) db with
      | (Ok _, db') => (Ok (mkResponse "OK" 200), db')
      | (Throw e, db') => (Throw e, db')
      end
    else (Ok (mkResponse "OK" 200), db).
End Trim.

End Http.

(** ** Runs of the client against the store *)

Module ClientSpec.
Import Users Conversations Messages Reactions Typing Spec.

(** The store after the requests [rs] have been served in order, each at
    time [now]. *)
Definition served (now : Z) (rs : list Api.Request) (db : DB) : DB :=
  execs (Api.serve now <$> rs) db.

(** The answer of the server to a request that arrives at [now]:
    whether the mutation threw, and the store it leaves. *)
Definition answer {A} (r : outcome A * DB) : outcome () * DB :=
  (match r.1 with Ok _ => Ok () | Throw e => Throw e end, r.2).

Definition respond (now : Z) (r : Api.Request) (db : DB) : outcome () * DB :=
  match r with
  | Api.getOrCreateDirectConversation a b =>
      answer (mutation (getOrCreateDirectConversation a b now) db)
  | Api.createGroupConversation n ms c =>
      answer (mutation (createGroupConversation n ms c now) db)
  | Api.markAsRead u c => answer (mutation (markAsRead u c now) db)
  | Api.sendMessage c s b => answer (mutation (sendMessage c s b now) db)
  | Api.deleteMessage m u => answer (mutation (deleteMessage m u) db)
  | Api.toggleReaction m u e => answer (mutation (toggleReaction m u e) db)
  | Api.setTyping c u => answer (mutation (setTyping c u now) db)
  | Api.clearTyping c u => answer (mutation (clearTyping c u) db)
  end.


(** What [groupReactions] makes of the group [g] of emoji [e] over the
    reactions [rs]: those with emoji [e] are counted and their users
    appended, in order. *)
Definition grown (u : nat) (e : string) (rs : list (Reaction * string))
    (g : MessageService.ReactionGroup) : MessageService.ReactionGroup :=
  let mine := filter (λ r, emoji r.1 = e) rs in
  MessageService.mkReactionGroup
    (MessageService.group_emoji g)
    (MessageService.count g + length mine)
    (if decide (Exists (λ r, r_userId r.1 = u) mine)
     then true else MessageService.hasReacted g)
    (MessageService.group_users g ++ (snd <$> mine)).

(** The times, among the keystrokes at [keys], at which [handleTyping]
    sends a [setTyping]. *)
Fixpoint sentAt (c u : nat) (keys : list Z) (refs : UseTyping.Refs) : list Z :=
  match keys with
  | [] => []
  | now :: keys' =>
      let r := UseTyping.handleTyping (Some c) (Some u) now refs in
      (if decide (r.1 = []) then [] else [now]) ++ sentAt c u keys' r.2
  end.

(** The refs after the keystrokes at [keys]. *)
Definition typedKeys (c u : nat) (keys : list Z) (refs : UseTyping.Refs)
    : UseTyping.Refs :=
  foldl (λ r now, (UseTyping.handleTyping (Some c) (Some u) now r).2) refs keys.

(** The selection of the group dialog after clicks on the users [clicks]. *)
Definition selection (clicks : list nat) : list nat :=
  foldl CreateGroupDialog.toggleMember [] clicks.

(** A [trim] for tests: it removes the spaces at both ends. *)
Fixpoint trimStart (s : string) : string :=
  match s with
  | String c s' => if Ascii.eqb c " "%char then trimStart s' else s
  | EmptyString => EmptyString
  end.

Fixpoint trimEnd (s : string) : string :=
  match s with
  | String c s' =>
      match trimEnd s' with
      | EmptyString => if Ascii.eqb c " "%char then EmptyString else String c EmptyString
      | t => String c t
      end
  | EmptyString => EmptyString
  end.

Definition trimSpaces (s : string) : string := trimEnd (trimStart s).

(** Ann and Bob share the direct conversation 2; Ann sent "hi" and Bob
    reacted to it. *)
Definition db_talk : DB :=
  execs [GetOrCreateDirectConversation 0 1 100;
         SendMessage 2 0 "hi" 1000;
         ToggleReaction 5 1 "👍"] db_users.

End ClientSpec.


Import Users Conversations Messages Reactions Typing Spec.


(** * Verification *)

(** ** Facts about lists *)

Lemma filter_none {A} (P : A → Prop) `{∀ x, Decision (P x)} (l : list A) :
  (∀ x, x ∈ l → ¬ P x) → filter P l = [].
Proof.
  induction l as [|x l IH]; intros Hall; [done|].
  rewrite filter_cons_False by (apply Hall; left).
  apply IH. intros y Hy. apply Hall. by right.
Qed.

Lemma filter_all {A} (P : A → Prop) `{∀ x, Decision (P x)} (l : list A) :
  (∀ x, x ∈ l → P x) → filter P l = l.
Proof.
  induction l as [|x l IH]; intros Hall; [done|].
  rewrite filter_cons_True by (apply Hall; left).
  f_equal. apply IH. intros y Hy. apply Hall. by right.
Qed.

Lemma filter_nil_elem {A} (P : A → Prop) `{∀ x, Decision (P x)} (l : list A) x :
  filter P l = [] → x ∈ l → ¬ P x.
Proof.
  intros Hnil Hin HP.
  assert (Hx : x ∈ filter P l) by (by apply list_elem_of_filter).
  rewrite Hnil in Hx. by apply elem_of_nil in Hx.
Qed.

Lemma filter_singleton_elem {A} (P : A → Prop) `{∀ x, Decision (P x)}
    (l : list A) x y :
  filter P l = [y] → x ∈ l → P x → x = y.
Proof.
  intros Hy Hin HP.
  assert (Hx : x ∈ filter P l) by (by apply list_elem_of_filter).
  rewrite Hy in Hx. by apply list_elem_of_singleton in Hx.
Qed.

Lemma omap_pointwise {A B} (f g : A → option B) (l : list A) :
  (∀ x, f x = g x) → omap f l = omap g l.
Proof.
  intros Hfg. induction l as [|x l IH]; [done|].
  cbn. rewrite Hfg. destruct (g x); [f_equal|]; exact IH.
Qed.

(** ** Facts about the store interface *)

Section StoreFacts.
Context {R : Type} `{Doc R}.
Implicit Types (t : list R) (r : R) (i j : nat) (f : R → R).

Lemma get_Some i t r : get i t = Some r → r ∈ t ∧ _id r = i.
Proof.
  unfold get. intros Hh.
  assert (Hin : r ∈ filter (λ r, _id r = i) t).
  { destruct (filter _ t) as [|x l]; simplify_eq/=. left. }
  apply list_elem_of_filter in Hin. tauto.
Qed.

Lemma get_None i t : get i t = None ↔ ∀ r, r ∈ t → _id r ≠ i.
Proof.
  unfold get. split.
  - intros Hh r Hin Hid.
    assert (Hf : r ∈ filter (λ r, _id r = i) t) by (apply list_elem_of_filter; done).
    destruct (filter _ t); [by apply elem_of_nil in Hf | done].
  - intros Hall. induction t as [|x t IH]; [done|].
    rewrite filter_cons. destruct (decide (_id x = i)) as [Hx|Hx].
    + exfalso. eapply Hall; [left | done].
    + apply IH. intros r Hr. apply Hall. by right.
Qed.

Lemma get_is_Some i t r : r ∈ t → _id r = i → is_Some (get i t).
Proof.
  intros Hin Hid. destruct (get i t) eqn:Hg; [by eexists|].
  exfalso. eapply get_None; eauto.
Qed.

Lemma get_NoDup i t r :
  NoDup (_id <$> t) → r ∈ t → _id r = i → get i t = Some r.
Proof.
  unfold get. induction t as [|x t IH]; intros Hnd Hin Hid.
  - by apply elem_of_nil in Hin.
  - rewrite fmap_cons in Hnd. apply NoDup_cons in Hnd as [Hx Hnd].
    rewrite filter_cons. apply elem_of_cons in Hin as [->|Hin].
    + by rewrite decide_True.
    + rewrite decide_False; [by apply IH|].
      intros Hxi. apply Hx. rewrite Hxi, <- Hid. by apply list_elem_of_fmap_2.
Qed.

Lemma get_patched i j f t :
  (∀ r, _id (f r) = _id r) →
  get j (patched i f t) = (if decide (j = i) then f <$> get j t else get j t).
Proof.
  intros Hf. unfold get, patched. induction t as [|x t IH].
  - by destruct (decide (j = i)).
  - rewrite fmap_cons, !filter_cons.
    destruct (decide (_id x = i)) as [Hx|Hx].
    + rewrite Hf. destruct (decide (_id x = j)) as [Hj|Hj].
      * simpl. rewrite decide_True by congruence. done.
      * apply IH.
    + destruct (decide (_id x = j)) as [Hj|Hj].
      * simpl. rewrite decide_False by congruence. done.
      * apply IH.
Qed.

Lemma elem_of_patched i f t r :
  r ∈ patched i f t ↔
  ∃ r0, r0 ∈ t ∧ r = (if decide (_id r0 = i) then f r0 else r0).
Proof.
  unfold patched. rewrite list_elem_of_fmap. split; intros (r0 & ? & ?); eauto.
Qed.

Lemma length_patched i f t : length (patched i f t) = length t.
Proof. apply length_fmap. Qed.

Lemma elem_of_deleted i t r : r ∈ deleted i t ↔ _id r ≠ i ∧ r ∈ t.
Proof. unfold deleted. by rewrite list_elem_of_filter. Qed.

End StoreFacts.

(** The handler of [unique] on a read with at most one document. *)
Lemma unique_le1 {R} (l : list R) (db : DB) :
  length l ≤ 1 → unique l db = (Ok (head l), db).
Proof. destruct l as [|x [|y l]]; simpl; intros; [done|done|lia]. Qed.

Lemma unique_ok {R} (l : list R) (db db' : DB) o :
  unique l db = (Ok o, db') → db' = db ∧ o = head l ∧ length l ≤ 1.
Proof.
  destruct l as [|x [|y l]]; simpl; intros Hu; inversion Hu; subst; auto.
Qed.

(** ** Sorting *)

Section Sorting.
Context {A : Type} (key : A → Z).

Lemma insert_by_Permutation x l : insert_by key x l ≡ₚ x :: l.
Proof.
  induction l as [|y l IH]; simpl; [done|].
  case_decide; [done|]. rewrite IH. apply Permutation_swap.
Qed.

Lemma sort_by_Permutation l : sort_by key l ≡ₚ l.
Proof.
  induction l as [|x l IH]; simpl; [done|].
  unfold sort_by in *. simpl. rewrite insert_by_Permutation. by rewrite IH.
Qed.

Lemma elem_of_sort_by x l : x ∈ sort_by key l ↔ x ∈ l.
Proof. by rewrite sort_by_Permutation. Qed.

Lemma insert_by_last_max x l : last_max key l → last_max key (insert_by key x l).
Proof.
  unfold last_max. induction l as [|y l IH]; simpl; intros Hl z Hz w Hw.
  - simplify_eq. apply list_elem_of_singleton in Hw. subst. lia.
  - case_decide as Hxy.
    + change (x :: y :: l) with ([x] ++ y :: l) in Hz.
      rewrite last_app_cons in Hz.
      apply elem_of_cons in Hw as [->|Hw].
      * specialize (Hl z Hz y). etrans; [exact Hxy|]. apply Hl. left.
      * by apply (Hl z Hz).
    + destruct l as [|y' l].
      * simpl in *. simplify_eq.
        apply elem_of_cons in Hw as [->|Hw]; [lia|].
        apply list_elem_of_singleton in Hw. subst. lia.
      * assert (Hz' : last (insert_by key x (y' :: l)) = Some z).
        { destruct (insert_by key x (y' :: l)) eqn:He; [|done].
          exfalso. apply (f_equal length) in He.
          rewrite (Permutation_length (insert_by_Permutation x (y' :: l))) in He.
          done. }
        assert (Hsub : last_max key (y' :: l)).
        { intros a Ha b Hb. apply (Hl a); [done | by right]. }
        apply elem_of_cons in Hw as [Hwy|Hw].
        -- subst w.
           assert (Hyl : ∃ a, last (y' :: l) = Some a).
           { destruct (last (y' :: l)) eqn:E; [eauto|].
             apply last_None in E. done. }
           destruct Hyl as [a Ha].
           assert (key y ≤ key a)%Z by (apply (Hl a Ha); left).
           assert (key a ≤ key z)%Z.
           { apply (IH Hsub z Hz'). rewrite insert_by_Permutation. right.
             apply last_Some in Ha as [l' Hl']. rewrite Hl'.
             apply elem_of_app. right. left. }
           lia.
        -- by apply (IH Hsub z Hz').
Qed.

Lemma sort_by_last_max l : last_max key (sort_by key l).
Proof.
  induction l as [|x l IH]; [by intros ??|].
  apply insert_by_last_max, IH.
Qed.

Lemma sort_by_last x l :
  last (sort_by key l) = Some x → x ∈ l ∧ ∀ y, y ∈ l → (key y ≤ key x)%Z.
Proof.
  intros Hl. split.
  - apply elem_of_sort_by. apply last_Some in Hl as [l' Hl']. rewrite Hl'.
    apply elem_of_app. right. left.
  - intros y Hy. apply (sort_by_last_max l x Hl). by apply elem_of_sort_by.
Qed.

Lemma sort_by_last_is_Some l : l ≠ [] → is_Some (last (sort_by key l)).
Proof.
  intros Hne. destruct (last (sort_by key l)) eqn:E; [by eexists|].
  apply last_None in E. apply (f_equal length) in E.
  rewrite (Permutation_length (sort_by_Permutation l)) in E.
  destruct l; done.
Qed.

End Sorting.


(** Unfolding of the monad of handlers. *)
Ltac munfold :=
  unfold mutation, patch_user, patch_member, patch_message,
    patch_typingIndicator, delete_reaction, delete_typingIndicator,
    insert_user, insert_conversation, insert_member, insert_message,
    insert_reaction, insert_typingIndicator, fresh,
    mbind, M_bind, mret, M_ret, gets, modify, throw in *.

(** ** Soft delete *)

Lemma deleteMessage_cases (db : DB) (mid r : nat) :
  (mutation (deleteMessage mid r) db).2 = db
  ∨ (mutation (deleteMessage mid r) db).2
    = set_messages (patched mid withdrawn) db.
Proof.
  unfold deleteMessage. munfold. simpl.
  destruct (get mid (messages db)) as [m|] eqn:Hg; simpl; [|by left].
  case_decide; simpl; [by left|].
  rewrite Hg. simpl. by right.
Qed.

Lemma deleteMessage_keeps_deleted (db : DB) (mid mid' r : nat) :
  isDeleted <$> get mid (messages db) = Some true →
  isDeleted <$> get mid (messages (mutation (deleteMessage mid' r) db).2)
  = Some true.
Proof.
  intros Hd. destruct (deleteMessage_cases db mid' r) as [-> | ->]; [done|].
  simpl. rewrite get_patched by done.
  case_decide; [|done].
  destruct (get mid (messages db)); simplify_eq/=. done.
Qed.

(** C5: [deleteMessage] by a requester who is not the sender throws the
    permission error and writes nothing, so the flag and the rest of the
    store are as before; by the sender it sets [isDeleted] to [true] and
    changes nothing else; and no later sequence of [deleteMessage] calls,
    by anybody, brings a withdrawn message back. *)
Theorem deleteMessage_owner_only (db : DB) (mid r : nat) (msg : Message) :
  get mid (messages db) = Some msg →
  (senderId msg ≠ r →
     deleteMessage mid r db
       = (Throw "You can only delete your own messages", db)
     ∧ mutation (deleteMessage mid r) db
       = (Throw "You can only delete your own messages", db))
  ∧ (senderId msg = r →
     mutation (deleteMessage mid r) db
       = (Ok (), set_messages (patched mid withdrawn) db)
     ∧ get mid (messages (mutation (deleteMessage mid r) db).2)
       = Some (withdrawn msg))
  ∧ (isDeleted msg = true →
     ∀ calls, isDeleted <$> get mid (messages (runDeletes calls db)) = Some true).
Proof.
  intros Hg. split; [|split].
  - intros Hne. unfold deleteMessage. munfold. simpl. rewrite Hg.
    rewrite decide_True by done. done.
  - intros He.
    assert (Hm : mutation (deleteMessage mid r) db
                 = (Ok (), set_messages (patched mid withdrawn) db)).
    { unfold deleteMessage. munfold. simpl. rewrite Hg.
      rewrite decide_False by (intros ?; done). simpl. rewrite Hg. done. }
    split; [done|]. rewrite Hm. simpl.
    rewrite get_patched by done. rewrite decide_True by done. by rewrite Hg.
  - intros Hd calls.
    assert (H0 : isDeleted <$> get mid (messages db) = Some true)
      by (by rewrite Hg; simpl; f_equal).
    clear Hg Hd. revert db H0. unfold runDeletes.
    induction calls as [|[m' r'] calls IH]; intros db H0; [done|].
    simpl. apply IH. by apply deleteMessage_keeps_deleted.
Qed.

Lemma deleteMessage_owner_only_witness :
  let msg := mkMessage 0 7 1 "hi" 1000 false in
  let db' := (mutation (deleteMessage 0 1) db_one_message).2 in
  mutation (deleteMessage 0 2) db_one_message
    = (Throw "You can only delete your own messages", db_one_message)
  ∧ get 0 (messages db') = Some (withdrawn msg)
  ∧ isDeleted <$> get 0 (messages (runDeletes [(0, 1); (0, 2); (0, 1)] db'))
    = Some true.
Proof.
  intros msg db'. split; [|split].
  - apply (deleteMessage_owner_only db_one_message 0 2 msg); [reflexivity|].
    simpl. lia.
  - apply (deleteMessage_owner_only db_one_message 0 1 msg); reflexivity.
  - apply (deleteMessage_owner_only db' 0 1 (withdrawn msg)); reflexivity.
Defined.


(** ** Mutations on a missing target *)

Lemma markAsRead_absent (db : DB) (u c : nat) (now : Z) :
  members_by_user_conversation u c db = [] →
  markAsRead u c now db = (Ok (), db).
Proof. intros Hm. unfold markAsRead. munfold. simpl. by rewrite Hm. Qed.

(** C8, the claim as stated fails: on a store with no Membership at all,
    [markAsRead] returns normally and leaves the store as it was. *)
Lemma markAsRead_missing_counterexample :
  members_by_user_conversation 1 0 empty_db = []
  ∧ mutation (markAsRead 1 0 5) empty_db = (Ok (), empty_db).
Proof. split; reflexivity. Qed.

(** C8, amended: [deleteMessage] on an id that names no Message throws
    "Message not found" and writes nothing; [markAsRead] for a pair with
    no Membership returns normally and writes nothing. *)
Theorem missing_target_behaviour (db : DB) :
  (∀ mid r, get mid (messages db) = None →
     mutation (deleteMessage mid r) db = (Throw "Message not found", db))
  ∧ (∀ u c now, members_by_user_conversation u c db = [] →
     mutation (markAsRead u c now) db = (Ok (), db)).
Proof.
  split.
  - intros mid r Hg. unfold deleteMessage. munfold. simpl. by rewrite Hg.
  - intros u c now Hm. unfold mutation. by rewrite markAsRead_absent.
Qed.

(** ** Sending a message *)

Lemma sendMessage_spec (db : DB) (c s : nat) (b : string) (now : Z) :
  length (typing_by_user_conversation s c db) ≤ 1 →
  mutation (sendMessage c s b now) db
  = (Ok (nextId db),
     set_typingIndicators (cleared s c db)
       (set_messages (λ l, l ++ [mkMessage (nextId db) c s b now false])
          (set_nextId S db))).
Proof.
  intros Hu. unfold sendMessage, cleared. munfold. simpl.
  unfold typing_by_user_conversation in *. simpl.
  destruct (filter _ (typingIndicators db)) as [|t [|t' l]] eqn:Hf;
    simpl in *; [done| |lia].
  assert (Hin : t ∈ typingIndicators db).
  { assert (Ht : t ∈ filter (λ t, ti_userId t = s ∧ ti_conversationId t = c)
                      (typingIndicators db)) by (rewrite Hf; left).
    apply list_elem_of_filter in Ht. tauto. }
  destruct (get_is_Some (ti_id t) _ t Hin eq_refl) as [t0 Ht0].
  unfold _id, TypingIndicator_doc in *. rewrite Ht0. done.
Qed.

(** [sendMessage] does not inspect the body: whatever the body, it
    returns the id of the new message and appends that message with the
    body as given. *)
Lemma sendMessage_any_body (db : DB) (c s : nat) (b : string) (now : Z) :
  length (typing_by_user_conversation s c db) ≤ 1 →
  ∃ db', mutation (sendMessage c s b now) db = (Ok (nextId db), db')
         ∧ messages db' = messages db ++ [mkMessage (nextId db) c s b now false].
Proof.
  intros Hu. eexists. split; [by apply sendMessage_spec|]. done.
Qed.

(** C2: called with the empty body, and with a body of three spaces,
    [sendMessage] throws no validation error: it returns the id of a new
    message and stores a Message with that body. *)
Theorem sendMessage_empty_body_stored :
  mutation (sendMessage 0 1 "" 5) empty_db
    = (Ok 0, mkDB [] [] [] [mkMessage 0 0 1 "" 5 false] [] [] 1)
  ∧ mutation (sendMessage 0 1 "   " 5) empty_db
    = (Ok 0, mkDB [] [] [] [mkMessage 0 0 1 "   " 5 false] [] [] 1).
Proof. split; reflexivity. Qed.


(** ** Typing indicators *)

Lemma filter_patched {R} `{Doc R} (P : R → Prop) `{∀ r, Decision (P r)}
    (i : nat) (f : R → R) (l : list R) :
  (∀ r, P (f r) ↔ P r) →
  filter P (patched i f l) = patched i f (filter P l).
Proof.
  intros HP. unfold patched. induction l as [|x l IH]; [done|].
  rewrite fmap_cons, !filter_cons.
  destruct (decide (P x)) as [Hx|Hx].
  - rewrite decide_True by (case_decide; [by apply HP|done]).
    rewrite fmap_cons. by rewrite IH.
  - rewrite decide_False by (case_decide; [by rewrite HP|done]). done.
Qed.

(** After a successful [setTyping] the pair has one row, stamped [now]. *)
Lemma setTyping_row (db : DB) (C U : nat) (now : Z) :
  length (typing_by_user_conversation U C db) ≤ 1 →
  ∃ db' x, mutation (setTyping C U now) db = (Ok (), db')
           ∧ typing_by_user_conversation U C db' = [x]
           ∧ updatedAt x = now.
Proof.
  intros Hu. unfold setTyping. munfold. simpl.
  destruct (typing_by_user_conversation U C db) as [|x [|y l]] eqn:Hf;
    simpl in *; [| |lia].
  - eexists _, _. split; [done|].
    unfold typing_by_user_conversation in *. simpl.
    rewrite filter_app, Hf. simpl.
    rewrite filter_cons, decide_True by done. done.
  - assert (Hin : x ∈ typingIndicators db).
    { assert (Hx : x ∈ typing_by_user_conversation U C db) by (rewrite Hf; left).
      apply list_elem_of_filter in Hx. tauto. }
    destruct (get_is_Some (ti_id x) _ x Hin eq_refl) as [x0 Hx0].
    unfold _id, TypingIndicator_doc in *. rewrite Hx0.
    eexists _, _. split; [done|].
    unfold typing_by_user_conversation in *. simpl.
    rewrite filter_patched by done. rewrite Hf.
    unfold patched. simpl. rewrite decide_True by done. done.
Qed.

(** Who is counted as typing: the users of the rows of the conversation
    that are young enough and do not belong to the reader. *)
Lemma activeIndicators_user (db : DB) (C V U : nat) (t : Z) :
  U ∈ ti_userId <$> activeIndicators C V t db ↔
  U ≠ V ∧ ∃ i, i ∈ typing_by_user_conversation U C db
               ∧ (t - updatedAt i < TYPING_EXPIRY_MS)%Z.
Proof.
  unfold activeIndicators, typing_by_conversationId, typing_by_user_conversation.
  rewrite list_elem_of_fmap. split.
  - intros (i & -> & Hi).
    apply list_elem_of_filter in Hi as [[Hne Ht] Hi].
    apply list_elem_of_filter in Hi as [Hc Hi].
    split; [done|]. exists i. split; [|done].
    apply list_elem_of_filter. done.
  - intros (Hne & i & Hi & Ht).
    apply list_elem_of_filter in Hi as [[Hu Hc] Hi].
    exists i. split; [done|].
    apply list_elem_of_filter. split; [by rewrite Hu|].
    apply list_elem_of_filter. done.
Qed.

(** The names [getTypingUsers] lists: one for each row of the conversation
    that is young enough and does not belong to the reader, the name of the
    user's document or "Someone". *)
Lemma getTypingUsers_elem (db : DB) (C W : nat) (t : Z) (n : string) :
  n ∈ getTypingUsers C W t db ↔
  ∃ i, i ∈ typing_by_conversationId C db
       ∧ ti_userId i ≠ W ∧ (t - updatedAt i < 2000)%Z
       ∧ match get (ti_userId i) (users db) with
         | Some w => name w = n
         | None => n = "Someone"
         end.
Proof.
  unfold getTypingUsers, activeIndicators, typingName, TYPING_EXPIRY_MS.
  rewrite list_elem_of_fmap. split.
  - intros (i & Hn & Hi). apply list_elem_of_filter in Hi as [[Hne Ht] Hi].
    exists i. split; [done|]. split; [done|]. split; [done|].
    by destruct (get (ti_userId i) (users db)).
  - intros (i & Hi & Hne & Ht & Hn). exists i. split.
    + by destruct (get (ti_userId i) (users db)).
    + apply list_elem_of_filter. done.
Qed.

(** What [getTypingUsers] reports about a user [U] whose only row in the
    conversation carries the stamp [t0]: the row is active until
    [t0 + 2000] for every reader but [U]; the name of [U] is listed when
    the row is active, and otherwise only under a namesake. *)
Lemma typer_of_row (db' : DB) (C U V : nat) (t0 t : Z) (x : TypingIndicator) :
  U ≠ V →
  typing_by_user_conversation U C db' = [x] → updatedAt x = t0 →
  (U ∈ ti_userId <$> activeIndicators C V t db' ↔ (t - t0 < 2000)%Z)
  ∧ (U ∉ ti_userId <$> activeIndicators C U t db')
  ∧ ∀ n, match get U (users db') with
         | Some usr => n = name usr
         | None => n = "Someone"
         end →
         (n ∈ getTypingUsers C V t db'
          ↔ (t - t0 < 2000)%Z ∨ namesake db' C U V t n)
         ∧ (n ∈ getTypingUsers C U t db' ↔ namesake db' C U U t n).
Proof.
  intros Hne Hrow Hx.
  assert (Hid : ∀ W, U ∈ ti_userId <$> activeIndicators C W t db'
                     ↔ U ≠ W ∧ (t - t0 < 2000)%Z).
  { intros W. rewrite activeIndicators_user, Hrow. unfold TYPING_EXPIRY_MS.
    split.
    - intros (? & i & Hi & Ht). apply list_elem_of_singleton in Hi. subst i.
      by rewrite <- Hx.
    - intros [? Ht]. split; [done|]. exists x. rewrite Hx. split; [left|done]. }
  assert (Hxin : x ∈ typing_by_user_conversation U C db') by (rewrite Hrow; left).
  apply list_elem_of_filter in Hxin as [[HxU HxC] Hxin].
  assert (Hown : ∀ i, i ∈ typing_by_conversationId C db' → ti_userId i = U → i = x).
  { intros i Hi Hu. apply list_elem_of_filter in Hi as [Hc Hi].
    assert (Hin : i ∈ typing_by_user_conversation U C db')
      by (by apply list_elem_of_filter).
    rewrite Hrow in Hin. by apply list_elem_of_singleton in Hin. }
  split; [|split].
  - rewrite Hid. tauto.
  - rewrite Hid. tauto.
  - intros n Hn. split.
    + rewrite getTypingUsers_elem. split.
      * intros (i & Hi & HiV & Ht & Hname).
        destruct (decide (ti_userId i = U)) as [HiU|HiU].
        -- left. rewrite (Hown i Hi HiU) in Ht. by rewrite <- Hx.
        -- right. exists i. done.
      * intros [Ht|(i & Hi & HiU & HiV & Ht & Hname)].
        -- exists x. split; [by apply list_elem_of_filter|].
           split; [by rewrite HxU|]. split; [by rewrite Hx|].
           rewrite HxU. by destruct (get U (users db')).
        -- exists i. done.
    + rewrite getTypingUsers_elem. split.
      * intros (i & Hi & HiU & Ht & Hname). exists i. done.
      * intros (i & Hi & HiU & _ & Ht & Hname). exists i. done.
Qed.


(** ** The sidebar query *)

Lemma elem_of_messages_index (db : DB) (c : nat) (msg : Message) :
  msg ∈ messages_by_conversation_createdAt c db ↔
  msg ∈ messages db ∧ msg_conversationId msg = c.
Proof.
  unfold messages_by_conversation_createdAt.
  rewrite elem_of_sort_by, list_elem_of_filter. tauto.
Qed.

(** The count the loop computes on the index read is the count over the
    whole table. *)
Lemma unread_count_index (db : DB) (u c : nat) (cursor : Z) :
  length (filter (λ msg, (cursor < createdAt msg)%Z ∧ senderId msg ≠ u)
                 (messages_by_conversation_createdAt c db))
  = unreadSpec db u c cursor.
Proof.
  unfold messages_by_conversation_createdAt, unreadSpec.
  rewrite (filter_Permutation _ _ _ (sort_by_Permutation createdAt _)).
  rewrite list_filter_filter. f_equal. apply list_filter_iff. tauto.
Qed.

Lemma enrich_Some (db : DB) (u : nat) (m : Member) (e : EnrichedConversation) :
  enrich db u m = Some e →
  get (cm_conversationId m) (conversations db) = Some (conversation e)
  ∧ _id (conversation e) = cm_conversationId m
  ∧ latestMessage e = last (messages_by_conversation_createdAt (cm_conversationId m) db)
  ∧ unreadCount e = unreadSpec db u (cm_conversationId m) (lastReadAt m).
Proof.
  unfold enrich. destruct (get _ (conversations db)) as [conv|] eqn:Hg; [|done].
  intros He. simplify_eq. simpl.
  destruct (get_Some _ _ _ Hg) as [_ Hid]. rewrite Hid.
  rewrite head_reverse, unread_count_index. done.
Qed.

Lemma enrich_is_Some (db : DB) (u : nat) (m : Member) (conv : Conversation) :
  get (cm_conversationId m) (conversations db) = Some conv →
  ∃ e, enrich db u m = Some e ∧ conversation e = conv.
Proof. intros Hg. unfold enrich. rewrite Hg. eauto. Qed.

Lemma elem_of_getUserConversations (db : DB) (u : nat) (e : EnrichedConversation) :
  e ∈ getUserConversations u db ↔
  ∃ m, m ∈ conversationMembers db ∧ cm_userId m = u ∧ enrich db u m = Some e.
Proof.
  unfold getUserConversations, members_by_userId.
  rewrite elem_of_sort_by, list_elem_of_omap.
  split; intros (m & Hm & He).
  - apply list_elem_of_filter in Hm as [? ?]. exists m. done.
  - destruct He as [? ?]. exists m. split; [|done]. apply list_elem_of_filter. done.
Qed.

(** C6, the claim as stated fails: the last message of the conversation
    is withdrawn, an earlier one is not, and the preview handed to user 2
    is the withdrawn one. *)
Lemma preview_withdrawn_counterexample :
  messages db_preview
    = [mkMessage 3 0 1 "hi" 1000 false; mkMessage 4 0 1 "oops" 2000 true]
  ∧ latestMessage <$> getUserConversations 2 db_preview
    = [Some (mkMessage 4 0 1 "oops" 2000 true)].
Proof. split; reflexivity. Qed.

(** C6, amended: every conversation of which [U] holds a Membership has
    an entry in [getUserConversations U], and the preview of an entry is
    a Message of that conversation with the largest [createdAt] among all
    its Messages, withdrawn or not; there is a preview as soon as the
    conversation has a Message. *)
Theorem preview_is_latest_message (db : DB) (U : nat) :
  (∀ m conv, m ∈ conversationMembers db → cm_userId m = U →
     get (cm_conversationId m) (conversations db) = Some conv →
     ∃ e, e ∈ getUserConversations U db ∧ conversation e = conv)
  ∧ (∀ e, e ∈ getUserConversations U db →
     (∀ msg, latestMessage e = Some msg →
        msg ∈ messages db
        ∧ msg_conversationId msg = _id (conversation e)
        ∧ ∀ m', m' ∈ messages db →
                msg_conversationId m' = _id (conversation e) →
                (createdAt m' ≤ createdAt msg)%Z)
     ∧ ((∃ m', m' ∈ messages db ∧ msg_conversationId m' = _id (conversation e)) →
        is_Some (latestMessage e))).
Proof.
  split.
  - intros m conv Hm Hu Hg.
    destruct (enrich_is_Some db U m conv Hg) as (e & He & Hc).
    exists e. split; [|done]. apply elem_of_getUserConversations. eauto.
  - intros e He. apply elem_of_getUserConversations in He as (m & Hm & Hu & He).
    apply enrich_Some in He as (Hg & Hid & Hl & _). rewrite Hid, Hl.
    unfold messages_by_conversation_createdAt. split.
    + intros msg Hlast. apply sort_by_last in Hlast as [Hin Hmax].
      apply list_elem_of_filter in Hin as [Hc Hin]. split; [done|]. split; [done|].
      intros m' Hm' Hc'. apply Hmax. apply list_elem_of_filter. done.
    + intros (m' & Hm' & Hc'). apply sort_by_last_is_Some.
      intros Hnil.
      assert (Hin : m' ∈ filter (λ m0, msg_conversationId m0 = cm_conversationId m)
                          (messages db)) by (apply list_elem_of_filter; done).
      rewrite Hnil in Hin. by apply elem_of_nil in Hin.
Qed.


(** ** Unread counts *)

Lemma enrich_badge (db : DB) (u : nat) (m : Member) :
  badge <$> enrich db u m
  = (λ _, (cm_conversationId m,
           unreadSpec db u (cm_conversationId m) (lastReadAt m)))
      <$> get (cm_conversationId m) (conversations db).
Proof.
  destruct (enrich db u m) as [e|] eqn:He.
  - apply enrich_Some in He as (Hg & Hid & _ & Hc).
    rewrite Hg. unfold badge. simpl. by rewrite Hid, Hc.
  - unfold enrich in He. by destruct (get _ (conversations db)).
Qed.

Lemma markAsRead_ok (db db' : DB) (u c : nat) (now : Z) :
  mutation (markAsRead u c now) db = (Ok (), db') →
  (members_by_user_conversation u c db = [] ∧ db' = db)
  ∨ (∃ m, members_by_user_conversation u c db = [m]
          ∧ db' = set_conversationMembers (patched (_id m) (readAt now)) db).
Proof.
  unfold markAsRead. munfold. simpl.
  destruct (members_by_user_conversation u c db) as [|m [|m' l]] eqn:Hf; simpl.
  - intros Hm. simplify_eq. by left.
  - assert (Hin : m ∈ conversationMembers db).
    { assert (Hx : m ∈ members_by_user_conversation u c db) by (rewrite Hf; left).
      apply list_elem_of_filter in Hx. tauto. }
    destruct (get_is_Some (cm_id m) _ m Hin eq_refl) as [m0 Hm0].
    unfold _id, Member_doc in *. rewrite Hm0. simpl.
    intros Hm. simplify_eq. right. eauto.
  - intros Hm. simplify_eq.
Qed.

Lemma sendMessage_ok (db db' : DB) (c s r : nat) (b : string) (now : Z) :
  mutation (sendMessage c s b now) db = (Ok r, db') →
  length (typing_by_user_conversation s c db) ≤ 1.
Proof.
  unfold sendMessage. munfold. simpl.
  unfold typing_by_user_conversation. simpl.
  destruct (filter _ (typingIndicators db)) as [|t [|t' l]]; simpl; [lia|lia|].
  intros Hm. simplify_eq.
Qed.

Lemma unreadSpec_own_message (db : DB) (u c c' : nat) (cursor : Z)
    (i : nat) (b : string) (now : Z) (f : list TypingIndicator → list TypingIndicator) :
  unreadSpec
    (set_typingIndicators f
       (set_messages (λ l, l ++ [mkMessage i c' u b now false]) (set_nextId S db)))
    u c cursor
  = unreadSpec db u c cursor.
Proof.
  unfold unreadSpec. simpl. rewrite filter_app, length_app.
  rewrite filter_cons, decide_False by (simpl; tauto). simpl. lia.
Qed.

(** The count reported for a Membership. *)
Lemma unreadCount_of_member (db : DB) (U : nat) (m : Member) (conv : Conversation) :
  m ∈ conversationMembers db → cm_userId m = U →
  get (cm_conversationId m) (conversations db) = Some conv →
  ∃ e, e ∈ getUserConversations U db ∧ conversation e = conv
       ∧ unreadCount e = unreadSpec db U (cm_conversationId m) (lastReadAt m).
Proof.
  intros Hm Hu Hg.
  destruct (enrich_is_Some db U m conv Hg) as (e & He & Hc).
  exists e. split; [apply elem_of_getUserConversations; eauto|].
  split; [done|]. by apply enrich_Some in He as (_ & _ & _ & ?).
Qed.

Lemma unreadCount_of_entry (db : DB) (U : nat) (e : EnrichedConversation) :
  e ∈ getUserConversations U db →
  ∃ m, m ∈ conversationMembers db ∧ cm_userId m = U
       ∧ cm_conversationId m = _id (conversation e)
       ∧ unreadCount e = unreadSpec db U (cm_conversationId m) (lastReadAt m).
Proof.
  intros He. apply elem_of_getUserConversations in He as (m & Hm & Hu & He).
  apply enrich_Some in He as (_ & Hid & _ & Hc). exists m. done.
Qed.

(** [markAsRead] on the one Membership of a pair succeeds and moves its
    cursor. *)
Lemma markAsRead_spec (db : DB) (u c : nat) (now : Z) (m : Member) :
  members_by_user_conversation u c db = [m] →
  mutation (markAsRead u c now) db
  = (Ok (), set_conversationMembers (patched (_id m) (readAt now)) db).
Proof.
  intros Hf. unfold markAsRead. munfold. simpl. rewrite Hf. simpl.
  assert (Hin : m ∈ conversationMembers db).
  { assert (Hx : m ∈ members_by_user_conversation u c db) by (rewrite Hf; left).
    apply list_elem_of_filter in Hx. tauto. }
  destruct (get_is_Some (cm_id m) _ m Hin eq_refl) as [m0 Hm0].
  unfold _id, Member_doc in *. by rewrite Hm0.
Qed.

(** The counts of [U] for [C] once the one Membership of [(U, C)] has been
    marked as read at [now]. *)
Lemma unreadCount_after_markAsRead (db : DB) (U C : nat) (now : Z) (m : Member) :
  members_by_user_conversation U C db = [m] →
  (∀ conv, get C (conversations db) = Some conv →
     ∃ e, e ∈ getUserConversations U
                (set_conversationMembers (patched (_id m) (readAt now)) db)
          ∧ conversation e = conv)
  ∧ ∀ e, e ∈ getUserConversations U
               (set_conversationMembers (patched (_id m) (readAt now)) db) →
         _id (conversation e) = C →
         unreadCount e = unreadSpec db U C now
         ∧ ((∀ msg, msg ∈ messages db → msg_conversationId msg = C →
                    (createdAt msg ≤ now)%Z) →
            unreadCount e = 0).
Proof.
  intros Hrow.
  assert (Hm : m ∈ members_by_user_conversation U C db) by (rewrite Hrow; left).
  apply list_elem_of_filter in Hm as [[HmU HmC] Hm].
  split.
  - intros conv Hg.
    destruct (unreadCount_of_member
                (set_conversationMembers (patched (_id m) (readAt now)) db) U
                (readAt now m) conv) as (e & He & Hc & _).
    + simpl. apply elem_of_patched. exists m. split; [done|].
      by rewrite decide_True.
    + done.
    + simpl. by rewrite HmC.
    + eauto.
  - intros e He HC.
    assert (Hcount : unreadCount e = unreadSpec db U C now).
    { apply elem_of_getUserConversations in He as (m' & Hm' & Hu' & He).
      apply enrich_Some in He as (_ & Hid & _ & Hc).
      rewrite Hc. rewrite Hid in HC. rewrite HC.
      change (unreadSpec (set_conversationMembers (patched (_id m) (readAt now)) db)
                         U C (lastReadAt m'))
        with (unreadSpec db U C (lastReadAt m')).
      f_equal.
      simpl in Hm'. apply elem_of_patched in Hm' as (r0 & Hr0 & ->).
      assert (Hin : r0 ∈ members_by_user_conversation U C db).
      { apply list_elem_of_filter. split; [|done].
        by destruct (decide (_id r0 = _id m)). }
      rewrite Hrow in Hin. apply list_elem_of_singleton in Hin. subst r0.
      by rewrite decide_True. }
    split; [done|]. intros Hold. rewrite Hcount. unfold unreadSpec.
    apply length_zero_iff_nil. apply filter_none.
    intros msg Hmsg (Hc & Hlt & _). specialize (Hold msg Hmsg Hc). lia.
Qed.

(** A message that [U] sends changes none of the counts reported to [U]. *)
Lemma own_message_badges (db : DB) (U C : nat) (b : string) (now : Z) :
  length (typing_by_user_conversation U C db) ≤ 1 →
  ∃ db', mutation (sendMessage C U b now) db = (Ok (nextId db), db')
         ∧ badge <$> getUserConversations U db'
           ≡ₚ badge <$> getUserConversations U db.
Proof.
  intros Hu. eexists. split; [by apply sendMessage_spec|].
  unfold getUserConversations.
  rewrite !(fmap_Permutation _ _ _ (sort_by_Permutation _ _)).
  rewrite !list_fmap_omap.
  unfold members_by_userId. simpl.
  assert (Heq : ∀ m,
    badge <$> enrich
      (set_typingIndicators (cleared U C db)
         (set_messages (λ l, l ++ [mkMessage (nextId db) C U b now false])
            (set_nextId S db))) U m
    = badge <$> enrich db U m).
  { intros m. rewrite !enrich_badge. simpl.
    by rewrite unreadSpec_own_message. }
  erewrite omap_pointwise; [reflexivity|]. exact Heq.
Qed.

(** C3: in the store where user 1 created group 0 naming user 2 twice and
    then sent "hi" at 1000, user 2 holds two Memberships on the group and
    is shown one unread message for it.  [markAsRead] by user 2 at 2000,
    after every message of the group, throws at its [.unique()] read and
    writes nothing, and the unread count reported to user 2 stays 1 where
    the claim says 0. *)
Theorem markAsRead_leaves_unread :
  cm_userId <$> members_by_user_conversation 2 0 db_group_unread = [2; 2]
  ∧ messages db_group_unread = [mkMessage 4 0 1 "hi" 1000 false]
  ∧ unreadCount <$> getUserConversations 2 db_group_unread = [1; 1]
  ∧ mutation (markAsRead 2 0 2000) db_group_unread
    = (Throw "unique() query returned more than one result", db_group_unread)
  ∧ unreadCount
      <$> getUserConversations 2 (mutation (markAsRead 2 0 2000) db_group_unread).2
    = [1; 1].
Proof. repeat split; reflexivity. Qed.


(** ** Reactions *)

Lemma filter_deleted {R} `{Doc R} (P : R → Prop) `{∀ r, Decision (P r)}
    (i : nat) (l : list R) :
  filter P (deleted i l) = deleted i (filter P l).
Proof.
  unfold deleted. rewrite !list_filter_filter. apply list_filter_iff. tauto.
Qed.

Lemma toggleReaction_ok (db : DB) (m u : nat) (e : string) :
  e ∈ ALLOWED_EMOJIS →
  length (reactions_by_message_user m u db) ≤ 1 →
  mutation (toggleReaction m u e) db = (Ok (), toggled m u e db).
Proof.
  intros He Hu. unfold toggleReaction, toggled.
  rewrite decide_False by (intros Hn; by apply Hn).
  munfold. simpl.
  destruct (reactions_by_message_user m u db) as [|r [|r' l]] eqn:Hf;
    simpl in *; [done| |lia].
  assert (Hin : r ∈ reactions db).
  { assert (Hx : r ∈ reactions_by_message_user m u db) by (rewrite Hf; left).
    apply list_elem_of_filter in Hx. tauto. }
  destruct (get_is_Some (_id r) _ r Hin eq_refl) as [r0 Hr0].
  rewrite filter_cons. destruct (decide (emoji r = e)); simpl.
  - by rewrite Hr0.
  - munfold. simpl. by rewrite Hr0.
Qed.

(** C4: an emoji outside the fixed set makes [toggleReaction] throw before
    any write, so the store is unchanged.  With an emoji of the set, and a
    user who has at most one Reaction on the message: the same emoji is
    toggled off and the user has no Reaction left; another emoji is
    replaced and the user has exactly one Reaction, with the new emoji; no
    Reaction yet gives exactly one, with the new emoji. *)
Theorem toggleReaction_spec (db : DB) (m u : nat) (e : string) :
  (e ∉ ["👍"; "❤️"; "😂"; "😮"; "😢"] →
     ∃ msg, toggleReaction m u e db = (Throw msg, db)
            ∧ mutation (toggleReaction m u e) db = (Throw msg, db))
  ∧ (e ∈ ["👍"; "❤️"; "😂"; "😮"; "😢"] →
     length (reactions_by_message_user m u db) ≤ 1 →
     ∃ db', mutation (toggleReaction m u e) db = (Ok (), db')
       ∧ (∀ r, reactions_by_message_user m u db = [r] → emoji r = e →
               reactions_by_message_user m u db' = [])
       ∧ (∀ r, reactions_by_message_user m u db = [r] → emoji r ≠ e →
               emoji <$> reactions_by_message_user m u db' = [e])
       ∧ (reactions_by_message_user m u db = [] →
               emoji <$> reactions_by_message_user m u db' = [e])).
Proof.
  split.
  - intros Hn. eexists. unfold toggleReaction, mutation.
    rewrite decide_True by exact Hn. done.
  - intros He Hu. exists (toggled m u e db).
    split; [by apply toggleReaction_ok|].
    unfold toggled. split; [|split].
    + intros r Hr Hre. rewrite Hr. rewrite decide_True by done.
      unfold reactions_by_message_user in *. simpl.
      rewrite filter_deleted, Hr. unfold deleted.
      by rewrite filter_cons_False by (intros Hx; by apply Hx).
    + intros r Hr Hre. rewrite Hr. rewrite decide_False by done.
      unfold reactions_by_message_user in *. simpl.
      rewrite filter_app, filter_deleted, Hr. unfold deleted.
      rewrite filter_cons_False by (intros Hx; by apply Hx).
      rewrite filter_cons_True by done. done.
    + intros Hr. rewrite Hr.
      unfold reactions_by_message_user in *. simpl.
      rewrite filter_app, Hr. rewrite filter_cons_True by done. done.
Qed.


(** ** Direct conversations: the scan *)

(** The scan only reads. *)
Lemma findDirect_pure (db : DB) (other : nat) (ms : list Member) :
  findDirect other ms db = (firstDirect db other ms, db).
Proof.
  induction ms as [|m ms IH]; [done|].
  simpl. munfold. simpl.
  destruct (get (cm_conversationId m) (conversations db)) as [conv|]; [|done].
  destruct (isGroup conv); [done|].
  destruct (members_by_user_conversation other (cm_conversationId m) db)
    as [|x [|y l]]; simpl; done.
Qed.

Lemma getOrCreateDirect_cases (db : DB) (a b : nat) (now : Z) :
  mutation (getOrCreateDirectConversation a b now) db
  = match firstDirect db b (members_by_userId a db) with
    | Ok (Some c) => (Ok c, db)
    | Ok None => (Ok (nextId db), created a b now db)
    | Throw e => (Throw e, db)
    end.
Proof.
  unfold getOrCreateDirectConversation. munfold. simpl.
  rewrite findDirect_pure.
  destruct (firstDirect db b (members_by_userId a db)) as [[c|]|e]; try done.
  unfold created, set_conversationMembers, set_nextId, set_conversations.
  simpl. by rewrite <- app_assoc.
Qed.

(** What the scan found, when it found something. *)
Lemma firstDirect_Some (db : DB) (other : nat) (ms : list Member) (c : nat) :
  firstDirect db other ms = Ok (Some c) →
  ∃ m conv, m ∈ ms ∧ cm_conversationId m = c
            ∧ get c (conversations db) = Some conv ∧ isGroup conv = false
            ∧ is_member db other c.
Proof.
  induction ms as [|m ms IH]; [done|]. simpl.
  destruct (get (cm_conversationId m) (conversations db)) as [conv|] eqn:Hg.
  - destruct (isGroup conv) eqn:Hgr.
    + intros Hf. destruct (IH Hf) as (m' & conv' & ? & ?).
      exists m', conv'. split; [by right|done].
    + destruct (members_by_user_conversation other (cm_conversationId m) db)
        as [|x [|y l]] eqn:Hrow.
      * intros Hf. destruct (IH Hf) as (m' & conv' & ? & ?).
        exists m', conv'. split; [by right|done].
      * intros Hf. simplify_eq. exists m, conv.
        split; [left|]. split; [done|]. split; [done|]. split; [done|].
        assert (Hx : x ∈ members_by_user_conversation other (cm_conversationId m) db)
          by (rewrite Hrow; left).
        apply list_elem_of_filter in Hx as [[? ?] ?]. by exists x.
      * done.
  - intros Hf. destruct (IH Hf) as (m' & conv' & ? & ?).
    exists m', conv'. split; [by right|done].
Qed.

(** What the scan ruled out, when it found nothing. *)
Lemma firstDirect_None (db : DB) (other : nat) (ms : list Member) :
  firstDirect db other ms = Ok None →
  ∀ m conv, m ∈ ms → get (cm_conversationId m) (conversations db) = Some conv →
            isGroup conv = false → ¬ is_member db other (cm_conversationId m).
Proof.
  induction ms as [|m ms IH]; intros Hf m' conv' Hin Hg Hgr.
  - by apply elem_of_nil in Hin.
  - simpl in Hf. apply elem_of_cons in Hin as [->|Hin].
    + rewrite Hg, Hgr in Hf.
      destruct (members_by_user_conversation other (cm_conversationId m) db)
        as [|x [|y l]] eqn:Hrow; [|done|done].
      intros (r & Hr & Hu & Hc).
      eapply (filter_nil_elem _ _ r Hrow); done.
    + destruct (get (cm_conversationId m) (conversations db)) as [conv|];
        [|by eapply IH].
      destruct (isGroup conv); [by eapply IH|].
      destruct (members_by_user_conversation other (cm_conversationId m) db)
        as [|x [|y l]]; [by eapply IH|done|done].
Qed.

(** The scan does not throw when [other] has at most one Membership on
    each conversation it meets. *)
Lemma firstDirect_no_throw (db : DB) (other : nat) (ms : list Member) :
  (∀ m, m ∈ ms →
        length (members_by_user_conversation other (cm_conversationId m) db) ≤ 1
        ∨ (∀ conv, get (cm_conversationId m) (conversations db) = Some conv →
                   isGroup conv = true)) →
  ∃ r, firstDirect db other ms = Ok r.
Proof.
  induction ms as [|m ms IH]; intros Hall; [by eexists|].
  simpl.
  assert (IH' : ∃ r, firstDirect db other ms = Ok r).
  { apply IH. intros m' Hm'. apply Hall. by right. }
  destruct (get (cm_conversationId m) (conversations db)) as [conv|] eqn:Hg;
    [|done].
  destruct (isGroup conv) eqn:Hgr; [done|].
  destruct (Hall m) as [Hle|Hgrp]; [left| |].
  - destruct (members_by_user_conversation other (cm_conversationId m) db)
      as [|x [|y l]]; simpl in *; [done|by eexists|lia].
  - specialize (Hgrp conv Hg). congruence.
Qed.

(** ** Direct conversation of a user with itself *)

(** C10: on the empty store [getOrCreateDirectConversation] with both
    arguments equal to user 1 creates the non-group conversation 0 with two
    Memberships, both for user 1, as the claim says.  User 1 then holds a
    Membership on a non-group conversation, yet the same call again does
    not return the id 0: it throws at its own [.unique()] read of the two
    rows the first call inserted, and writes nothing. *)
Theorem getOrCreateDirect_self_throws :
  mutation (getOrCreateDirectConversation 1 1 100) empty_db = (Ok 0, db_self)
  ∧ db_self = mkDB [] [mkConversation 0 false None 100]
                   [mkMember 1 0 1 100; mkMember 2 0 1 100] [] [] [] 3
  ∧ holds_direct db_self 1
  ∧ mutation (getOrCreateDirectConversation 1 1 200) db_self
    = (Throw "unique() query returned more than one result", db_self).
Proof.
  split; [reflexivity|]. split; [reflexivity|]. split; [|reflexivity].
  exists (mkMember 1 0 1 100), (mkConversation 0 false None 100).
  split; [left|]. done.
Qed.


(** ** Group creation *)

Lemma groupRows_users (conv : nat) (now : Z) (start : nat) (us : list nat) :
  cm_userId <$> groupRows conv now start us = us.
Proof.
  revert start. induction us as [|u us IH]; intros start; [done|].
  simpl. by rewrite IH.
Qed.

Lemma groupRows_conversation (conv : nat) (now : Z) (start : nat) (us : list nat) r :
  r ∈ groupRows conv now start us → cm_conversationId r = conv.
Proof.
  revert start. induction us as [|u us IH]; intros start Hr.
  - by apply elem_of_nil in Hr.
  - simpl in Hr. apply elem_of_cons in Hr as [->|Hr]; [done|]. by eapply IH.
Qed.

Lemma for_each_insert_member (conv : nat) (now : Z) (body : nat → M ())
    (us : list nat) (db : DB) :
  (∀ u d, body u d
          = (Ok (), set_conversationMembers
                      (λ l, l ++ [mkMember (nextId d) conv u now])
                      (set_nextId S d))) →
  for_each body us db
  = (Ok (),
     mkDB (users db) (conversations db)
          (conversationMembers db ++ groupRows conv now (nextId db) us)
          (messages db) (reactions db) (typingIndicators db)
          (nextId db + length us)).
Proof.
  intros Hbody. revert db. induction us as [|u us IH]; intros db.
  - simpl. munfold. destruct db; simpl. by rewrite app_nil_r, Nat.add_0_r.
  - simpl. munfold. rewrite Hbody, IH. simpl.
    rewrite <- app_assoc. simpl. do 2 f_equal. lia.
Qed.

Lemma createGroup_spec (db : DB) (n : string) (ms : list nat) (c : nat) (now : Z) :
  mutation (createGroupConversation n ms c now) db
  = (Ok (nextId db), grouped n ms c now db).
Proof.
  unfold createGroupConversation. munfold. simpl.
  erewrite (for_each_insert_member (nextId db) now) by (intros; reflexivity).
  simpl. unfold grouped. simpl.
  rewrite <- app_assoc. done.
Qed.

(** The Memberships of a new group are one for the creator and one for
    each entry of [memberIds], repetitions included. *)
Lemma createGroup_members (db : DB) (n : string) (ms : list nat) (c : nat) (now : Z) :
  (∀ m, m ∈ conversationMembers db → cm_conversationId m < nextId db) →
  cm_userId <$> members_by_conversationId (nextId db) (grouped n ms c now db)
  = c :: ms.
Proof.
  intros Hfresh. unfold members_by_conversationId, grouped. simpl.
  rewrite filter_app.
  rewrite (filter_none _ (conversationMembers db))
    by (intros m Hm Hc; specialize (Hfresh m Hm); lia).
  simpl. rewrite filter_cons_True by done.
  rewrite filter_all
    by (intros r Hr; by apply groupRows_conversation in Hr).
  simpl. by rewrite groupRows_users.
Qed.

(** With distinct member ids, none of them the creator, every user gets
    at most one Membership on the new group. *)
Lemma createGroup_distinct_members
    (db : DB) (n : string) (ms : list nat) (c : nat) (now : Z) (u : nat) :
  (∀ m, m ∈ conversationMembers db → cm_conversationId m < nextId db) →
  NoDup (c :: ms) →
  length (members_by_user_conversation u (nextId db) (grouped n ms c now db)) ≤ 1.
Proof.
  intros Hfresh Hnd.
  pose proof (createGroup_members db n ms c now Hfresh) as Hus.
  unfold members_by_user_conversation, members_by_conversationId in *.
  rewrite <- (list_filter_filter (λ m, cm_userId m = u)
                (λ m, cm_conversationId m = nextId db)).
  revert Hus Hnd.
  generalize (c :: ms).
  induction (filter (λ m, cm_conversationId m = nextId db)
               (conversationMembers (grouped n ms c now db))) as [|x l IH];
    intros us Hus Hnd; [simpl; lia|].
  destruct us as [|v us]; [done|]. rewrite fmap_cons in Hus.
  injection Hus as Hx Hl. apply NoDup_cons in Hnd as [Hv Hnd].
  rewrite filter_cons. case_decide as Hxu.
  - simpl. rewrite (filter_none (λ m, cm_userId m = u) l); [simpl; lia|].
    intros y Hy Hyu. apply Hv. rewrite <- Hx, Hxu, <- Hyu, <- Hl.
    by apply list_elem_of_fmap_2.
  - by apply (IH us).
Qed.

(** C7: [createGroupConversation] with user 2 named twice stores two
    Memberships for the pair (conversation 0, user 2), after which
    [markAsRead] for that pair throws at [.unique()]; with the creator
    named among the members it stores two Memberships for the creator. *)
Theorem createGroup_duplicate_memberships :
  mutation (createGroupConversation "g" [2; 2] 1 100) empty_db
    = (Ok 0, db_group_twice)
  ∧ cm_userId <$> members_by_conversationId 0 db_group_twice = [1; 2; 2]
  ∧ length (members_by_user_conversation 2 0 db_group_twice) = 2
  ∧ mutation (markAsRead 2 0 200) db_group_twice
    = (Throw "unique() query returned more than one result", db_group_twice)
  ∧ mutation (createGroupConversation "g" [1; 2] 1 100) empty_db
    = (Ok 0, db_group_self)
  ∧ length (members_by_user_conversation 1 0 db_group_self) = 2.
Proof. repeat split; reflexivity. Qed.


(** ** Well-formed conversation tables *)

Lemma is_member_elem (db : DB) (u c : nat) :
  is_member db u c ↔ u ∈ cm_userId <$> members_by_conversationId c db.
Proof.
  unfold is_member, members_by_conversationId. rewrite list_elem_of_fmap. split.
  - intros (m & Hm & Hu & Hc). exists m. split; [done|].
    apply list_elem_of_filter. done.
  - intros (m & -> & Hm). apply list_elem_of_filter in Hm as [? ?]. by exists m.
Qed.

Lemma members_by_user_conversation_alt (db : DB) (u c : nat) :
  members_by_user_conversation u c db
  = filter (λ m, cm_userId m = u) (members_by_conversationId c db).
Proof.
  unfold members_by_user_conversation, members_by_conversationId.
  by rewrite list_filter_filter.
Qed.

Lemma get_conversation (db : DB) (c : nat) (conv : Conversation) :
  get c (conversations db) = Some conv →
  conv ∈ conversations db ∧ conv_id conv = c.
Proof. apply get_Some. Qed.

Lemma conv_wf_empty : conv_wf empty_db.
Proof.
  split; simpl.
  - intros c Hc. by apply elem_of_nil in Hc.
  - intros m Hm. by apply elem_of_nil in Hm.
  - constructor.
  - intros c Hc. by apply elem_of_nil in Hc.
  - intros c1 c2 u v Hc. by apply elem_of_nil in Hc.
Qed.

(** Tables that differ in nothing the invariant looks at. *)
Lemma conv_wf_frame (db db' : DB) :
  conv_wf db →
  conversations db' = conversations db →
  conversationMembers db' = conversationMembers db →
  nextId db ≤ nextId db' →
  conv_wf db'.
Proof.
  intros [H1 H2 H3 H4 H5] Hc Hm Hn.
  split; unfold is_member, members_by_conversationId in *;
    rewrite ?Hc, ?Hm; try done.
  - intros c Hin. specialize (H1 c Hin). lia.
  - intros m Hin. specialize (H2 m Hin). lia.
Qed.

(** [markAsRead] rewrites read cursors only. *)
Lemma conv_wf_readAt (db : DB) (i : nat) (now : Z) :
  conv_wf db →
  conv_wf (set_conversationMembers (patched i (readAt now)) db).
Proof.
  intros [H1 H2 H3 H4 H5].
  assert (Hmem : ∀ u c,
    is_member (set_conversationMembers (patched i (readAt now)) db) u c
    ↔ is_member db u c).
  { intros u c. unfold is_member. simpl. split.
    - intros (m & Hm & Hu & Hc). apply elem_of_patched in Hm as (r0 & Hr0 & ->).
      exists r0. by destruct (decide (_id r0 = i)).
    - intros (m & Hm & Hu & Hc).
      exists (if decide (_id m = i) then readAt now m else m).
      split; [apply elem_of_patched; eauto|]. by destruct (decide (_id m = i)). }
  split; simpl; try done.
  - intros m Hm. apply elem_of_patched in Hm as (r0 & Hr0 & ->).
    specialize (H2 r0 Hr0). by destruct (decide (_id r0 = i)).
  - intros c Hc Hg. unfold members_by_conversationId. simpl.
    rewrite filter_patched by done. rewrite length_patched. by apply H4.
  - intros c1 c2 u v ? ? ? ? ?. rewrite !Hmem. by apply H5.
Qed.

Section Extend.
Variables (db db' : DB) (new : Conversation) (rows : list Member).
Hypothesis Hwf : conv_wf db.
Hypothesis Hconvs : conversations db' = conversations db ++ [new].
Hypothesis Hmems : conversationMembers db' = conversationMembers db ++ rows.
Hypothesis Hnew : conv_id new = nextId db.
Hypothesis Hnext : nextId db < nextId db'.
Hypothesis Hrows : ∀ r, r ∈ rows → cm_conversationId r = nextId db.
Hypothesis Hdirect :
  isGroup new = false →
  length rows = 2
  ∧ ∀ c u v, c ∈ conversations db → isGroup c = false → u ≠ v →
             u ∈ cm_userId <$> rows → v ∈ cm_userId <$> rows →
             is_member db u (conv_id c) → is_member db v (conv_id c) → False.

Lemma members_old (c : nat) :
  c < nextId db →
  members_by_conversationId c db' = members_by_conversationId c db.
Proof using Hmems Hrows.
  clear Hwf Hconvs Hnew Hnext Hdirect.
  intros Hc. unfold members_by_conversationId. rewrite Hmems, filter_app.
  rewrite (filter_none _ rows); [by rewrite app_nil_r|].
  intros r Hr Hrc. apply Hrows in Hr. lia.
Qed.

Lemma members_new : members_by_conversationId (nextId db) db' = rows.
Proof using Hwf Hmems Hrows.
  clear Hconvs Hnew Hnext Hdirect.
  unfold members_by_conversationId. rewrite Hmems, filter_app.
  rewrite (filter_none _ (conversationMembers db)).
  - simpl. by apply filter_all.
  - intros m Hm Hc. apply (wf_member_fresh _ Hwf) in Hm. lia.
Qed.

Lemma is_member_old (u c : nat) :
  c < nextId db → is_member db' u c ↔ is_member db u c.
Proof using Hmems Hrows.
  intros Hc. by rewrite !is_member_elem, members_old.
Qed.

Lemma is_member_new (u : nat) :
  is_member db' u (nextId db) ↔ u ∈ cm_userId <$> rows.
Proof using Hwf Hmems Hrows.
  by rewrite is_member_elem, members_new.
Qed.

Lemma conv_wf_extend : conv_wf db'.
Proof.
  pose proof Hwf as [H1 H2 H3 H4 H5].
  assert (Hcase : ∀ c, c ∈ conversations db' →
            (c ∈ conversations db ∧ conv_id c < nextId db) ∨ c = new).
  { intros c Hc. rewrite Hconvs in Hc. apply elem_of_app in Hc as [Hc|Hc].
    - left. split; [done|]. by apply H1.
    - right. by apply list_elem_of_singleton in Hc. }
  split.
  - intros c Hc. destruct (Hcase c Hc) as [[_ ?]| ->]; lia.
  - intros m Hm. rewrite Hmems in Hm. apply elem_of_app in Hm as [Hm|Hm].
    + specialize (H2 m Hm). lia.
    + apply Hrows in Hm. lia.
  - rewrite Hconvs, fmap_app. apply NoDup_app. split; [done|]. split.
    + intros i Hi Hi'. simpl in Hi'. apply list_elem_of_singleton in Hi'.
      apply list_elem_of_fmap in Hi as (c & -> & Hc).
      specialize (H1 c Hc). lia.
    + simpl. apply NoDup_singleton.
  - intros c Hc Hg. destruct (Hcase c Hc) as [[Hold Hlt]| ->].
    + rewrite members_old by done. by apply H4.
    + rewrite Hnew, members_new. by apply Hdirect.
  - intros c1 c2 u v Hc1 Hc2 Hg1 Hg2 Huv.
    destruct (Hcase c1 Hc1) as [[Hold1 Hlt1]| ->];
      destruct (Hcase c2 Hc2) as [[Hold2 Hlt2]| ->].
    + rewrite !is_member_old by done. by apply H5.
    + rewrite !(is_member_old _ (conv_id c1)) by done.
      rewrite Hnew, !is_member_new. intros Hu1 Hv1 Hu2 Hv2.
      exfalso. by eapply (proj2 (Hdirect Hg2) c1 u v).
    + rewrite !(is_member_old _ (conv_id c2)) by done.
      rewrite Hnew, !is_member_new. intros Hu1 Hv1 Hu2 Hv2.
      exfalso. by eapply (proj2 (Hdirect Hg1) c2 u v).
    + done.
Qed.

End Extend.

Lemma conv_wf_grouped (db : DB) (n : string) (ms : list nat) (c : nat) (now : Z) :
  conv_wf db → conv_wf (grouped n ms c now db).
Proof.
  intros Hwf.
  apply (conv_wf_extend db _ (mkConversation (nextId db) true (Some n) now)
           (groupRows (nextId db) now (S (nextId db)) (c :: ms))); try done.
  - simpl. lia.
  - intros r Hr. by apply groupRows_conversation in Hr.
Qed.

Lemma conv_wf_created (db : DB) (a b : nat) (now : Z) :
  conv_wf db →
  firstDirect db b (members_by_userId a db) = Ok None →
  conv_wf (created a b now db).
Proof.
  intros Hwf Hscan.
  apply (conv_wf_extend db _ (mkConversation (nextId db) false None now)
           [mkMember (S (nextId db)) (nextId db) a now;
            mkMember (S (S (nextId db))) (nextId db) b now]); try done.
  - simpl. lia.
  - intros r Hr. apply elem_of_cons in Hr as [->|Hr]; [done|].
    apply list_elem_of_singleton in Hr. by subst.
  - intros _. split; [done|].
    assert (Hpair : ∀ c, c ∈ conversations db → isGroup c = false →
              is_member db a (conv_id c) → is_member db b (conv_id c) → False).
    { intros c Hc Hg (m & Hm & Hu & Hmc) Hb.
      assert (Hget : get (cm_conversationId m) (conversations db) = Some c).
      { rewrite Hmc. apply get_NoDup; [apply Hwf|done|done]. }
      eapply (firstDirect_None db b _ Hscan m c); try done.
      - apply list_elem_of_filter. done.
      - by rewrite Hmc. }
    intros c u v Hc Hg Huv Hu Hv Hmu Hmv. simpl in Hu, Hv.
    apply elem_of_cons in Hu as [->|Hu];
      apply elem_of_cons in Hv as [->|Hv];
      try apply list_elem_of_singleton in Hu;
      try apply list_elem_of_singleton in Hv; subst; try done.
    + by eapply Hpair.
    + by eapply Hpair.
Qed.


(** ** Direct conversations: one per pair *)

Lemma two_elements {A} (l : list A) (a b : A) :
  length l = 2 → a ∈ l → b ∈ l → a ≠ b → l ≡ₚ [a; b].
Proof.
  destruct l as [|x [|y [|z l]]]; simpl; intros Hl Ha Hb Hab; try done.
  apply elem_of_cons in Ha as [->|Ha]; apply elem_of_cons in Hb as [->|Hb];
    try apply list_elem_of_singleton in Ha;
    try apply list_elem_of_singleton in Hb; subst; try done.
  apply Permutation_swap.
Qed.

Lemma canonical_sym (db : DB) (a b c : nat) :
  canonical db a b c → canonical db b a c.
Proof.
  intros (conv & ? & ? & ? & Hp). exists conv. repeat split; try done.
  rewrite Hp. apply Permutation_swap.
Qed.

Lemma canonical_member (db : DB) (a b c u : nat) :
  canonical db a b c → is_member db u c ↔ u = a ∨ u = b.
Proof.
  intros (conv & _ & _ & _ & Hp). rewrite is_member_elem, Hp.
  rewrite elem_of_cons, list_elem_of_singleton. done.
Qed.

Lemma canonical_intro (db : DB) (a b : nat) (conv : Conversation) :
  conv_wf db → a ≠ b → conv ∈ conversations db → isGroup conv = false →
  is_member db a (conv_id conv) → is_member db b (conv_id conv) →
  canonical db a b (conv_id conv).
Proof.
  intros Hwf Hab Hc Hg Ha Hb. exists conv. repeat split; try done.
  apply two_elements; try done.
  - rewrite length_fmap. by apply Hwf.
  - by apply is_member_elem.
  - by apply is_member_elem.
Qed.

(** In a well-formed store the scan for another user does not throw. *)
Lemma scan_no_throw (db : DB) (a b : nat) :
  conv_wf db → a ≠ b →
  ∃ r, firstDirect db b (members_by_userId a db) = Ok r.
Proof.
  intros Hwf Hab. apply firstDirect_no_throw. intros m Hm.
  apply list_elem_of_filter in Hm as [Hu Hm].
  destruct (get (cm_conversationId m) (conversations db)) as [conv|] eqn:Hg;
    [|by right].
  destruct (isGroup conv) eqn:Hgr; [right; intros; congruence|]. left.
  apply get_conversation in Hg as [Hc Hid].
  rewrite members_by_user_conversation_alt.
  pose proof (wf_direct_two _ Hwf conv Hc Hgr) as Htwo.
  rewrite Hid in Htwo.
  assert (Hlt : length (filter (λ m0, cm_userId m0 = b)
                          (members_by_conversationId (cm_conversationId m) db))
                < length (members_by_conversationId (cm_conversationId m) db)).
  { apply (length_filter_lt _ _ m).
    - apply list_elem_of_filter. done.
    - congruence. }
  lia.
Qed.

(** One call in a well-formed store: it succeeds, keeps the store
    well-formed, and its result is the conversation of the pair. *)
Lemma getOrCreateDirect_step (db : DB) (a b : nat) (now : Z) :
  conv_wf db → a ≠ b →
  ∃ c db', mutation (getOrCreateDirectConversation a b now) db = (Ok c, db')
           ∧ conv_wf db' ∧ canonical db' a b c.
Proof.
  intros Hwf Hab. rewrite getOrCreateDirect_cases.
  destruct (scan_no_throw db a b Hwf Hab) as [[c|] Hscan]; rewrite Hscan.
  - exists c, db. split; [done|]. split; [done|].
    apply firstDirect_Some in Hscan as (m & conv & Hm & Hmc & Hg & Hgr & Hb).
    apply list_elem_of_filter in Hm as [Hu Hm].
    apply get_conversation in Hg as [Hc Hid]. subst c.
    rewrite <- Hid in *. apply canonical_intro; try done. by exists m.
  - exists (nextId db), (created a b now db). split; [done|].
    split; [by apply conv_wf_created|].
    exists (mkConversation (nextId db) false None now).
    split; [simpl; apply elem_of_app; right; left|].
    split; [done|]. split; [done|].
    rewrite (members_new db (created a b now db)
               [mkMember (S (nextId db)) (nextId db) a now;
                mkMember (S (S (nextId db))) (nextId db) b now]); try done.
    intros r Hr. apply elem_of_cons in Hr as [->|Hr]; [done|].
    apply list_elem_of_singleton in Hr. by subst.
Qed.

(** Once the pair has its conversation, a call returns it and writes
    nothing. *)
Lemma getOrCreateDirect_again (db : DB) (a b c : nat) (now : Z) :
  conv_wf db → a ≠ b → canonical db a b c →
  mutation (getOrCreateDirectConversation a b now) db = (Ok c, db).
Proof.
  intros Hwf Hab Hcan. rewrite getOrCreateDirect_cases.
  pose proof Hcan as (conv & Hc & Hid & Hg & Hp).
  assert (Ha : is_member db a c) by (apply (canonical_member _ _ _ _ _ Hcan); auto).
  assert (Hb : is_member db b c) by (apply (canonical_member _ _ _ _ _ Hcan); auto).
  destruct (scan_no_throw db a b Hwf Hab) as [[c'|] Hscan]; rewrite Hscan.
  - apply firstDirect_Some in Hscan as (m & conv' & Hm & Hmc & Hg' & Hgr' & Hb').
    apply list_elem_of_filter in Hm as [Hu Hm].
    apply get_conversation in Hg' as [Hc' Hid'].
    assert (Heq : conv_id conv' = conv_id conv).
    { apply (wf_direct_dedup _ Hwf conv' conv a b); try done.
      - rewrite Hid'. subst c'. by exists m.
      - by rewrite Hid'.
      - by rewrite Hid.
      - by rewrite Hid. }
    congruence.
  - exfalso. destruct Ha as (m & Hm & Hu & Hmc).
    eapply (firstDirect_None db b _ Hscan m conv).
    + apply list_elem_of_filter. done.
    + rewrite Hmc, <- Hid. apply get_NoDup; [apply Hwf|done|done].
    + done.
    + by rewrite Hmc.
Qed.

Lemma runDirect_again (db : DB) (a b c : nat) (calls : list (bool * Z)) :
  conv_wf db → a ≠ b → canonical db a b c →
  runDirect a b calls db = (replicate (length calls) (Ok c), db).
Proof.
  intros Hwf Hab Hcan. induction calls as [|[dir now] calls IH]; [done|].
  simpl. destruct dir.
  - rewrite (getOrCreateDirect_again db a b c) by done. by rewrite IH.
  - rewrite (getOrCreateDirect_again db b a c)
      by (try done; by apply canonical_sym). by rewrite IH.
Qed.

(** C1: in a well-formed store, for two users [a ≠ b], every call of a
    non-empty sequence of [getOrCreateDirectConversation] calls with
    arguments [(a, b)] or [(b, a)] returns the same id [c]; afterwards [c]
    names the one non-group conversation whose member set is [{a, b}], and
    its Membership rows are exactly one for [a] and one for [b]. *)
Theorem direct_conversation_dedup (db : DB) (a b : nat) (calls : list (bool * Z)) :
  conv_wf db → a ≠ b → calls ≠ [] →
  ∃ c conv,
    (runDirect a b calls db).1 = replicate (length calls) (Ok c)
    ∧ direct_of (runDirect a b calls db).2 a b conv
    ∧ conv_id conv = c
    ∧ (∀ conv', direct_of (runDirect a b calls db).2 a b conv' → conv' = conv)
    ∧ cm_userId <$> members_by_conversationId c (runDirect a b calls db).2
      ≡ₚ [a; b].
Proof.
  intros Hwf Hab Hne. destruct calls as [|[dir now] calls]; [done|]. clear Hne.
  assert (Hfirst : ∃ c db',
    mutation (if dir then getOrCreateDirectConversation a b now
              else getOrCreateDirectConversation b a now) db = (Ok c, db')
    ∧ conv_wf db' ∧ canonical db' a b c).
  { destruct dir.
    - by apply getOrCreateDirect_step.
    - destruct (getOrCreateDirect_step db b a now Hwf) as (c & db' & ? & ? & ?);
        [done|].
      exists c, db'. split; [done|]. split; [done|]. by apply canonical_sym. }
  destruct Hfirst as (c & db' & Hcall & Hwf' & Hcan).
  simpl. rewrite Hcall, (runDirect_again db' a b c) by done. simpl.
  pose proof Hcan as (conv & Hc & Hid & Hg & Hp).
  exists c, conv. split; [done|].
  assert (Hdir : direct_of db' a b conv).
  { split; [done|]. split; [done|]. intros u. rewrite Hid.
    by apply canonical_member. }
  split; [done|]. split; [done|]. split; [|done].
  intros conv' (Hc' & Hg' & Hmem').
  assert (Heq : conv_id conv' = conv_id conv).
  { apply (wf_direct_dedup _ Hwf' conv' conv a b); try done.
    - apply Hmem'. by left.
    - apply Hmem'. by right.
    - rewrite Hid. apply (canonical_member _ _ _ _ _ Hcan). by left.
    - rewrite Hid. apply (canonical_member _ _ _ _ _ Hcan). by right. }
  pose proof (get_NoDup (conv_id conv) (conversations db') conv'
                (wf_conv_nodup _ Hwf') Hc' Heq) as H1.
  pose proof (get_NoDup (conv_id conv) (conversations db') conv
                (wf_conv_nodup _ Hwf') Hc eq_refl) as H2.
  congruence.
Qed.

Lemma direct_conversation_dedup_witness :
  ∃ c conv,
    (runDirect 1 2 [(true, 100%Z); (false, 200%Z); (true, 300%Z)] empty_db).1
      = replicate 3 (Ok c)
    ∧ direct_of (runDirect 1 2 [(true, 100%Z); (false, 200%Z); (true, 300%Z)]
                   empty_db).2 1 2 conv
    ∧ conv_id conv = c
    ∧ (∀ conv', direct_of (runDirect 1 2 [(true, 100%Z); (false, 200%Z); (true, 300%Z)]
                             empty_db).2 1 2 conv' → conv' = conv)
    ∧ cm_userId <$> members_by_conversationId c
        (runDirect 1 2 [(true, 100%Z); (false, 200%Z); (true, 300%Z)] empty_db).2
      ≡ₚ [1; 2].
Proof.
  apply (direct_conversation_dedup empty_db 1 2
           [(true, 100%Z); (false, 200%Z); (true, 300%Z)]).
  - exact conv_wf_empty.
  - lia.
  - discriminate.
Defined.


(** ** The invariants hold in every reachable store *)

Lemma setTyping_spec (db : DB) (c u : nat) (now : Z) :
  length (typing_by_user_conversation u c db) ≤ 1 →
  mutation (setTyping c u now) db = (Ok (), typed c u now db).
Proof.
  intros Hu. unfold setTyping, typed. munfold. simpl.
  destruct (typing_by_user_conversation u c db) as [|x [|y l]] eqn:Hf;
    simpl in *; [done| |lia].
  assert (Hin : x ∈ typingIndicators db).
  { assert (Hx : x ∈ typing_by_user_conversation u c db) by (rewrite Hf; left).
    apply list_elem_of_filter in Hx. tauto. }
  destruct (get_is_Some (_id x) _ x Hin eq_refl) as [x0 Hx0].
  by rewrite Hx0.
Qed.

Lemma clearTyping_spec (db : DB) (c u : nat) :
  length (typing_by_user_conversation u c db) ≤ 1 →
  mutation (clearTyping c u) db = (Ok (), set_typingIndicators (cleared u c db) db).
Proof.
  intros Hu. unfold clearTyping, cleared. munfold. simpl.
  destruct (typing_by_user_conversation u c db) as [|x [|y l]] eqn:Hf;
    simpl in *; [by destruct db| |lia].
  assert (Hin : x ∈ typingIndicators db).
  { assert (Hx : x ∈ typing_by_user_conversation u c db) by (rewrite Hf; left).
    apply list_elem_of_filter in Hx. tauto. }
  destruct (get_is_Some (_id x) _ x Hin eq_refl) as [x0 Hx0].
  by rewrite Hx0.
Qed.

(** The calls on users leave the other tables alone. *)
Lemma upsertUser_frame (db : DB) (c n e a : string) (now : Z) :
  let db' := (mutation (upsertUser c n e a now) db).2 in
  conversations db' = conversations db
  ∧ conversationMembers db' = conversationMembers db
  ∧ messages db' = messages db
  ∧ reactions db' = reactions db
  ∧ typingIndicators db' = typingIndicators db
  ∧ nextId db ≤ nextId db'.
Proof.
  unfold upsertUser. munfold. simpl.
  destruct (users_by_clerkId c db) as [|x [|y l]]; simpl.
  - repeat split; lia.
  - destruct (get (_id x) (users db)); simpl; repeat split; lia.
  - repeat split; lia.
Qed.

Lemma updateOnlineStatus_frame (db : DB) (u : nat) (o : bool) (now : Z) :
  let db' := (mutation (updateOnlineStatus u o now) db).2 in
  conversations db' = conversations db
  ∧ conversationMembers db' = conversationMembers db
  ∧ messages db' = messages db
  ∧ reactions db' = reactions db
  ∧ typingIndicators db' = typingIndicators db
  ∧ nextId db ≤ nextId db'.
Proof.
  unfold updateOnlineStatus. munfold. simpl.
  destruct (get u (users db)); simpl; repeat split; lia.
Qed.

Lemma mutation_throw {A} (h : M A) (db : DB) :
  (∃ a, mutation h db = (Ok a, (mutation h db).2)) ∨ (mutation h db).2 = db.
Proof.
  unfold mutation. destruct (h db) as [[a|e] db']; simpl; eauto.
Qed.

Lemma reactions_unique_frame (db db' : DB) :
  reactions db' = reactions db → reactions_unique db → reactions_unique db'.
Proof.
  intros Hr Hu m u. unfold reactions_by_message_user. rewrite Hr. apply Hu.
Qed.

Lemma typing_unique_frame (db db' : DB) :
  typingIndicators db' = typingIndicators db → typing_unique db → typing_unique db'.
Proof.
  intros Hr Hu u c. unfold typing_by_user_conversation. rewrite Hr. apply Hu.
Qed.

Lemma length_deleted {R} `{Doc R} (i : nat) (l : list R) :
  length (deleted i l) ≤ length l.
Proof. apply length_filter. Qed.

Lemma reactions_unique_toggled (db : DB) (m u : nat) (e : string) :
  reactions_unique db → reactions_unique (toggled m u e db).
Proof.
  intros Hu m' u'. pose proof (Hu m u) as Hmu. pose proof (Hu m' u') as Hmu'.
  unfold toggled.
  destruct (reactions_by_message_user m u db) as [|r [|r' l]] eqn:Hrow;
    simpl in Hmu; [| |lia].
  - unfold reactions_by_message_user in *. simpl. rewrite filter_app, length_app.
    rewrite filter_cons. case_decide as Hp; simpl; [|lia].
    simpl in Hp. destruct Hp as [? ?]. subst m' u'. rewrite Hrow. simpl. lia.
  - case_decide.
    + unfold reactions_by_message_user in *. simpl.
      rewrite filter_deleted. etrans; [apply length_deleted|done].
    + unfold reactions_by_message_user in *. simpl.
      rewrite filter_app, length_app, filter_deleted.
      rewrite filter_cons. case_decide as Hp; simpl.
      * simpl in Hp. destruct Hp as [? ?]. subst m' u'. rewrite Hrow. unfold deleted.
        rewrite filter_cons_False by (intros Hx; by apply Hx). simpl. lia.
      * pose proof (length_deleted (_id r)
                      (filter (λ r0, r_messageId r0 = m' ∧ r_userId r0 = u')
                         (reactions db))). lia.
Qed.

Lemma typing_unique_typed (db : DB) (c u : nat) (now : Z) :
  typing_unique db → typing_unique (typed c u now db).
Proof.
  intros Hu u' c'. pose proof (Hu u' c') as Hp'. unfold typed.
  destruct (head (typing_by_user_conversation u c db)) as [t|] eqn:Hh.
  - unfold typing_by_user_conversation in *. simpl.
    rewrite filter_patched by done. by rewrite length_patched.
  - unfold typing_by_user_conversation in *. simpl.
    rewrite filter_app, length_app, filter_cons.
    case_decide as Hp; simpl; [|lia].
    simpl in Hp. destruct Hp as [? ?]. subst u' c'.
    apply head_None in Hh. rewrite Hh. simpl. lia.
Qed.

Lemma typing_unique_cleared (db db0 : DB) (c u : nat) :
  typingIndicators db0 = typingIndicators db →
  typing_unique db → typing_unique (set_typingIndicators (cleared u c db) db0).
Proof.
  intros H0 Hu u' c'. pose proof (Hu u' c') as Hp'. unfold cleared.
  unfold typing_by_user_conversation in *. simpl. rewrite H0.
  destruct (head (filter _ (typingIndicators db))) as [t|]; [|done].
  rewrite filter_deleted. etrans; [apply length_deleted|done].
Qed.

Lemma typing_ids_frame (db db' : DB) :
  typingIndicators db' = typingIndicators db → nextId db ≤ nextId db' →
  typing_ids_wf db → typing_ids_wf db'.
Proof.
  intros Ht Hn [Hnd Hlt]. split; rewrite Ht; [done|].
  intros t Hin. specialize (Hlt t Hin). lia.
Qed.

Lemma NoDup_deleted {R} `{Doc R} (i : nat) (l : list R) :
  NoDup (_id <$> l) → NoDup (_id <$> deleted i l).
Proof.
  unfold deleted. induction l as [|x l IH]; [done|].
  rewrite fmap_cons, NoDup_cons. intros [Hx Hnd].
  rewrite filter_cons. case_decide; [|by apply IH].
  rewrite fmap_cons, NoDup_cons. split; [|by apply IH].
  intros Hin. apply Hx. apply list_elem_of_fmap in Hin as (y & Hy & Hin).
  apply list_elem_of_filter in Hin as [_ Hin].
  apply list_elem_of_fmap. eauto.
Qed.

Lemma ids_patched {R} `{Doc R} (i : nat) (f : R → R) (l : list R) :
  (∀ r, _id (f r) = _id r) → _id <$> patched i f l = _id <$> l.
Proof.
  intros Hf. unfold patched. rewrite <- list_fmap_compose.
  apply list_fmap_ext. intros k x _. simpl. case_decide; [apply Hf|done].
Qed.

Lemma typing_ids_typed (db : DB) (c u : nat) (now : Z) :
  typing_ids_wf db → typing_ids_wf (typed c u now db).
Proof.
  intros [Hnd Hlt]. unfold typed.
  destruct (head (typing_by_user_conversation u c db)) as [t|]; split; simpl.
  - change ti_id with (@_id TypingIndicator _). by rewrite ids_patched.
  - intros x Hx. apply elem_of_patched in Hx as (r0 & Hr0 & ->).
    specialize (Hlt r0 Hr0). by case_decide.
  - rewrite fmap_app. apply NoDup_app. split; [done|]. split.
    + intros i Hi Hi'. simpl in Hi'. apply list_elem_of_singleton in Hi'.
      apply list_elem_of_fmap in Hi as (x & -> & Hx).
      specialize (Hlt x Hx). lia.
    + simpl. apply NoDup_singleton.
  - intros x Hx. apply elem_of_app in Hx as [Hx|Hx].
    + specialize (Hlt x Hx). lia.
    + apply list_elem_of_singleton in Hx. subst. simpl. lia.
Qed.

Lemma typing_ids_cleared (db db0 : DB) (c u : nat) :
  typingIndicators db0 = typingIndicators db → nextId db ≤ nextId db0 →
  typing_ids_wf db → typing_ids_wf (set_typingIndicators (cleared u c db) db0).
Proof.
  intros H0 Hn [Hnd Hlt]. unfold cleared.
  destruct (head (typing_by_user_conversation u c db)) as [t|].
  - split; simpl; rewrite H0.
    + change ti_id with (@_id TypingIndicator _). by apply NoDup_deleted.
    + intros x Hx. apply elem_of_deleted in Hx as [_ Hx].
      specialize (Hlt x Hx). lia.
  - apply (typing_ids_frame db); [by simpl|by simpl|done].
Qed.

Lemma exec_store_wf (c : Call) (db : DB) : store_wf db → store_wf (exec c db).
Proof.
  intros (Hc & Hr & Ht & Hi). destruct c as
    [cl n e a now|u o now|a b now|n ms cr now|u cv now|cv s b now|m u|m u e
    |cv u now|cv u]; simpl.
  - destruct (upsertUser_frame db cl n e a now) as (? & ? & ? & ? & ? & ?).
    split; [by eapply conv_wf_frame|].
    split; [by eapply reactions_unique_frame|].
    split; [by eapply typing_unique_frame|by eapply typing_ids_frame].
  - destruct (updateOnlineStatus_frame db u o now) as (? & ? & ? & ? & ? & ?).
    split; [by eapply conv_wf_frame|].
    split; [by eapply reactions_unique_frame|].
    split; [by eapply typing_unique_frame|by eapply typing_ids_frame].
  - rewrite getOrCreateDirect_cases.
    destruct (firstDirect db b (members_by_userId a db)) as [[c|]|err] eqn:Hs;
      simpl; [done| |done].
    split; [by apply conv_wf_created|]. split; [done|]. split; [done|].
    eapply typing_ids_frame; [|simpl|done]; [done|lia].
  - rewrite createGroup_spec. simpl. split; [by apply conv_wf_grouped|].
    split; [done|]. split; [done|].
    eapply typing_ids_frame; [|simpl|done]; [done|lia].
  - destruct (mutation_throw (markAsRead u cv now) db) as [[[] Hok]|Hthrow].
    + apply markAsRead_ok in Hok as [[_ ->]|(m & _ & ->)]; [done|].
      split; [by apply conv_wf_readAt|done].
    + by rewrite Hthrow.
  - rewrite (sendMessage_spec db cv s b now (Ht s cv)). simpl.
    split; [eapply conv_wf_frame; [done|done|done|simpl; lia]|].
    split; [done|]. split; [by apply typing_unique_cleared|].
    apply typing_ids_cleared; [done|simpl; lia|done].
  - destruct (deleteMessage_cases db m u) as [-> | ->]; [done|].
    split; [by eapply conv_wf_frame|done].
  - destruct (decide (e ∈ ALLOWED_EMOJIS)) as [He|He].
    + rewrite (toggleReaction_ok db m u e He (Hr m u)). simpl.
      assert (Hsame : conversations (toggled m u e db) = conversations db
                ∧ conversationMembers (toggled m u e db) = conversationMembers db
                ∧ typingIndicators (toggled m u e db) = typingIndicators db
                ∧ nextId db ≤ nextId (toggled m u e db)).
      { unfold toggled; destruct (reactions_by_message_user m u db);
          try case_decide; simpl; repeat split; lia. }
      destruct Hsame as (? & ? & ? & ?).
      split; [by eapply conv_wf_frame|].
      split; [by apply reactions_unique_toggled|].
      split; [by eapply typing_unique_frame|by eapply typing_ids_frame].
    + unfold toggleReaction, mutation. rewrite decide_True by done. done.
  - rewrite (setTyping_spec db cv u now (Ht u cv)). simpl.
    assert (Hsame : conversations (typed cv u now db) = conversations db
              ∧ conversationMembers (typed cv u now db) = conversationMembers db
              ∧ reactions (typed cv u now db) = reactions db
              ∧ nextId db ≤ nextId (typed cv u now db)).
    { unfold typed; destruct (head (typing_by_user_conversation u cv db));
        simpl; repeat split; lia. }
    destruct Hsame as (? & ? & ? & ?).
    split; [by eapply conv_wf_frame|].
    split; [by eapply reactions_unique_frame|].
    split; [by apply typing_unique_typed|by apply typing_ids_typed].
  - rewrite (clearTyping_spec db cv u (Ht u cv)). simpl.
    split; [by eapply conv_wf_frame|].
    split; [done|]. split; [by apply typing_unique_cleared|].
    by apply typing_ids_cleared.
Qed.

(** Every store that sequential calls produce from the empty store is
    well-formed. *)
Theorem reachable_store_wf (db : DB) : reachable db → store_wf db.
Proof.
  induction 1 as [|c db _ IH]; [|by apply exec_store_wf].
  split; [apply conv_wf_empty|].
  split; [intros ??; simpl; lia|]. split; [intros ??; simpl; lia|].
  split; [constructor|]. intros t Ht. by apply elem_of_nil in Ht.
Qed.


(** ** Typing expiry *)

Lemma NoDup_fmap_elem {A B} (f : A → B) (l : list A) (x y : A) :
  NoDup (f <$> l) → x ∈ l → y ∈ l → f x = f y → x = y.
Proof.
  induction l as [|z l IH]; intros Hnd Hx Hy Hf.
  - by apply elem_of_nil in Hx.
  - rewrite fmap_cons in Hnd. apply NoDup_cons in Hnd as [Hz Hnd].
    apply elem_of_cons in Hx as [->|Hx]; apply elem_of_cons in Hy as [->|Hy].
    + done.
    + exfalso. apply Hz. rewrite Hf. by apply list_elem_of_fmap_2.
    + exfalso. apply Hz. rewrite <- Hf. by apply list_elem_of_fmap_2.
    + by apply IH.
Qed.

Lemma patched_other {R} `{Doc R} (i : nat) (f : R → R) (l : list R) :
  (∀ x, x ∈ l → _id x ≠ i) → patched i f l = l.
Proof.
  intros Hall. unfold patched. induction l as [|x l IH]; [done|].
  rewrite fmap_cons, decide_False by (apply Hall; left).
  f_equal. apply IH. intros y Hy. apply Hall. by right.
Qed.

Lemma deleted_other {R} `{Doc R} (i : nat) (l : list R) :
  (∀ x, x ∈ l → _id x ≠ i) → deleted i l = l.
Proof. intros Hall. unfold deleted. by apply filter_all. Qed.

(** The rows of another pair carry other ids than the row [t]. *)
Lemma typing_other_ids (db : DB) (c u c' u' : nat) (t : TypingIndicator) :
  typing_ids_wf db → ¬ (c' = c ∧ u' = u) →
  head (typing_by_user_conversation u' c' db) = Some t →
  ∀ x, x ∈ typing_by_user_conversation u c db → _id x ≠ _id t.
Proof.
  intros [Hnd _] Hne Hh x Hx Hid.
  assert (Ht : t ∈ typing_by_user_conversation u' c' db).
  { destruct (typing_by_user_conversation u' c' db); simplify_eq/=. left. }
  apply list_elem_of_filter in Ht as [[? ?] Ht].
  apply list_elem_of_filter in Hx as [[? ?] Hx].
  assert (x = t) by (by eapply (NoDup_fmap_elem ti_id)).
  subst x. apply Hne. split; congruence.
Qed.

Lemma typed_other (db : DB) (c u c' u' : nat) (now : Z) :
  typing_ids_wf db → ¬ (c' = c ∧ u' = u) →
  typing_by_user_conversation u c (typed c' u' now db)
  = typing_by_user_conversation u c db.
Proof.
  intros Hids Hne. unfold typed.
  destruct (head (typing_by_user_conversation u' c' db)) as [t|] eqn:Hh.
  - unfold typing_by_user_conversation at 1. simpl.
    rewrite filter_patched by done. apply patched_other.
    by eapply typing_other_ids.
  - unfold typing_by_user_conversation. simpl. rewrite filter_app.
    rewrite filter_cons_False by (simpl; tauto). by rewrite app_nil_r.
Qed.

Lemma cleared_other (db db0 : DB) (c u c' u' : nat) :
  typingIndicators db0 = typingIndicators db →
  typing_ids_wf db → ¬ (c' = c ∧ u' = u) →
  typing_by_user_conversation u c (set_typingIndicators (cleared u' c' db) db0)
  = typing_by_user_conversation u c db.
Proof.
  intros H0 Hids Hne. unfold cleared.
  destruct (head (typing_by_user_conversation u' c' db)) as [t|] eqn:Hh.
  - unfold typing_by_user_conversation at 1. simpl. rewrite H0.
    rewrite filter_deleted. apply deleted_other.
    by eapply typing_other_ids.
  - unfold typing_by_user_conversation. simpl. by rewrite H0.
Qed.

(** A call that is not [setTyping], [clearTyping] or [sendMessage] by [u]
    in [c] leaves the TypingIndicator rows of [(u, c)] as they are. *)
Lemma exec_keeps_typing (db : DB) (c u : nat) (call : Call) :
  store_wf db → ¬ writes_typing c u call →
  typing_by_user_conversation u c (exec call db)
  = typing_by_user_conversation u c db.
Proof.
  intros (Hc & Hr & Ht & Hi) Hq.
  assert (Hframe : ∀ db', typingIndicators db' = typingIndicators db →
            typing_by_user_conversation u c db'
            = typing_by_user_conversation u c db).
  { intros db' Heq. unfold typing_by_user_conversation. by rewrite Heq. }
  destruct call as
    [cl n e a now|u0 o now|a b now|n ms cr now|u0 cv now|cv s b now|m u0|m u0 e
    |cv u0 now|cv u0]; simpl in *.
  - apply Hframe. by destruct (upsertUser_frame db cl n e a now) as (? & ? & ? & ? & ? & ?).
  - apply Hframe. by destruct (updateOnlineStatus_frame db u0 o now) as (? & ? & ? & ? & ? & ?).
  - apply Hframe. rewrite getOrCreateDirect_cases.
    by destruct (firstDirect db b (members_by_userId a db)) as [[?|]|?].
  - apply Hframe. by rewrite createGroup_spec.
  - apply Hframe.
    destruct (mutation_throw (markAsRead u0 cv now) db) as [[[] Hok]|Hthrow].
    + by apply markAsRead_ok in Hok as [[_ ->]|(m & _ & ->)].
    + by rewrite Hthrow.
  - rewrite (sendMessage_spec db cv s b now (Ht s cv)). simpl.
    by apply cleared_other.
  - apply Hframe. by destruct (deleteMessage_cases db m u0) as [-> | ->].
  - apply Hframe. destruct (decide (e ∈ ALLOWED_EMOJIS)) as [He|He].
    + rewrite (toggleReaction_ok db m u0 e He (Hr m u0)). simpl.
      unfold toggled. destruct (reactions_by_message_user m u0 db);
        try case_decide; done.
    + unfold toggleReaction, mutation. rewrite decide_True by done. done.
  - rewrite (setTyping_spec db cv u0 now (Ht u0 cv)). simpl.
    by apply typed_other.
  - rewrite (clearTyping_spec db cv u0 (Ht u0 cv)). simpl.
    by apply cleared_other.
Qed.

Lemma execs_store_wf (calls : list Call) (db : DB) :
  store_wf db → store_wf (execs calls db).
Proof.
  revert db. induction calls as [|call calls IH]; intros db Hwf; [done|].
  simpl. apply IH. by apply exec_store_wf.
Qed.

Lemma execs_keep_typing (db : DB) (c u : nat) (calls : list Call) :
  store_wf db → Forall (λ call, ¬ writes_typing c u call) calls →
  typing_by_user_conversation u c (execs calls db)
  = typing_by_user_conversation u c db.
Proof.
  revert db. induction calls as [|call calls IH]; intros db Hwf Hq; [done|].
  apply Forall_cons in Hq as [Hq1 Hq]. unfold execs in *. simpl.
  rewrite IH; [by apply exec_keeps_typing|by apply exec_store_wf|done].
Qed.

(** C9, the claim as stated fails: the list holds names, not users.
    User 0, named Sam, started typing in conversation 7 at 1000 and did
    nothing afterwards; at 3100, when [3100 - 1000 < 2000] is false, the
    name Sam is still in the list shown to reader 2, and it is in the list
    shown to user 0 itself, because another user named Sam is typing.
    Two typers without a user document are both listed as "Someone". *)
Lemma typing_expiry_namesake_counterexample :
  name <$> get 0 (users db_namesakes) = Some "Sam"
  ∧ typing_by_user_conversation 0 7 db_namesakes = [mkTypingIndicator 2 7 0 1000]
  ∧ ¬ ("Sam" ∈ getTypingUsers 7 2 3100 db_namesakes ↔ (3100 - 1000 < 2000)%Z)
  ∧ "Sam" ∈ getTypingUsers 7 0 3100 db_namesakes
  ∧ typing_by_user_conversation 1 0 db_unnamed_typers = [mkTypingIndicator 0 0 1 1000]
  ∧ getTypingUsers 0 2 3100 db_unnamed_typers = ["Someone"].
Proof.
  split; [reflexivity|]. split; [reflexivity|]. split; [|split; [|split]].
  - intros [Hin _].
    assert (Hlt : (3100 - 1000 < 2000)%Z) by (apply Hin; left). lia.
  - left.
  - reflexivity.
  - reflexivity.
Qed.

(** C9, amended: in a well-formed store let [U] call [setTyping(C, U)] at
    [t0], followed by any calls other than [setTyping], [clearTyping] and
    [sendMessage] by [U] in [C].  Then [setTyping] succeeds; the
    TypingIndicator of [U] is among the active ones that
    [getTypingUsers(C, V)] reports at time [t], for another user [V],
    exactly when [t - t0 < 2000], and never among those reported to [U]
    itself.  The query returns names: the name of [U], which is the name
    of its user document or "Someone" without one, is in the list for [V]
    exactly when [t - t0 < 2000] or a namesake is typing, and in the list
    for [U] exactly when a namesake is typing. *)
Theorem typing_expiry (db : DB) (C U V : nat) (t0 t : Z) (later : list Call) :
  store_wf db → U ≠ V →
  Forall (λ call, ¬ writes_typing C U call) later →
  ∃ db', mutation (setTyping C U t0) db = (Ok (), db')
    ∧ (U ∈ ti_userId <$> activeIndicators C V t (execs later db')
       ↔ (t - t0 < 2000)%Z)
    ∧ (U ∉ ti_userId <$> activeIndicators C U t (execs later db'))
    ∧ ∀ n, match get U (users (execs later db')) with
           | Some usr => n = name usr
           | None => n = "Someone"
           end →
           (n ∈ getTypingUsers C V t (execs later db')
            ↔ (t - t0 < 2000)%Z ∨ namesake (execs later db') C U V t n)
           ∧ (n ∈ getTypingUsers C U t (execs later db')
              ↔ namesake (execs later db') C U U t n).
Proof.
  intros Hwf Hne Hq.
  pose proof Hwf as (_ & _ & Ht & _).
  destruct (setTyping_row db C U t0 (Ht U C)) as (db' & x & Hm & Hrow & Hx).
  exists db'. split; [done|].
  assert (Hwf' : store_wf db').
  { pose proof (exec_store_wf (SetTyping C U t0) db Hwf) as H'.
    simpl in H'. by rewrite Hm in H'. }
  apply (typer_of_row _ C U V t0 t x); [done| |done].
  by rewrite execs_keep_typing.
Qed.


(** ** The theorems at concrete stores *)

Lemma preview_is_latest_message_witness :
  (∃ e, e ∈ getUserConversations 2 db_preview
        ∧ conversation e = mkConversation 0 false None 100)
  ∧ (∀ msg, Some (mkMessage 4 0 1 "oops" 2000 true) = Some msg →
       msg ∈ messages db_preview
       ∧ msg_conversationId msg = 0
       ∧ ∀ m', m' ∈ messages db_preview → msg_conversationId m' = 0 →
               (createdAt m' ≤ createdAt msg)%Z).
Proof.
  split.
  - apply (proj1 (preview_is_latest_message db_preview 2)
             (mkMember 2 0 2 100) (mkConversation 0 false None 100)).
    + vm_compute. right. left.
    + reflexivity.
    + reflexivity.
  - apply (proj2 (preview_is_latest_message db_preview 2)
             (mkEnriched (mkConversation 0 false None 100) []
                (Some (mkMessage 4 0 1 "oops" 2000 true)) None 2 2)).
    vm_compute. left.
Defined.


Lemma toggleReaction_spec_witness :
  (∃ msg, toggleReaction 3 2 "x" db_chat = (Throw msg, db_chat)
          ∧ mutation (toggleReaction 3 2 "x") db_chat = (Throw msg, db_chat))
  ∧ (∃ db', mutation (toggleReaction 3 2 "👍") db_chat = (Ok (), db')
       ∧ (∀ r, reactions_by_message_user 3 2 db_chat = [r] → emoji r = "👍" →
               reactions_by_message_user 3 2 db' = [])
       ∧ (∀ r, reactions_by_message_user 3 2 db_chat = [r] → emoji r ≠ "👍" →
               emoji <$> reactions_by_message_user 3 2 db' = ["👍"])
       ∧ (reactions_by_message_user 3 2 db_chat = [] →
               emoji <$> reactions_by_message_user 3 2 db' = ["👍"])).
Proof.
  split.
  - apply (proj1 (toggleReaction_spec db_chat 3 2 "x")).
    apply (bool_decide_unpack _). vm_compute. exact I.
  - apply (proj2 (toggleReaction_spec db_chat 3 2 "👍")).
    + left.
    + simpl. lia.
Defined.

Lemma missing_target_behaviour_witness :
  mutation (deleteMessage 5 1) empty_db = (Throw "Message not found", empty_db)
  ∧ mutation (markAsRead 1 0 5) empty_db = (Ok (), empty_db).
Proof.
  split.
  - apply (proj1 (missing_target_behaviour empty_db)). reflexivity.
  - apply (proj2 (missing_target_behaviour empty_db)). reflexivity.
Defined.

Lemma typing_expiry_witness :
  ("Ann Lee" ∈ getTypingUsers 7 1 2999
                 (execs [SetTyping 7 1 1200; SendMessage 7 1 "hi" 1300;
                         UpdateOnlineStatus 0 true 1400]
                        (mutation (setTyping 7 0 1000) db_users).2))
  ∧ ("Ann Lee" ∉ getTypingUsers 7 1 3000
                   (execs [SetTyping 7 1 1200; SendMessage 7 1 "hi" 1300;
                           UpdateOnlineStatus 0 true 1400]
                          (mutation (setTyping 7 0 1000) db_users).2))
  ∧ (0 ∉ ti_userId <$> activeIndicators 7 0 2999
                         (execs [SetTyping 7 1 1200; SendMessage 7 1 "hi" 1300;
                                 UpdateOnlineStatus 0 true 1400]
                                (mutation (setTyping 7 0 1000) db_users).2)).
Proof.
  assert (Hwf : store_wf db_users).
  { apply reachable_store_wf.
    change db_users
      with (exec (UpsertUser "clerk_b" "Bob" "bob@example.org" "b.png" 20)
              (exec (UpsertUser "clerk_a" "Ann Lee" "ann@example.org" "a.png" 10)
                 empty_db)).
    do 2 apply reachable_exec. apply reachable_empty. }
  assert (Hq : Forall (λ call, ¬ writes_typing 7 0 call)
                 [SetTyping 7 1 1200; SendMessage 7 1 "hi" 1300;
                  UpdateOnlineStatus 0 true 1400]).
  { repeat constructor; simpl; lia. }
  destruct (typing_expiry db_users 7 0 1 1000 2999 _ Hwf ltac:(lia) Hq)
    as (db1 & Hm1 & _ & Hself & Hname1).
  destruct (typing_expiry db_users 7 0 1 1000 3000 _ Hwf ltac:(lia) Hq)
    as (db2 & Hm2 & _ & _ & Hname2).
  assert (E1 : db1 = (mutation (setTyping 7 0 1000) db_users).2) by (by rewrite Hm1).
  assert (E2 : db2 = (mutation (setTyping 7 0 1000) db_users).2) by (by rewrite Hm2).
  subst db1 db2.
  split; [|split; [|exact Hself]].
  - apply (proj1 (Hname1 "Ann Lee" eq_refl)). left. lia.
  - intros Hin. apply (proj1 (Hname2 "Ann Lee" eq_refl)) in Hin as [Hlt|Hsake]; [lia|].
    destruct Hsake as (i & Hi & Hne0 & _).
    apply list_elem_of_singleton in Hi. subst i. by apply Hne0.
Defined.


(** * Further properties of the code *)

(** ** Order of index reads and of sorted results *)

Section SortOrder.
Context {A : Type} (key : A → Z).

Lemma insert_by_sorted x l :
  StronglySorted (λ a b, (key a ≤ key b)%Z) l →
  StronglySorted (λ a b, (key a ≤ key b)%Z) (insert_by key x l).
Proof.
  induction l as [|y l IH]; simpl; intros Hs.
  - repeat constructor.
  - apply StronglySorted_inv in Hs as [Hs Hy]. case_decide as Hxy.
    + constructor; [by constructor|]. constructor; [done|].
      eapply Forall_impl; [exact Hy|]. simpl. intros z Hz. lia.
    + constructor; [by apply IH|].
      apply Forall_forall. intros z Hz.
      rewrite insert_by_Permutation in Hz.
      apply elem_of_cons in Hz as [->|Hz]; [lia|].
      by eapply Forall_forall in Hy.
Qed.

Lemma sort_by_sorted l :
  StronglySorted (λ a b, (key a ≤ key b)%Z) (sort_by key l).
Proof.
  induction l as [|x l IH]; [constructor|]. by apply insert_by_sorted.
Qed.

(** The sort is stable: elements with one key keep their order. *)
Lemma insert_by_stable k x l :
  filter (λ a, key a = k) (insert_by key x l)
  = filter (λ a, key a = k) (x :: l).
Proof.
  induction l as [|y l IH]; [done|]. simpl.
  case_decide as Hxy; [done|].
  rewrite filter_cons, IH, !filter_cons.
  destruct (decide (key y = k)) as [Hy|Hy];
    destruct (decide (key x = k)) as [Hx|Hx]; try done.
  lia.
Qed.

Lemma sort_by_stable k l :
  filter (λ a, key a = k) (sort_by key l) = filter (λ a, key a = k) l.
Proof.
  induction l as [|x l IH]; [done|].
  change (sort_by key (x :: l)) with (insert_by key x (sort_by key l)).
  rewrite insert_by_stable, !filter_cons, IH. done.
Qed.

Lemma insert_by_fmap {B} (f : B → A) (x : B) (l : list B) :
  insert_by key (f x) (f <$> l) = f <$> insert_by (key ∘ f) x l.
Proof.
  induction l as [|y l IH]; [done|]. simpl.
  case_decide; [done|]. by rewrite fmap_cons, <- IH.
Qed.

Lemma sort_by_fmap {B} (f : B → A) (l : list B) :
  sort_by key (f <$> l) = f <$> sort_by (key ∘ f) l.
Proof.
  induction l as [|x l IH]; [done|].
  change (sort_by key (f <$> x :: l))
    with (insert_by key (f x) (sort_by key (f <$> l))).
  rewrite IH, insert_by_fmap. done.
Qed.

End SortOrder.

Lemma sort_by_ext {A} (k1 k2 : A → Z) (l : list A) :
  (∀ x, k1 x = k2 x) → sort_by k1 l = sort_by k2 l.
Proof.
  intros Hk. induction l as [|x l IH]; [done|].
  change (insert_by k1 x (sort_by k1 l) = insert_by k2 x (sort_by k2 l)).
  rewrite IH. generalize (sort_by k2 l). intros l'.
  induction l' as [|y l' IH']; [done|]. simpl.
  rewrite !Hk, IH'. done.
Qed.

Lemma StronglySorted_mono {A} (R1 R2 : A → A → Prop) (l : list A) :
  (∀ x y, R1 x y → R2 x y) → StronglySorted R1 l → StronglySorted R2 l.
Proof.
  intros HR. induction 1 as [|x l _ IH Hx]; constructor; [done|].
  eapply Forall_impl; [exact Hx|]. intros y. apply HR.
Qed.

(** ** The sidebar is ordered newest first *)

(** X1: the result of [getUserConversations] holds one entry for each
    Membership of the user on an existing conversation, ordered by
    decreasing [latestMessage?.createdAt ?? createdAt]; entries with the
    same time keep the order of the Memberships. *)
Theorem getUserConversations_newest_first (db : DB) (U : nat) :
  getUserConversations U db ≡ₚ omap (enrich db U) (members_by_userId U db)
  ∧ StronglySorted (λ e1 e2, (sortTime e2 ≤ sortTime e1)%Z)
                   (getUserConversations U db)
  ∧ ∀ t, filter (λ e, sortTime e = t) (getUserConversations U db)
         = filter (λ e, sortTime e = t)
                  (omap (enrich db U) (members_by_userId U db)).
Proof.
  unfold getUserConversations. split; [apply sort_by_Permutation|]. split.
  - eapply StronglySorted_mono; [|apply sort_by_sorted].
    simpl. intros. lia.
  - intros t.
    etrans; [|etrans; [apply (sort_by_stable (λ a, (- sortTime a)%Z) (- t)%Z)|]];
      apply list_filter_iff; intros e; lia.
Qed.


(** ** The message feed *)

Lemma getMessages_messages (db : DB) (C : nat) :
  message <$> getMessages C db = messages_by_conversation_createdAt C db.
Proof.
  unfold getMessages. rewrite <- list_fmap_compose.
  etrans; [|apply list_fmap_id]. by apply list_fmap_ext.
Qed.

(** X2: [getMessages] returns the Messages of the conversation and no
    others, withdrawn ones included, in non-decreasing [createdAt] order,
    Messages with the same timestamp in insertion order; each comes with
    the sender document and with exactly the Reactions on that Message. *)
Theorem getMessages_feed (db : DB) (C : nat) :
  message <$> getMessages C db
    ≡ₚ filter (λ m, msg_conversationId m = C) (messages db)
  ∧ StronglySorted (λ m1 m2, (createdAt m1 ≤ createdAt m2)%Z)
                   (message <$> getMessages C db)
  ∧ (∀ t, filter (λ m, createdAt m = t) (message <$> getMessages C db)
          = filter (λ m, createdAt m = t ∧ msg_conversationId m = C) (messages db))
  ∧ (∀ em, em ∈ getMessages C db →
       sender em = get (senderId (message em)) (users db)
       ∧ (enrichedReactions em).*1
         = filter (λ r, r_messageId r = _id (message em)) (reactions db)).
Proof.
  rewrite getMessages_messages. unfold messages_by_conversation_createdAt.
  split; [apply sort_by_Permutation|]. split; [apply sort_by_sorted|]. split.
  - intros t. rewrite sort_by_stable, list_filter_filter. done.
  - intros em Hem. unfold getMessages in Hem.
    apply list_elem_of_fmap in Hem as (m & -> & _). simpl. split; [done|].
    unfold reactions_by_messageId. rewrite <- list_fmap_compose.
    etrans; [|apply list_fmap_id]. by apply list_fmap_ext.
Qed.

(** X3: after the sender has deleted a message, the feed of every
    conversation is the feed from before with that message marked
    [isDeleted]: the message stays in its place and its stored body is
    still handed out. *)
Theorem getMessages_after_delete (db : DB) (mid r : nat) (msg : Message) (C : nat) :
  get mid (messages db) = Some msg → senderId msg = r →
  message <$> getMessages C (mutation (deleteMessage mid r) db).2
    = (λ m, if decide (_id m = mid) then withdrawn m else m)
        <$> (message <$> getMessages C db)
  ∧ ∀ m, body (withdrawn m) = body m ∧ isDeleted (withdrawn m) = true.
Proof.
  intros Hg Hs. split; [|done].
  assert (Hm : mutation (deleteMessage mid r) db
               = (Ok (), set_messages (patched mid withdrawn) db)).
  { unfold deleteMessage. munfold. simpl. rewrite Hg.
    rewrite decide_False by (intros ?; done). simpl. by rewrite Hg. }
  rewrite Hm, !getMessages_messages. simpl.
  unfold messages_by_conversation_createdAt. simpl.
  rewrite filter_patched by done.
  unfold patched. rewrite sort_by_fmap. f_equal.
  apply sort_by_ext. intros x. simpl. by case_decide.
Qed.

Lemma getMessages_after_delete_witness :
  message <$> getMessages 0 (mutation (deleteMessage 3 1) db_chat).2
  = [mkMessage 3 0 1 "hi" 1000 true].
Proof.
  apply (proj1 (getMessages_after_delete db_chat 3 1
                  (mkMessage 3 0 1 "hi" 1000 false) 0 eq_refl eq_refl)).
Defined.

(** ** Unread counts grow with the messages of others *)

(** X4: when another user [V] sends a message into conversation [C] at
    [now], the unread count that [getUserConversations] reports to [U] for
    a Membership on [C] grows by exactly one if [now] is after the
    [lastReadAt] of the Membership and stays as it is otherwise (a message
    stamped with the very millisecond of the read cursor is not unread);
    the counts of all other conversations stay as they are. *)
Theorem unreadCount_after_send (db db' : DB) (U V C r : nat) (b : string) (now : Z) :
  mutation (sendMessage C V b now) db = (Ok r, db') → V ≠ U →
  ∀ m conv, m ∈ conversationMembers db → cm_userId m = U →
    get (cm_conversationId m) (conversations db) = Some conv →
    ∃ e, e ∈ getUserConversations U db' ∧ conversation e = conv
         ∧ unreadCount e
           = unreadSpec db U (cm_conversationId m) (lastReadAt m)
             + (if decide (cm_conversationId m = C ∧ (lastReadAt m < now)%Z)
                then 1 else 0).
Proof.
  intros Hmut Hne m conv Hm Hu Hg.
  pose proof (sendMessage_ok _ _ _ _ _ _ _ Hmut) as Huniq.
  rewrite (sendMessage_spec db C V b now Huniq) in Hmut. simplify_eq.
  match goal with |- ∃ e, e ∈ getUserConversations _ ?d ∧ _ => set (db' := d) end.
  assert (Hg' : get (cm_conversationId m) (conversations db') = Some conv) by done.
  destruct (enrich_is_Some db' (cm_userId m) m conv Hg') as (e & He & Hc).
  exists e. split; [apply elem_of_getUserConversations; by exists m|].
  split; [done|].
  apply enrich_Some in He as (_ & _ & _ & ->).
  unfold unreadSpec, db'. simpl. rewrite filter_app, length_app. f_equal.
  rewrite filter_cons. simpl.
  destruct (decide (cm_conversationId m = C ∧ (lastReadAt m < now)%Z)) as [[? ?]|Hn].
  - by rewrite decide_True.
  - rewrite decide_False; [done|]. intros (? & ? & ?). apply Hn. done.
Qed.

Lemma unreadCount_after_send_witness :
  ∃ e, e ∈ getUserConversations 2 (mutation (sendMessage 0 1 "yo" 1200) db_chat).2
       ∧ conversation e = mkConversation 0 false None 100
       ∧ unreadCount e = unreadSpec db_chat 2 0 100 + 1.
Proof.
  apply (unreadCount_after_send db_chat _ 2 1 0 4 "yo" 1200 eq_refl
           ltac:(lia) (mkMember 2 0 2 100) (mkConversation 0 false None 100)).
  - vm_compute. right. left.
  - reflexivity.
  - reflexivity.
Defined.


(** ** The user directory *)

Lemma NoDup_fmap_filter_le1 {A B} `{EqDecision B} (f : A → B) (k : B) (l : list A) :
  NoDup (f <$> l) → length (filter (λ x, f x = k) l) ≤ 1.
Proof.
  induction l as [|x l IH]; [simpl; lia|].
  rewrite fmap_cons, NoDup_cons. intros [Hx Hnd].
  rewrite filter_cons. case_decide as Hk; [|by apply IH].
  rewrite (filter_none (λ x, f x = k) l); [simpl; lia|].
  intros y Hy Hyk. apply Hx. rewrite Hk, <- Hyk. by apply list_elem_of_fmap_2.
Qed.

Lemma patched_fixed {R} `{Doc R} (i : nat) (f : R → R) (l : list R) :
  (∀ x, x ∈ l → _id x = i → f x = x) → patched i f l = l.
Proof.
  intros Hf. unfold patched. induction l as [|x l IH]; [done|].
  rewrite fmap_cons. f_equal.
  - case_decide; [apply Hf; [left|done]|done].
  - apply IH. intros y Hy. apply Hf. by right.
Qed.

(** The profile [upsertUser] writes over an existing document. *)
Lemma upsertUser_spec (db : DB) (c n e a : string) (now : Z) :
  length (users_by_clerkId c db) ≤ 1 →
  mutation (upsertUser c n e a now) db
  = match head (users_by_clerkId c db) with
    | Some u =>
        (Ok (user_id u),
         set_users (patched (user_id u)
                      (λ r, mkUser (user_id r) (clerkId r) n e a
                                   (isOnline r) (lastSeen r))) db)
    | None =>
        (Ok (nextId db),
         set_users (λ l, l ++ [mkUser (nextId db) c n e a false now])
                   (set_nextId S db))
    end.
Proof.
  intros Hu. unfold upsertUser. munfold. simpl.
  destruct (users_by_clerkId c db) as [|u [|u' l]] eqn:Hf; simpl in *; [done| |lia].
  assert (Hin : u ∈ users db).
  { assert (Hx : u ∈ users_by_clerkId c db) by (rewrite Hf; left).
    apply list_elem_of_filter in Hx. tauto. }
  destruct (get_is_Some (_id u) _ u Hin eq_refl) as [u0 Hu0].
  by rewrite Hu0.
Qed.

Lemma users_wf_unique (db : DB) (c : string) :
  users_wf db → length (users_by_clerkId c db) ≤ 1.
Proof. intros (_ & _ & Hc). by apply NoDup_fmap_filter_le1. Qed.

(** The store after [upsertUser] on a well-formed users table. *)
Lemma upsertUser_outcome (db : DB) (c n e a : string) (now : Z) :
  users_wf db →
  ∃ i db' u',
    mutation (upsertUser c n e a now) db = (Ok i, db')
    ∧ users_wf db'
    ∧ users_by_clerkId c db' = [u']
    ∧ u' = mkUser i c n e a (isOnline u') (lastSeen u')
    ∧ match users_by_clerkId c db with
      | [] => i = nextId db ∧ isOnline u' = false ∧ lastSeen u' = now
              ∧ users db' = users db ++ [u']
      | u :: _ => i = user_id u ∧ isOnline u' = isOnline u
                  ∧ lastSeen u' = lastSeen u
                  ∧ length (users db') = length (users db)
      end
    ∧ ∀ x, clerkId x ≠ c → x ∈ users db' ↔ x ∈ users db.
Proof.
  intros Hwf. pose proof (users_wf_unique db c Hwf) as Hu.
  pose proof Hwf as (Hids & Hlt & Hcs).
  rewrite (upsertUser_spec db c n e a now Hu).
  destruct (users_by_clerkId c db) as [|u [|u2 l]] eqn:Hf; simpl in Hu; [| |lia].
  - set (u' := mkUser (nextId db) c n e a false now).
    assert (Hrow : users_by_clerkId c
              (set_users (λ l, l ++ [u']) (set_nextId S db)) = [u']).
    { unfold users_by_clerkId in *. simpl. rewrite filter_app, Hf. simpl.
      by rewrite filter_cons_True. }
    eexists _, _, u'. split; [done|]. split; [|split; [done|]].
    { split; [|split]; simpl.
      - rewrite fmap_app. apply NoDup_app. split; [done|]. split.
        + intros i Hi Hi'. simpl in Hi'. apply list_elem_of_singleton in Hi'.
          apply list_elem_of_fmap in Hi as (x & -> & Hx).
          specialize (Hlt x Hx). lia.
        + simpl. apply NoDup_singleton.
      - intros x Hx. apply elem_of_app in Hx as [Hx|Hx].
        + specialize (Hlt x Hx). lia.
        + apply list_elem_of_singleton in Hx. subst. simpl. lia.
      - rewrite fmap_app. apply NoDup_app. split; [done|]. split.
        + intros k Hk Hk'. simpl in Hk'. apply list_elem_of_singleton in Hk'.
          subst k. apply list_elem_of_fmap in Hk as (x & Hxc & Hx).
          eapply (filter_nil_elem _ _ x Hf); done.
        + simpl. apply NoDup_singleton. }
    split; [done|]. split; [done|].
    intros x Hx. simpl. rewrite elem_of_app, list_elem_of_singleton.
    split; [intros [?| ->]; [done|by simpl in Hx]|by left].
  - assert (Hin : u ∈ users_by_clerkId c db) by (rewrite Hf; left).
    apply list_elem_of_filter in Hin as [Huc Hin].
    set (f := λ r, mkUser (user_id r) (clerkId r) n e a (isOnline r) (lastSeen r)).
    set (u' := f u).
    assert (Hone : ∀ x, x ∈ users db → user_id x = user_id u → x = u).
    { intros x Hx Hid. by eapply (NoDup_fmap_elem user_id). }
    assert (Hrow : users_by_clerkId c (set_users (patched (user_id u) f) db) = [u']).
    { unfold users_by_clerkId in *. simpl.
      rewrite filter_patched by done. rewrite Hf. unfold patched. simpl.
      by rewrite decide_True. }
    eexists _, _, u'. split; [done|]. split; [|split; [done|]].
    { split; [|split]; simpl.
      - change user_id with (@_id User _). by rewrite ids_patched.
      - intros x Hx. apply elem_of_patched in Hx as (r0 & Hr0 & ->).
        specialize (Hlt r0 Hr0). by case_decide.
      - replace (clerkId <$> patched (user_id u) f (users db))
          with (clerkId <$> users db); [done|].
        unfold patched. rewrite <- list_fmap_compose.
        apply list_fmap_ext. intros k x _. simpl. by case_decide. }
    split; [unfold u', f; simpl; by rewrite Huc|].
    split; [simpl; by rewrite length_patched|].
    intros x Hx. simpl. rewrite elem_of_patched. split.
    + intros (r0 & Hr0 & ->). case_decide as Hid; [|done].
      exfalso. apply Hx. simpl. rewrite (Hone r0 Hr0 Hid). done.
    + intros Hin'. exists x. split; [done|]. rewrite decide_False; [done|].
      intros Hid. apply Hx. by rewrite (Hone x Hin' Hid).
Qed.

(** X5: in a well-formed users table [upsertUser] succeeds and leaves
    exactly one user with the given [clerkId], carrying the given name,
    email and avatar, whose id it returns; that user is what
    [getUserByClerkId] then finds.  A new user gets a fresh id,
    [isOnline = false] and [lastSeen = now]; an existing one keeps its id,
    [isOnline] and [lastSeen].  Users with another [clerkId] are untouched
    and the table stays well-formed. *)
Theorem upsertUser_profile (db : DB) (c n e a : string) (now : Z) :
  users_wf db →
  ∃ i db' u',
    mutation (upsertUser c n e a now) db = (Ok i, db')
    ∧ users_wf db'
    ∧ users_by_clerkId c db' = [u']
    ∧ u' = mkUser i c n e a (isOnline u') (lastSeen u')
    ∧ getUserByClerkId c db' = (Ok (Some u'), db')
    ∧ match users_by_clerkId c db with
      | [] => i = nextId db ∧ isOnline u' = false ∧ lastSeen u' = now
              ∧ users db' = users db ++ [u']
      | u :: _ => i = user_id u ∧ isOnline u' = isOnline u
                  ∧ lastSeen u' = lastSeen u
                  ∧ length (users db') = length (users db)
      end
    ∧ ∀ x, clerkId x ≠ c → x ∈ users db' ↔ x ∈ users db.
Proof.
  intros Hwf.
  destruct (upsertUser_outcome db c n e a now Hwf)
    as (i & db' & u' & Hm & Hwf' & Hrow & Hu' & Hcase & Hother).
  exists i, db', u'. split; [done|]. split; [done|]. split; [done|].
  split; [done|]. split; [|done].
  unfold getUserByClerkId. munfold. simpl.
  fold (users_by_clerkId c db'). by rewrite Hrow.
Qed.

Lemma users_wf_empty : users_wf empty_db.
Proof.
  split; [constructor|]. split; [|constructor].
  intros u Hu. by apply elem_of_nil in Hu.
Qed.

Lemma upsertUser_profile_witness :
  ∃ i db' u',
    mutation (upsertUser "clerk_a" "Ann" "ann@example.org" "a.png" 10) empty_db
      = (Ok i, db')
    ∧ users_wf db'
    ∧ users_by_clerkId "clerk_a" db' = [u']
    ∧ u' = mkUser i "clerk_a" "Ann" "ann@example.org" "a.png"
                  (isOnline u') (lastSeen u')
    ∧ getUserByClerkId "clerk_a" db' = (Ok (Some u'), db')
    ∧ (i = nextId empty_db ∧ isOnline u' = false ∧ lastSeen u' = 10%Z
       ∧ users db' = users empty_db ++ [u'])
    ∧ ∀ x, clerkId x ≠ "clerk_a" → x ∈ users db' ↔ x ∈ users empty_db.
Proof.
  apply (upsertUser_profile empty_db "clerk_a" "Ann" "ann@example.org" "a.png" 10).
  exact users_wf_empty.
Defined.

(** X6: [upsertUser] is idempotent: a second call with the same profile,
    at whatever time, returns the same id and leaves the store exactly as
    the first call left it. *)
Theorem upsertUser_idempotent (db db1 : DB) (c n e a : string) (now now' : Z) (i : nat) :
  users_wf db →
  mutation (upsertUser c n e a now) db = (Ok i, db1) →
  mutation (upsertUser c n e a now') db1 = (Ok i, db1).
Proof.
  intros Hwf H1.
  destruct (upsertUser_outcome db c n e a now Hwf)
    as (i0 & db0 & u' & H0 & Hwf1 & Hrow & Hu' & _ & _).
  rewrite H0 in H1. simplify_eq.
  rewrite (upsertUser_spec db1 c n e a now' (users_wf_unique _ _ Hwf1)), Hrow.
  simpl.
  assert (Hi : user_id u' = i) by (by rewrite Hu').
  assert (Hp : patched (user_id u')
            (λ r, mkUser (user_id r) (clerkId r) n e a (isOnline r) (lastSeen r))
            (users db1) = users db1).
  { apply patched_fixed. intros x Hx Hid.
    destruct Hwf1 as (Hids & _ & _).
    assert (x = u').
    { eapply (NoDup_fmap_elem user_id); [exact Hids|done| |done].
      assert (Hin : u' ∈ users_by_clerkId c db1) by (rewrite Hrow; left).
      apply list_elem_of_filter in Hin. tauto. }
    subst x. rewrite Hu'. done. }
  unfold set_users. rewrite Hp, Hi. by destruct db1.
Qed.

Lemma upsertUser_idempotent_witness :
  mutation (upsertUser "clerk_b" "Bob" "bob@example.org" "b.png" 99) db_users
  = (Ok 1, db_users).
Proof.
  apply (upsertUser_idempotent
           (execs [UpsertUser "clerk_a" "Ann Lee" "ann@example.org" "a.png" 10] empty_db)
           db_users "clerk_b" "Bob" "bob@example.org" "b.png" 20 99 1).
  - destruct (upsertUser_outcome empty_db "clerk_a" "Ann Lee" "ann@example.org"
                "a.png" 10 users_wf_empty) as (i & db' & u' & H & Hwf & _).
    vm_compute in H. by simplify_eq.
  - reflexivity.
Defined.


(** ** Presence *)

(** X7: [updateOnlineStatus] on an id that names no user throws and writes
    nothing; on an existing user it sets [isOnline] to the given flag and
    [lastSeen] to [now], also when the flag is the one already stored,
    keeps the rest of the profile, and leaves every other user as it was. *)
Theorem updateOnlineStatus_sets (db : DB) (u : nat) (o : bool) (now : Z) :
  (get u (users db) = None →
     ∃ e, mutation (updateOnlineStatus u o now) db = (Throw e, db))
  ∧ (∀ usr, get u (users db) = Some usr →
     ∃ db', mutation (updateOnlineStatus u o now) db = (Ok (), db')
       ∧ get u (users db')
         = Some (mkUser (user_id usr) (clerkId usr) (name usr) (email usr)
                        (avatarUrl usr) o now)
       ∧ (∀ j, j ≠ u → get j (users db') = get j (users db))
       ∧ length (users db') = length (users db)).
Proof.
  split.
  - intros Hg. unfold updateOnlineStatus. munfold. simpl. rewrite Hg. by eexists.
  - intros usr Hg. unfold updateOnlineStatus. munfold. simpl. rewrite Hg. simpl.
    eexists. split; [done|]. simpl. split; [|split].
    + rewrite get_patched by done. rewrite decide_True by done. by rewrite Hg.
    + intros j Hj. rewrite get_patched by done. by rewrite decide_False.
    + apply length_patched.
Qed.

Lemma updateOnlineStatus_sets_witness :
  (∃ e, mutation (updateOnlineStatus 7 true 50) db_users = (Throw e, db_users))
  ∧ ∃ db', mutation (updateOnlineStatus 1 false 50) db_users = (Ok (), db')
       ∧ get 1 (users db')
         = Some (mkUser 1 "clerk_b" "Bob" "bob@example.org" "b.png" false 50)
       ∧ (∀ j, j ≠ 1 → get j (users db') = get j (users db_users))
       ∧ length (users db') = length (users db_users).
Proof.
  split.
  - apply (proj1 (updateOnlineStatus_sets db_users 7 true 50)). reflexivity.
  - apply (proj2 (updateOnlineStatus_sets db_users 1 false 50)
             (mkUser 1 "clerk_b" "Bob" "bob@example.org" "b.png" false 20)).
    reflexivity.
Defined.

(** ** Discovery and search *)

Lemma append_cons (c : Ascii.ascii) (s t : string) :
  String c s +:+ t = String c (s +:+ t).
Proof. reflexivity. Qed.

Lemma append_nil (t : string) : "" +:+ t = t.
Proof. reflexivity. Qed.

Lemma prefix_app (sub s : string) :
  String.prefix sub s = true ↔ ∃ post, s = sub +:+ post.
Proof.
  revert s. induction sub as [|a sub IH]; intros s.
  - split; [intros _; by exists s|]. intros _. by destruct s.
  - destruct s as [|b s]; simpl.
    + split; [done|]. intros [post Hp]. rewrite append_cons in Hp. discriminate.
    + destruct (Ascii.ascii_dec a b) as [->|Hab].
      * rewrite IH. split; intros [post Hp]; exists post;
          rewrite append_cons in *; congruence.
      * split; [done|]. intros [post Hp]. rewrite append_cons in Hp. congruence.
Qed.

(** [includes] is the occurrence of [sub] as a contiguous piece of [s]. *)
Lemma includes_spec (s sub : string) :
  includes s sub = true ↔ ∃ pre post, s = pre +:+ sub +:+ post.
Proof.
  induction s as [|c s IH].
  - destruct sub as [|a sub]; simpl.
    + split; [intros _|done]. by exists "", "".
    + split; [done|]. intros (pre & post & Heq). destruct pre.
      * rewrite append_nil, append_cons in Heq. discriminate.
      * rewrite append_cons in Heq. discriminate.
  - change (includes (String c s) sub)
      with (if String.prefix sub (String c s) then true else includes s sub).
    destruct (String.prefix sub (String c s)) eqn:Hp.
    + split; [intros _|done]. apply prefix_app in Hp as [post Hp].
      exists "", post. by rewrite append_nil.
    + rewrite IH. split.
      * intros (pre & post & ->). exists (String c pre), post.
        by rewrite append_cons.
      * intros (pre & post & Heq). destruct pre as [|c' pre].
        -- exfalso. assert (String.prefix sub (String c s) = true); [|congruence].
           apply prefix_app. exists post. by rewrite append_nil in Heq.
        -- rewrite append_cons in Heq. injection Heq as -> ->. by exists pre, post.
Qed.

Lemma includes_empty (s : string) : includes s "" = true.
Proof. by destruct s. Qed.

(** X8: for every lower-casing function, [searchUsers] returns some of
    the users [getAllUsers] returns, in the same order, and never the
    searching user; a user is returned exactly when its lower-cased name
    contains the lower-cased term; when the lower-cased term is empty the
    result is all of [getAllUsers]. *)
Theorem searchUsers_results
    (toLowerCase : string → string) (term : string) (self : nat) (db : DB) :
  searchUsers toLowerCase term self db `sublist_of` getAllUsers self db
  ∧ (∀ u, u ∈ searchUsers toLowerCase term self db ↔
          u ∈ users db ∧ _id u ≠ self
          ∧ ∃ pre post, toLowerCase (name u) = pre +:+ toLowerCase term +:+ post)
  ∧ (toLowerCase term = "" →
     searchUsers toLowerCase term self db = getAllUsers self db).
Proof.
  unfold searchUsers, getAllUsers. split; [|split].
  - rewrite <- (list_filter_filter_l _ (λ u, _id u ≠ self)) by tauto.
    apply sublist_filter.
  - intros u. rewrite list_elem_of_filter, includes_spec. tauto.
  - intros ->. apply list_filter_iff. intros u. rewrite includes_empty. tauto.
Qed.

Lemma searchUsers_results_witness :
  searchUsers (λ s, s) "" 0 db_users = getAllUsers 0 db_users.
Proof.
  apply (proj2 (proj2 (searchUsers_results (λ s, s) "" 0 db_users))). reflexivity.
Defined.

(** ** One user per identity *)

Lemma exec_users_frame (c : Call) (db : DB) :
  store_wf db →
  match c with
  | UpsertUser _ _ _ _ _ | UpdateOnlineStatus _ _ _ => True
  | _ => users (exec c db) = users db ∧ nextId db ≤ nextId (exec c db)
  end.
Proof.
  intros (Hc & Hr & Ht & Hi). destruct c as
    [cl n e a now|u o now|a b now|n ms cr now|u cv now|cv s b now|m u|m u e
    |cv u now|cv u]; simpl; try done.
  - rewrite getOrCreateDirect_cases.
    destruct (firstDirect db b (members_by_userId a db)) as [[c|]|err];
      simpl; split; lia || done.
  - rewrite createGroup_spec. simpl. split; [done|lia].
  - destruct (mutation_throw (markAsRead u cv now) db) as [[[] Hok]|Hthrow].
    + by apply markAsRead_ok in Hok as [[_ ->]|(m & _ & ->)].
    + by rewrite Hthrow.
  - rewrite (sendMessage_spec db cv s b now (Ht s cv)). simpl. split; [done|lia].
  - by destruct (deleteMessage_cases db m u) as [-> | ->].
  - destruct (decide (e ∈ ALLOWED_EMOJIS)) as [He|He].
    + rewrite (toggleReaction_ok db m u e He (Hr m u)). simpl.
      unfold toggled. destruct (reactions_by_message_user m u db);
        try case_decide; simpl; split; lia || done.
    + unfold toggleReaction, mutation. rewrite decide_True by done. done.
  - rewrite (setTyping_spec db cv u now (Ht u cv)). simpl.
    unfold typed. destruct (head (typing_by_user_conversation u cv db));
      simpl; split; lia || done.
  - by rewrite (clearTyping_spec db cv u (Ht u cv)).
Qed.

Lemma updateOnlineStatus_cases (db : DB) (u : nat) (o : bool) (now : Z) :
  (mutation (updateOnlineStatus u o now) db).2 = db
  ∨ (mutation (updateOnlineStatus u o now) db).2
    = set_users (patched u (λ r, mkUser (user_id r) (clerkId r) (name r)
                                   (email r) (avatarUrl r) o now)) db.
Proof.
  unfold updateOnlineStatus. munfold. simpl.
  destruct (get u (users db)); simpl; [by right|by left].
Qed.

Lemma exec_users_wf (c : Call) (db : DB) :
  store_wf db → users_wf db → users_wf (exec c db).
Proof.
  intros Hs Hwf. pose proof (exec_users_frame c db Hs) as Hframe.
  destruct c as
    [cl n e a now|u o now|a b now|n ms cr now|u cv now|cv s b now|m u|m u e
    |cv u now|cv u].
  3-10: destruct Hframe as [Hu Hn]; destruct Hwf as (H1 & H2 & H3);
    (split; [by rewrite Hu|]; split; [|by rewrite Hu]);
    intros x Hx; rewrite Hu in Hx; specialize (H2 x Hx); lia.
  - destruct (upsertUser_outcome db cl n e a now Hwf) as (i & db' & u' & H & Hwf' & _).
    simpl. by rewrite H.
  - simpl. destruct (updateOnlineStatus_cases db u o now) as [-> | ->]; [done|].
    destruct Hwf as (H1 & H2 & H3). split; [|split]; simpl.
    + change user_id with (@_id User _). by rewrite ids_patched.
    + intros x Hx. apply elem_of_patched in Hx as (r0 & Hr0 & ->).
      specialize (H2 r0 Hr0). by case_decide.
    + replace (clerkId <$> patched u _ (users db)) with (clerkId <$> users db);
        [done|].
      unfold patched. rewrite <- list_fmap_compose.
      apply list_fmap_ext. intros k x _. simpl. by case_decide.
Qed.

(** X9: in every store that sequential calls produce from the empty
    store, user ids are distinct and no two users share a [clerkId]: there
    is at most one user per external identity. *)
Theorem reachable_users_wf (db : DB) :
  reachable db →
  NoDup (user_id <$> users db) ∧ NoDup (clerkId <$> users db)
  ∧ ∀ c, length (users_by_clerkId c db) ≤ 1.
Proof.
  intros Hr.
  assert (Hwf : users_wf db).
  { induction Hr as [|c db Hr IH]; [apply users_wf_empty|].
    apply exec_users_wf; [by apply reachable_store_wf|done]. }
  split; [apply Hwf|]. split; [apply Hwf|].
  intros c. by apply users_wf_unique.
Qed.

Lemma reachable_users_wf_witness :
  NoDup (user_id <$> users db_users) ∧ NoDup (clerkId <$> users db_users)
  ∧ ∀ c, length (users_by_clerkId c db_users) ≤ 1.
Proof.
  apply (reachable_users_wf db_users).
  change db_users
    with (exec (UpsertUser "clerk_b" "Bob" "bob@example.org" "b.png" 20)
            (exec (UpsertUser "clerk_a" "Ann Lee" "ann@example.org" "a.png" 10)
               empty_db)).
  do 2 apply reachable_exec. apply reachable_empty.
Defined.


(** ** What one call does to the store *)

Lemma exec_shape (c : Call) (db : DB) :
  store_wf db →
  match c with
  | UpsertUser cl n e a now =>
      exec c db = (mutation (upsertUser cl n e a now) db).2
  | UpdateOnlineStatus u o now =>
      exec c db = (mutation (updateOnlineStatus u o now) db).2
  | GetOrCreateDirectConversation a b now =>
      exec c db = db ∨ exec c db = created a b now db
  | CreateGroupConversation n ms cr now => exec c db = grouped n ms cr now db
  | MarkAsRead u cv now =>
      exec c db = db
      ∨ ∃ i, exec c db = set_conversationMembers (patched i (readAt now)) db
  | SendMessage cv s b now =>
      exec c db
      = set_typingIndicators (cleared s cv db)
          (set_messages (λ l, l ++ [mkMessage (nextId db) cv s b now false])
             (set_nextId S db))
  | DeleteMessage m u =>
      exec c db = db ∨ exec c db = set_messages (patched m withdrawn) db
  | ToggleReaction m u e =>
      exec c db = db ∨ (e ∈ ALLOWED_EMOJIS ∧ exec c db = toggled m u e db)
  | SetTyping cv u now => exec c db = typed cv u now db
  | ClearTyping cv u => exec c db = set_typingIndicators (cleared u cv db) db
  end.
Proof.
  intros (Hc & Hr & Ht & Hi). destruct c as
    [cl n e a now|u o now|a b now|n ms cr now|u cv now|cv s b now|m u|m u e
    |cv u now|cv u]; simpl; try done.
  - rewrite getOrCreateDirect_cases.
    destruct (firstDirect db b (members_by_userId a db)) as [[c|]|err];
      simpl; auto.
  - by rewrite createGroup_spec.
  - destruct (mutation_throw (markAsRead u cv now) db) as [[[] Hok]|Hthrow].
    + apply markAsRead_ok in Hok as [[_ ->]|(m & _ & ->)]; eauto.
    + by left.
  - by rewrite (sendMessage_spec db cv s b now (Ht s cv)).
  - apply deleteMessage_cases.
  - destruct (decide (e ∈ ALLOWED_EMOJIS)) as [He|He].
    + right. by rewrite (toggleReaction_ok db m u e He (Hr m u)).
    + left. unfold toggleReaction, mutation. by rewrite decide_True.
  - by rewrite (setTyping_spec db cv u now (Ht u cv)).
  - by rewrite (clearTyping_spec db cv u (Ht u cv)).
Qed.

(** ** The message log is append-only *)

Lemma exec_keeps_message (c : Call) (db : DB) (m : Message) :
  store_wf db → m ∈ messages db →
  ∃ m', m' ∈ messages (exec c db) ∧ persists m m'.
Proof.
  intros Hwf Hm. pose proof (exec_shape c db Hwf) as Hs.
  assert (Hsame : messages (exec c db) = messages db →
            ∃ m', m' ∈ messages (exec c db) ∧ persists m m').
  { intros ->. exists m. by repeat split. }
  destruct c as
    [cl n e a now|u o now|a b now|n ms cr now|u cv now|cv s b now|mid u|mid u e
    |cv u now|cv u].
  - apply Hsame. rewrite Hs.
    by destruct (upsertUser_frame db cl n e a now) as (? & ? & ? & ?).
  - apply Hsame. rewrite Hs.
    by destruct (updateOnlineStatus_frame db u o now) as (? & ? & ? & ?).
  - apply Hsame. by destruct Hs as [-> | ->].
  - apply Hsame. by rewrite Hs.
  - apply Hsame. by destruct Hs as [-> | [i ->]].
  - rewrite Hs. simpl. exists m. split; [apply elem_of_app; by left|].
    by repeat split.
  - destruct Hs as [Hs | Hs]; [apply Hsame; by rewrite Hs|]. rewrite Hs. simpl.
    exists (if decide (_id m = mid) then withdrawn m else m).
    split; [apply elem_of_patched; eauto|].
    case_decide; by repeat split.
  - apply Hsame. destruct Hs as [-> | [_ ->]]; [done|].
    unfold toggled. destruct (reactions_by_message_user mid u db);
      try case_decide; done.
  - apply Hsame. rewrite Hs. unfold typed.
    by destruct (head (typing_by_user_conversation u cv db)).
  - apply Hsame. by rewrite Hs.
Qed.

(** X10: no sequence of calls removes a Message or changes its
    conversation, sender, body or [createdAt], and a Message that is
    withdrawn stays withdrawn: the message log is append-only. *)
Theorem messages_append_only (calls : list Call) (db : DB) (m : Message) :
  store_wf db → m ∈ messages db →
  ∃ m', m' ∈ messages (execs calls db)
        ∧ msg_id m' = msg_id m ∧ msg_conversationId m' = msg_conversationId m
        ∧ senderId m' = senderId m ∧ body m' = body m
        ∧ createdAt m' = createdAt m
        ∧ (isDeleted m = true → isDeleted m' = true).
Proof.
  revert db m. induction calls as [|c calls IH]; intros db m Hwf Hm.
  - exists m. by repeat split.
  - destruct (exec_keeps_message c db m Hwf Hm) as (m1 & Hm1 & H1).
    destruct (IH (exec c db) m1 (exec_store_wf c db Hwf) Hm1) as (m2 & Hm2 & H2).
    exists m2. split; [done|].
    destruct H1 as (? & ? & ? & ? & ? & ?), H2 as (? & ? & ? & ? & ? & ?).
    repeat split; try congruence. auto.
Qed.

Lemma messages_append_only_witness :
  ∃ m', m' ∈ messages (execs [DeleteMessage 3 1; SendMessage 0 2 "ok" 1500;
                              DeleteMessage 3 2; MarkAsRead 2 0 1600] db_chat)
        ∧ msg_id m' = 3 ∧ msg_conversationId m' = 0
        ∧ senderId m' = 1 ∧ body m' = "hi" ∧ createdAt m' = 1000%Z
        ∧ (false = true → isDeleted m' = true).
Proof.
  apply (messages_append_only _ db_chat (mkMessage 3 0 1 "hi" 1000 false)).
  - apply reachable_store_wf.
    change db_chat with (exec (SendMessage 0 1 "hi" 1000)
                           (exec (GetOrCreateDirectConversation 1 2 100) empty_db)).
    do 2 apply reachable_exec. apply reachable_empty.
  - vm_compute. left.
Defined.


(** ** Stored reactions *)

Lemma toggled_emojis (db : DB) (m u : nat) (e : string) :
  length (reactions_by_message_user m u db) ≤ 1 →
  emoji <$> reactions_by_message_user m u (toggled m u e db)
  = if decide (emoji <$> reactions_by_message_user m u db = [e]) then [] else [e].
Proof.
  intros Hu. unfold toggled.
  destruct (reactions_by_message_user m u db) as [|r [|r' l]] eqn:Hrow;
    simpl in Hu; [| |lia].
  - rewrite decide_False by done.
    unfold reactions_by_message_user in *. simpl.
    rewrite filter_app, Hrow. by rewrite filter_cons_True.
  - simpl. destruct (decide (emoji r = e)) as [He|He].
    + rewrite decide_True by congruence.
      unfold reactions_by_message_user in *. simpl.
      rewrite filter_deleted, Hrow. unfold deleted.
      by rewrite filter_cons_False by (intros Hx; by apply Hx).
    + rewrite decide_False by congruence.
      unfold reactions_by_message_user in *. simpl.
      rewrite filter_app, filter_deleted, Hrow. unfold deleted.
      rewrite filter_cons_False by (intros Hx; by apply Hx).
      by rewrite filter_cons_True.
Qed.

(** X11: for a user with at most one Reaction on the message, toggling
    an allowed emoji twice leaves the user with that emoji if it was the
    user's Reaction before and with no Reaction otherwise, so a Reaction
    with another emoji is lost; toggling one allowed emoji and then a
    different one always leaves exactly the second, whatever was there
    before. *)
Theorem toggleReaction_sequences (db : DB) (m u : nat) (e1 e2 : string) :
  reactions_unique db → e1 ∈ ALLOWED_EMOJIS → e2 ∈ ALLOWED_EMOJIS →
  emoji <$> reactions_by_message_user m u
              (execs [ToggleReaction m u e1; ToggleReaction m u e1] db)
    = (if decide (emoji <$> reactions_by_message_user m u db = [e1])
       then [e1] else [])
  ∧ (e1 ≠ e2 →
     emoji <$> reactions_by_message_user m u
                 (execs [ToggleReaction m u e1; ToggleReaction m u e2] db)
       = [e2]).
Proof.
  intros Hr H1 H2. unfold execs. simpl.
  rewrite (toggleReaction_ok db m u e1 H1 (Hr m u)). simpl.
  pose proof (reactions_unique_toggled db m u e1 Hr) as Hr'.
  pose proof (toggled_emojis db m u e1 (Hr m u)) as He.
  split.
  - rewrite (toggleReaction_ok _ m u e1 H1 (Hr' m u)). simpl.
    rewrite (toggled_emojis _ m u e1 (Hr' m u)), He.
    destruct (decide (emoji <$> reactions_by_message_user m u db = [e1]));
      [by rewrite decide_False|by rewrite decide_True].
  - intros Hne. rewrite (toggleReaction_ok _ m u e2 H2 (Hr' m u)). simpl.
    rewrite (toggled_emojis _ m u e2 (Hr' m u)), He.
    destruct (decide (emoji <$> reactions_by_message_user m u db = [e1]));
      rewrite decide_False; try done. congruence.
Qed.

Lemma toggleReaction_sequences_witness :
  emoji <$> reactions_by_message_user 3 2
              (execs [ToggleReaction 3 2 "👍"; ToggleReaction 3 2 "👍"] db_chat)
    = []
  ∧ emoji <$> reactions_by_message_user 3 2
                (execs [ToggleReaction 3 2 "👍"; ToggleReaction 3 2 "😂"] db_chat)
    = ["😂"].
Proof.
  assert (Hr : reactions_unique db_chat) by (intros ??; simpl; lia).
  split.
  - apply (proj1 (toggleReaction_sequences db_chat 3 2 "👍" "😂" Hr
                    ltac:(left) ltac:(do 2 right; left))).
  - apply (proj2 (toggleReaction_sequences db_chat 3 2 "👍" "😂" Hr
                    ltac:(left) ltac:(do 2 right; left))).
    discriminate.
Defined.

Lemma exec_reactions_allowed (c : Call) (db : DB) :
  store_wf db →
  (∀ r, r ∈ reactions db → emoji r ∈ ALLOWED_EMOJIS) →
  ∀ r, r ∈ reactions (exec c db) → emoji r ∈ ALLOWED_EMOJIS.
Proof.
  intros Hwf Hall. pose proof (exec_shape c db Hwf) as Hs.
  assert (Hsame : reactions (exec c db) = reactions db →
            ∀ r, r ∈ reactions (exec c db) → emoji r ∈ ALLOWED_EMOJIS).
  { intros ->. done. }
  destruct c as
    [cl n e a now|u o now|a b now|n ms cr now|u cv now|cv s b now|mid u|mid u e
    |cv u now|cv u].
  - apply Hsame. rewrite Hs.
    by destruct (upsertUser_frame db cl n e a now) as (? & ? & ? & ? & ?).
  - apply Hsame. rewrite Hs.
    by destruct (updateOnlineStatus_frame db u o now) as (? & ? & ? & ? & ?).
  - apply Hsame. by destruct Hs as [-> | ->].
  - apply Hsame. by rewrite Hs.
  - apply Hsame. by destruct Hs as [-> | [i ->]].
  - apply Hsame. by rewrite Hs.
  - apply Hsame. by destruct Hs as [-> | ->].
  - destruct Hs as [Hs | [He Hs]]; [apply Hsame; by rewrite Hs|].
    rewrite Hs. unfold toggled.
    destruct (reactions_by_message_user mid u db) as [|x l]; simpl.
    + intros r Hr. apply elem_of_app in Hr as [Hr|Hr]; [by apply Hall|].
      apply list_elem_of_singleton in Hr. by subst.
    + case_decide; simpl.
      * intros r Hr. apply elem_of_deleted in Hr as [_ Hr]. by apply Hall.
      * intros r Hr. apply elem_of_app in Hr as [Hr|Hr].
        -- apply elem_of_deleted in Hr as [_ Hr]. by apply Hall.
        -- apply list_elem_of_singleton in Hr. by subst.
  - apply Hsame. rewrite Hs. unfold typed.
    by destruct (head (typing_by_user_conversation u cv db)).
  - apply Hsame. by rewrite Hs.
Qed.

(** X12: in every store that sequential calls produce from the empty
    store, every Reaction carries one of the five allowed emojis, a user
    has at most one Reaction on a Message, a user has at most one
    TypingIndicator in a conversation, and every non-group conversation
    has exactly two Membership rows. *)
Theorem reachable_invariants (db : DB) :
  reachable db →
  (∀ r, r ∈ reactions db → emoji r ∈ ["👍"; "❤️"; "😂"; "😮"; "😢"])
  ∧ (∀ m u, length (reactions_by_message_user m u db) ≤ 1)
  ∧ (∀ u c, length (typing_by_user_conversation u c db) ≤ 1)
  ∧ (∀ conv, conv ∈ conversations db → isGroup conv = false →
             length (members_by_conversationId (conv_id conv) db) = 2).
Proof.
  intros Hr. pose proof (reachable_store_wf db Hr) as (Hc & Hru & Htu & _).
  split; [|split; [done|split; [done|apply Hc]]].
  induction Hr as [|c db Hr IH].
  - intros r Hin. by apply elem_of_nil in Hin.
  - apply exec_reactions_allowed; [by apply reachable_store_wf|].
    apply IH; by apply reachable_store_wf.
Qed.

Lemma reachable_invariants_witness :
  (∀ r, r ∈ reactions db_chat → emoji r ∈ ["👍"; "❤️"; "😂"; "😮"; "😢"])
  ∧ (∀ m u, length (reactions_by_message_user m u db_chat) ≤ 1)
  ∧ (∀ u c, length (typing_by_user_conversation u c db_chat) ≤ 1)
  ∧ (∀ conv, conv ∈ conversations db_chat → isGroup conv = false →
             length (members_by_conversationId (conv_id conv) db_chat) = 2).
Proof.
  apply (reachable_invariants db_chat).
  change db_chat with (exec (SendMessage 0 1 "hi" 1000)
                         (exec (GetOrCreateDirectConversation 1 2 100) empty_db)).
  do 2 apply reachable_exec. apply reachable_empty.
Defined.


(** ** Typing indicators: removal and refresh *)

Lemma filter_ext_elem {A} (P Q : A → Prop)
    `{∀ x, Decision (P x)} `{∀ x, Decision (Q x)} (l : list A) :
  (∀ x, x ∈ l → P x ↔ Q x) → filter P l = filter Q l.
Proof.
  induction l as [|x l IH]; intros Hall; [done|].
  assert (Hl : filter P l = filter Q l).
  { apply IH. intros y Hy. apply Hall. by right. }
  destruct (decide (P x)) as [HP|HP].
  - rewrite !filter_cons_True; [by rewrite Hl| |done].
    apply (Hall x); [left|done].
  - rewrite !filter_cons_False; [done| |done].
    intros HQ. apply HP. apply (Hall x); [left|done].
Qed.

(** Deleting the row that the index finds for a pair deletes every row of
    the pair, and no other. *)
Lemma cleared_filter (db : DB) (c u : nat) :
  typing_unique db → typing_ids_wf db →
  cleared u c db (typingIndicators db)
  = filter (λ t, ¬ (ti_userId t = u ∧ ti_conversationId t = c))
           (typingIndicators db).
Proof.
  intros Hu [Hnd _]. unfold cleared. specialize (Hu u c).
  destruct (typing_by_user_conversation u c db) as [|x [|y l]] eqn:Hf;
    simpl in *; [| |lia].
  - symmetry. apply filter_all. intros t Ht Hm.
    assert (Hin : t ∈ typing_by_user_conversation u c db)
      by (by apply list_elem_of_filter).
    rewrite Hf in Hin. by apply elem_of_nil in Hin.
  - unfold deleted. apply filter_ext_elem. intros t Ht.
    assert (Hx : x ∈ typing_by_user_conversation u c db) by (rewrite Hf; left).
    apply list_elem_of_filter in Hx as [Hxm Hx].
    split.
    + intros Hne Hm. apply Hne.
      by rewrite (filter_singleton_elem _ _ t x Hf Ht Hm).
    + intros Hnm Hid. apply Hnm.
      by rewrite (NoDup_fmap_elem ti_id _ t x Hnd Ht Hx Hid).
Qed.

Lemma activeIndicators_filter (db db' : DB) (C U V : nat) (t : Z) :
  typingIndicators db'
  = filter (λ i, ¬ (ti_userId i = U ∧ ti_conversationId i = C))
           (typingIndicators db) →
  activeIndicators C V t db'
  = filter (λ i, ti_userId i ≠ U) (activeIndicators C V t db).
Proof.
  intros Hty. unfold activeIndicators, typing_by_conversationId. rewrite Hty.
  rewrite !list_filter_filter. apply filter_ext_elem. intros i _. simpl.
  tauto.
Qed.

(** X13: in a store where a pair has at most one TypingIndicator and
    row ids are distinct, [clearTyping(C, U)] succeeds, removes the
    TypingIndicator of [U] in [C] if there is one and changes nothing else:
    the call is a no-op when [U] was not typing.  Afterwards [U] is absent
    from the typers reported for [C] to every reader, and the other typers
    are reported as before. *)
Theorem clearTyping_removes (db : DB) (C U : nat) :
  typing_unique db → typing_ids_wf db →
  mutation (clearTyping C U) db
  = (Ok (),
     set_typingIndicators
       (filter (λ t, ¬ (ti_userId t = U ∧ ti_conversationId t = C))) db)
  ∧ (typing_by_user_conversation U C db = [] →
     (mutation (clearTyping C U) db).2 = db)
  ∧ ∀ V t,
      getTypingUsers C V t (mutation (clearTyping C U) db).2
      = (λ i, typingName db (ti_userId i))
          <$> filter (λ i, ti_userId i ≠ U) (activeIndicators C V t db).
Proof.
  intros Hu Hids.
  assert (Hm : mutation (clearTyping C U) db
               = (Ok (),
                  set_typingIndicators
                    (filter (λ t, ¬ (ti_userId t = U ∧ ti_conversationId t = C)))
                    db)).
  { rewrite (clearTyping_spec db C U (Hu U C)).
    unfold set_typingIndicators. by rewrite cleared_filter. }
  split; [done|]. rewrite Hm. cbn [snd]. split.
  - intros Hnone.
    assert (Hall : filter (λ t, ¬ (ti_userId t = U ∧ ti_conversationId t = C))
                          (typingIndicators db) = typingIndicators db).
    { apply filter_all. intros t Ht Hmatch.
      assert (Hin : t ∈ typing_by_user_conversation U C db)
        by (by apply list_elem_of_filter).
      rewrite Hnone in Hin. by apply elem_of_nil in Hin. }
    unfold set_typingIndicators. rewrite Hall. by destruct db.
  - intros V t. unfold getTypingUsers.
    by rewrite (activeIndicators_filter db
                  (set_typingIndicators
                     (filter (λ t, ¬ (ti_userId t = U ∧ ti_conversationId t = C))) db)
                  C U V t eq_refl).
Qed.

Lemma clearTyping_removes_witness :
  (mutation (clearTyping 0 1)
            (execs [SetTyping 0 1 50; SetTyping 0 2 60] empty_db)).1 = Ok ()
  ∧ ti_userId <$> typingIndicators
        (mutation (clearTyping 0 1)
                  (execs [SetTyping 0 1 50; SetTyping 0 2 60] empty_db)).2 = [2].
Proof.
  assert (Hu : typing_unique (execs [SetTyping 0 1 50; SetTyping 0 2 60] empty_db)).
  { intros u c. unfold typing_by_user_conversation. simpl.
    rewrite !filter_cons, filter_nil. repeat case_decide; simpl in *; lia. }
  assert (Hi : typing_ids_wf (execs [SetTyping 0 1 50; SetTyping 0 2 60] empty_db)).
  { split.
    - simpl. repeat constructor; rewrite ?list_elem_of_singleton;
        try apply not_elem_of_nil; lia.
    - intros t Ht. simpl in Ht.
      apply elem_of_cons in Ht as [->|Ht]; [simpl; lia|].
      apply list_elem_of_singleton in Ht as ->. simpl. lia. }
  rewrite (proj1 (clearTyping_removes _ 0 1 Hu Hi)). split; reflexivity.
Defined.

(** X14: in a store where a pair has at most one TypingIndicator and
    row ids are distinct, [sendMessage(C, S, body)] succeeds and, besides
    appending the Message, removes the TypingIndicator of the sender [S]
    in [C] and no other row: afterwards [S] is absent from the typers
    reported for [C] to every reader, the other typers of [C] are reported
    as before, and indicators of [S] in other conversations stay. *)
Theorem sendMessage_clears_typing (db : DB) (C S : nat) (b : string) (now : Z) :
  typing_unique db → typing_ids_wf db →
  ∃ db', mutation (sendMessage C S b now) db = (Ok (nextId db), db')
    ∧ typingIndicators db'
      = filter (λ t, ¬ (ti_userId t = S ∧ ti_conversationId t = C))
               (typingIndicators db)
    ∧ typing_by_user_conversation S C db' = []
    ∧ (∀ C', C' ≠ C →
         typing_by_user_conversation S C' db'
         = typing_by_user_conversation S C' db)
    ∧ ∀ V t,
        getTypingUsers C V t db'
        = (λ i, typingName db (ti_userId i))
            <$> filter (λ i, ti_userId i ≠ S) (activeIndicators C V t db).
Proof.
  intros Hu Hids. eexists. split; [apply (sendMessage_spec db C S b now (Hu S C))|].
  assert (Hty : typingIndicators
                  (set_typingIndicators (cleared S C db)
                     (set_messages (λ l, l ++ [mkMessage (nextId db) C S b now false])
                        (set_nextId Datatypes.S db)))
                = filter (λ t, ¬ (ti_userId t = S ∧ ti_conversationId t = C))
                         (typingIndicators db)).
  { simpl. by apply cleared_filter. }
  split; [done|]. split; [|split].
  - unfold typing_by_user_conversation. rewrite Hty.
    rewrite list_filter_filter. apply filter_none. intros t _ [H1 H2]. done.
  - intros C' HC'. unfold typing_by_user_conversation. rewrite Hty.
    rewrite list_filter_filter. apply filter_ext_elem. intros i _. simpl.
    split; [tauto|]. intros [H1 H2]. repeat split; try done.
    intros [_ H3]. congruence.
  - intros V t. unfold getTypingUsers.
    rewrite (activeIndicators_filter db _ C S V t Hty). done.
Qed.

Lemma sendMessage_clears_typing_witness :
  ∃ db', mutation (sendMessage 0 1 "hi" 70)
                  (execs [SetTyping 0 1 50; SetTyping 0 2 60] empty_db)
         = (Ok 2, db')
    ∧ ti_userId <$> typingIndicators db' = [2]
    ∧ getTypingUsers 0 2 80 db' = []
    ∧ getTypingUsers 0 1 80 db' = ["Someone"].
Proof.
  assert (Hu : typing_unique (execs [SetTyping 0 1 50; SetTyping 0 2 60] empty_db)).
  { intros u c. unfold typing_by_user_conversation. simpl.
    rewrite !filter_cons, filter_nil. repeat case_decide; simpl in *; lia. }
  assert (Hi : typing_ids_wf (execs [SetTyping 0 1 50; SetTyping 0 2 60] empty_db)).
  { split.
    - simpl. repeat constructor; rewrite ?list_elem_of_singleton;
        try apply not_elem_of_nil; lia.
    - intros t Ht. simpl in Ht.
      apply elem_of_cons in Ht as [->|Ht]; [simpl; lia|].
      apply list_elem_of_singleton in Ht as ->. simpl. lia. }
  destruct (sendMessage_clears_typing _ 0 1 "hi" 70 Hu Hi)
    as (db' & Hm & Hty & _ & _ & Hget).
  exists db'. split; [exact Hm|]. split; [by rewrite Hty|].
  split; rewrite Hget; reflexivity.
Defined.

(** X15: in a store where a pair has at most one TypingIndicator and
    row ids are distinct, a second [setTyping(C, U)] inserts no second
    row: after two calls the pair has one TypingIndicator, stamped with
    the time of the later call, and the table is as long as after the
    first; and [clearTyping(C, U)] after [setTyping(C, U)] leaves the
    table without any row of the pair and with every other row as it was
    before both calls. *)
Theorem setTyping_refreshes (db : DB) (C U : nat) (t1 t2 : Z) :
  typing_unique db → typing_ids_wf db →
  (∃ x, typing_by_user_conversation U C (execs [SetTyping C U t1; SetTyping C U t2] db)
        = [x]
        ∧ updatedAt x = t2 ∧ ti_userId x = U ∧ ti_conversationId x = C)
  ∧ length (typingIndicators (execs [SetTyping C U t1; SetTyping C U t2] db))
    = length (typingIndicators (execs [SetTyping C U t1] db))
  ∧ typingIndicators (execs [SetTyping C U t1; ClearTyping C U] db)
    = filter (λ t, ¬ (ti_userId t = U ∧ ti_conversationId t = C))
             (typingIndicators db).
Proof.
  intros Hu Hids. unfold execs. simpl.
  rewrite (setTyping_spec db C U t1 (Hu U C)). simpl.
  pose proof (typing_unique_typed db C U t1 Hu) as Hu1.
  pose proof (typing_ids_typed db C U t1 Hids) as Hids1.
  destruct (setTyping_row db C U t1 (Hu U C)) as (db1 & x1 & Hm1 & Hrow1 & Hx1).
  rewrite (setTyping_spec db C U t1 (Hu U C)) in Hm1.
  injection Hm1 as <-.
  split; [|split].
  - destruct (setTyping_row _ C U t2 (Hu1 U C)) as (db2 & x2 & Hm2 & Hrow2 & Hx2).
    rewrite Hm2. simpl. exists x2. split; [done|]. split; [done|].
    assert (Hin : x2 ∈ typing_by_user_conversation U C db2) by (rewrite Hrow2; left).
    apply list_elem_of_filter in Hin. tauto.
  - rewrite (setTyping_spec _ C U t2 (Hu1 U C)). simpl.
    unfold typed at 1. rewrite Hrow1. simpl. by rewrite length_patched.
  - rewrite (clearTyping_spec _ C U (Hu1 U C)). simpl.
    rewrite (cleared_filter _ C U Hu1 Hids1).
    unfold typed.
    destruct (typing_by_user_conversation U C db) as [|x l] eqn:Hf; simpl.
    + rewrite filter_app, filter_cons_False, filter_nil, app_nil_r
        by (simpl; intros Hn; by apply Hn).
      done.
    + assert (Hx : x ∈ typing_by_user_conversation U C db) by (rewrite Hf; left).
      apply list_elem_of_filter in Hx as [Hxm Hx].
      destruct Hids as [Hnd _].
      rewrite filter_patched by done.
      apply patched_other. intros y Hy Hid.
      apply list_elem_of_filter in Hy as [Hym Hy]. apply Hym.
      by rewrite (NoDup_fmap_elem ti_id _ y x Hnd Hy Hx Hid).
Qed.

Lemma setTyping_refreshes_witness :
  (∃ x, typing_by_user_conversation 1 0
          (execs [SetTyping 0 1 50; SetTyping 0 1 90] empty_db) = [x]
        ∧ updatedAt x = 90%Z ∧ ti_userId x = 1 ∧ ti_conversationId x = 0)
  ∧ length (typingIndicators (execs [SetTyping 0 1 50; SetTyping 0 1 90] empty_db))
    = 1
  ∧ typingIndicators (execs [SetTyping 0 1 50; ClearTyping 0 1] empty_db) = [].
Proof.
  assert (Hu : typing_unique empty_db) by (intros u c; simpl; lia).
  assert (Hi : typing_ids_wf empty_db).
  { split; [constructor|]. intros t Ht. by apply elem_of_nil in Ht. }
  apply (setTyping_refreshes empty_db 0 1 50 90 Hu Hi).
Defined.


(** ** Looking up a conversation that was just created *)

Lemma omap_id_fmap {A B} (f : A → option B) (l : list A) :
  omap id (f <$> l) = omap f l.
Proof.
  induction l as [|x l IH]; [done|].
  rewrite fmap_cons. simpl. fold (omap id (f <$> l)). fold (omap f l).
  rewrite IH. by destruct (f x).
Qed.

Lemma omap_fmap_arg {A B C} (g : A → B) (f : B → option C) (l : list A) :
  omap (λ x, f (g x)) l = omap f (g <$> l).
Proof.
  induction l as [|x l IH]; [done|].
  rewrite fmap_cons. simpl.
  fold (omap (λ x, f (g x)) l). fold (omap f (g <$> l)).
  rewrite IH. done.
Qed.

Lemma getConversationById_Some (db : DB) (c : nat) (conv : Conversation) :
  get c (conversations db) = Some conv →
  getConversationById c db
  = Some (conv,
          omap (λ u, get u (users db))
               (cm_userId <$> members_by_conversationId c db),
          length (members_by_conversationId c db)).
Proof.
  intros Hg. unfold getConversationById. rewrite Hg.
  apply get_conversation in Hg as [_ Hid].
  change (_id conv) with (conv_id conv). rewrite Hid.
  rewrite omap_id_fmap.
  by rewrite (omap_fmap_arg cm_userId (λ u, get u (users db))).
Qed.

Lemma get_app_fresh {R} `{Doc R} (i : nat) (l : list R) (x : R) :
  (∀ r, r ∈ l → _id r ≠ _id x) →
  get i (l ++ [x]) = if decide (i = _id x) then Some x else get i l.
Proof.
  intros Hfresh. unfold get. rewrite filter_app.
  case_decide as Hi.
  - subst i. rewrite (filter_none _ l) by done.
    by rewrite filter_cons_True.
  - rewrite (filter_cons_False _ x) by (intros Hx; by apply Hi).
    by rewrite filter_nil, app_nil_r.
Qed.

(** X16: in a store whose conversation and Membership rows carry ids
    below the counter, [createGroupConversation] succeeds and returns the
    id of a conversation that [getConversationById] then finds: a group
    with the given name and creation time, whose [memberCount] is one
    more than the length of [memberIds], repetitions included, and whose
    [members] are the users found for the creator and for each entry of
    [memberIds], in that order, entries with no user dropped.  Lookups of
    every other conversation id answer as before the call. *)
Theorem createGroup_then_lookup
    (db : DB) (n : string) (ms : list nat) (cr : nat) (now : Z) :
  (∀ c, c ∈ conversations db → conv_id c < nextId db) →
  (∀ m, m ∈ conversationMembers db → cm_conversationId m < nextId db) →
  ∃ db', mutation (createGroupConversation n ms cr now) db = (Ok (nextId db), db')
    ∧ getConversationById (nextId db) db'
      = Some (mkConversation (nextId db) true (Some n) now,
              omap (λ u, get u (users db)) (cr :: ms),
              S (length ms))
    ∧ ∀ c, c ≠ nextId db → getConversationById c db' = getConversationById c db.
Proof.
  intros Hc Hm. eexists. split; [apply createGroup_spec|].
  assert (Hget : ∀ i, get i (conversations (grouped n ms cr now db))
                      = if decide (i = nextId db)
                        then Some (mkConversation (nextId db) true (Some n) now)
                        else get i (conversations db)).
  { intros i. unfold grouped. simpl.
    rewrite get_app_fresh; [done|].
    intros r Hr. specialize (Hc r Hr). change (conv_id r ≠ nextId db). lia. }
  split.
  - rewrite (getConversationById_Some _ _ (mkConversation (nextId db) true (Some n) now))
      by (rewrite Hget; by rewrite decide_True).
    assert (Hl : length (members_by_conversationId (nextId db) (grouped n ms cr now db))
                 = S (length ms)).
    { rewrite <- (length_fmap cm_userId).
      by rewrite (createGroup_members db n ms cr now Hm). }
    by rewrite Hl, (createGroup_members db n ms cr now Hm).
  - intros c Hne. unfold getConversationById.
    rewrite Hget, decide_False by done.
    destruct (get c (conversations db)) as [conv|] eqn:Hg; [|done].
    apply get_conversation in Hg as [_ Hid].
    change (_id conv) with (conv_id conv). rewrite Hid.
    assert (Hmem : members_by_conversationId c (grouped n ms cr now db)
                   = members_by_conversationId c db).
    { unfold members_by_conversationId, grouped. cbn [conversationMembers].
      rewrite filter_app.
      rewrite (filter_none _ (groupRows _ _ _ _)); [by rewrite app_nil_r|].
      intros r Hr Hrc. apply groupRows_conversation in Hr. congruence. }
    by rewrite Hmem.
Qed.

Lemma createGroup_then_lookup_witness :
  ∃ db', mutation (createGroupConversation "team" [0; 9; 0] 1 100) db_users
         = (Ok 2, db')
    ∧ match getConversationById 2 db' with
      | Some (_, members, memberCount) =>
          name <$> members = ["Bob"; "Ann Lee"; "Ann Lee"] ∧ memberCount = 4
      | None => False
      end.
Proof.
  destruct (createGroup_then_lookup db_users "team" [0; 9; 0] 1 100)
    as (db' & Hm & Hl & _).
  - intros c Hc. by apply elem_of_nil in Hc.
  - intros m Hm. by apply elem_of_nil in Hm.
  - exists db'. split; [exact Hm|].
    change (nextId db_users) with 2 in Hl. by rewrite Hl.
Defined.

(** X17: in a well-formed store, for two different users,
    [getOrCreateDirectConversation] succeeds, and the conversation it
    returns is found by [getConversationById] as a non-group conversation
    with [memberCount] 2 whose [members] are the users found for the two
    ids; the conversation is listed by [getUserConversations] for each of
    the two users, with [memberCount] 2. *)
Theorem direct_then_lookup (db : DB) (a b : nat) (now : Z) :
  conv_wf db → a ≠ b →
  ∃ r db' conv ids,
    mutation (getOrCreateDirectConversation a b now) db = (Ok r, db')
    ∧ getConversationById r db'
      = Some (conv, omap (λ u, get u (users db)) ids, 2)
    ∧ ids ≡ₚ [a; b] ∧ conv_id conv = r ∧ isGroup conv = false
    ∧ ∀ u, u = a ∨ u = b →
           ∃ e, e ∈ getUserConversations u db'
                ∧ conversation e = conv ∧ memberCount e = 2.
Proof.
  intros Hwf Hab.
  destruct (getOrCreateDirect_step db a b now Hwf Hab)
    as (r & db' & Hm & Hwf' & conv & Hin & Hid & Hgrp & Hperm).
  assert (Husers : users db' = users db).
  { rewrite getOrCreateDirect_cases in Hm.
    destruct (firstDirect db b (members_by_userId a db)) as [[c|]|e];
      simplify_eq; done. }
  assert (Hg : get r (conversations db') = Some conv).
  { apply get_NoDup; [apply (wf_conv_nodup _ Hwf')|done|done]. }
  assert (Hlen : length (members_by_conversationId r db') = 2).
  { rewrite <- (length_fmap cm_userId). by rewrite Hperm. }
  exists r, db', conv, (cm_userId <$> members_by_conversationId r db').
  split; [done|]. split.
  { rewrite (getConversationById_Some _ _ conv Hg). by rewrite Husers, Hlen. }
  split; [done|]. split; [done|]. split; [done|].
  intros u Hu.
  assert (Hmem : is_member db' u r).
  { apply (canonical_member db' a b r u); [|done]. by exists conv. }
  destruct Hmem as (m & Hmin & Hmu & Hmc).
  eexists. split.
  - apply elem_of_getUserConversations. exists m. split; [done|]. split; [done|].
    unfold enrich. rewrite Hmc, Hg. reflexivity.
  - simpl. split; [done|].
    change (_id conv) with (conv_id conv). by rewrite Hid.
Qed.

Lemma direct_then_lookup_witness :
  ∃ r db' conv ids,
    mutation (getOrCreateDirectConversation 0 1 100) db_users = (Ok r, db')
    ∧ getConversationById r db'
      = Some (conv, omap (λ u, get u (users db_users)) ids, 2)
    ∧ ids ≡ₚ [0; 1] ∧ conv_id conv = r ∧ isGroup conv = false
    ∧ ∀ u, u = 0 ∨ u = 1 →
           ∃ e, e ∈ getUserConversations u db'
                ∧ conversation e = conv ∧ memberCount e = 2.
Proof.
  apply (direct_then_lookup db_users 0 1 100); [|lia].
  apply (conv_wf_frame empty_db); try reflexivity; [apply conv_wf_empty|].
  simpl. lia.
Defined.


(** ** The sidebar row of a conversation *)

Lemma enrich_members (db : DB) (u : nat) (m : Member) (e : EnrichedConversation) :
  enrich db u m = Some e →
  members e
  = omap (λ i, get i (users db))
         (cm_userId <$> members_by_conversationId (cm_conversationId m) db)
  ∧ memberCount e = length (members_by_conversationId (cm_conversationId m) db)
  ∧ latestMessageSender e
    = (latestMessage e ≫= λ msg, get (senderId msg) (users db)).
Proof.
  unfold enrich. intros He.
  destruct (get (cm_conversationId m) (conversations db)) as [conv|] eqn:Hg; [|done].
  apply get_conversation in Hg as [_ Hid].
  change (_id conv) with (conv_id conv) in He. rewrite Hid in He.
  injection He as <-. simpl. split; [|split; [done|]].
  - rewrite omap_id_fmap.
    by rewrite (omap_fmap_arg cm_userId (λ i, get i (users db))).
  - by destruct (head _).
Qed.

Lemma getOtherUser_pair (db : DB) (a b : nat) (ids : list nat) :
  a ≠ b → ids ≡ₚ [a; b] →
  ConversationService.getOtherUser (omap (λ i, get i (users db)) ids) a
  = get b (users db).
Proof.
  intros Hab Hp.
  assert (Hids : ids = [a; b] ∨ ids = [b; a]).
  { symmetry in Hp. apply Permutation_length_2_inv in Hp as [->| ->]; auto. }
  unfold ConversationService.getOtherUser.
  assert (Hskip : ∀ ua, get a (users db) = Some ua →
                        bool_decide (_id ua ≠ a) = false).
  { intros ua Hua. apply get_Some in Hua as [_ Hua].
    apply bool_decide_false. intros Hn. by apply Hn. }
  assert (Htake : ∀ ub, get b (users db) = Some ub →
                        bool_decide (_id ub ≠ a) = true).
  { intros ub Hub. apply get_Some in Hub as [_ Hub].
    apply bool_decide_true. congruence. }
  destruct (get a (users db)) as [ua|] eqn:Ha;
    destruct (get b (users db)) as [ub|] eqn:Hb;
    destruct Hids as [-> | ->]; simpl; rewrite ?Ha, ?Hb; simpl;
    rewrite ?(Hskip _ eq_refl), ?(Htake _ eq_refl); simpl;
    rewrite ?(Hskip _ eq_refl), ?(Htake _ eq_refl); done.
Qed.

(** X18: in a well-formed store let [e] be an entry of the sidebar of user
    [a] for a direct conversation that another user [b] is a member of.
    The row drawn for [e] is that of [b]: its name, avatar and online
    state are those of the user found for [b], and when no user is found
    for [b] the row reads "Unknown", has no avatar and is offline.  The
    row of a direct conversation has no line with the number of members. *)
Theorem sidebar_direct_peer (db : DB) (a b : nat) (e : EnrichedConversation) :
  conv_wf db → a ≠ b →
  e ∈ getUserConversations a db →
  isGroup (conversation e) = false →
  is_member db b (conv_id (conversation e)) →
  ConversationService.getOtherUser (members e) a = get b (users db)
  ∧ ConversationItem.displayName (ConversationItem.render e a)
    = match get b (users db) with Some u => name u | None => "Unknown" end
  ∧ ConversationItem.rowAvatarUrl (ConversationItem.render e a)
    = match get b (users db) with Some u => avatarUrl u | None => "" end
  ∧ ConversationItem.rowIsOnline (ConversationItem.render e a)
    = match get b (users db) with Some u => isOnline u | None => false end
  ∧ ConversationItem.memberLine (ConversationItem.render e a) = None.
Proof.
  intros Hwf Hab He Hgrp Hb.
  apply elem_of_getUserConversations in He as (m & Hm & Hma & He).
  pose proof (enrich_Some _ _ _ _ He) as (Hg & Hid & _ & _).
  pose proof (enrich_members _ _ _ _ He) as (Hmem & _ & _).
  apply get_conversation in Hg as [Hin Hcid].
  assert (Hcan : canonical db a b (conv_id (conversation e))).
  { apply canonical_intro; try done. rewrite Hcid. by exists m. }
  destruct Hcan as (conv' & _ & _ & _ & Hperm).
  rewrite Hcid in Hperm.
  assert (Hother : ConversationService.getOtherUser (members e) a = get b (users db)).
  { rewrite Hmem. by apply getOtherUser_pair. }
  split; [done|].
  unfold ConversationItem.render, ConversationService.getDisplayName.
  rewrite Hgrp. simpl.
  rewrite Hother.
  unfold ConversationService.getOtherUser in Hother. by rewrite Hother.
Qed.

Lemma sidebar_direct_peer_witness :
  ConversationItem.displayName
    (ConversationItem.render
       (mkEnriched (mkConversation 2 false None 100)
                   [mkUser 0 "clerk_a" "Ann Lee" "ann@example.org" "a.png" false 10;
                    mkUser 1 "clerk_b" "Bob" "bob@example.org" "b.png" false 20]
                   (Some (mkMessage 5 2 0 "hi" 1000 false))
                   (Some (mkUser 0 "clerk_a" "Ann Lee" "ann@example.org" "a.png" false 10))
                   1 2) 1)
  = "Ann Lee".
Proof.
  assert (Hwf : conv_wf ClientSpec.db_talk).
  { apply (conv_wf_frame (created 0 1 100 db_users)); try reflexivity; [|simpl; lia].
    apply conv_wf_created; [|reflexivity].
    apply (conv_wf_frame empty_db); try reflexivity; [apply conv_wf_empty|simpl; lia]. }
  refine (proj1 (proj2 (sidebar_direct_peer ClientSpec.db_talk 1 0 _ Hwf _ _ _ _)));
    [lia| |reflexivity|].
  - apply elem_of_getUserConversations.
    exists (mkMember 4 2 1 100). split; [|split; reflexivity].
    simpl. right. left.
  - exists (mkMember 3 2 0 100). split; [|split; reflexivity].
    simpl. left.
Defined.

(** ** The preview of a withdrawn message *)

Lemma messages_index_patched (db : DB) (C mid : nat) :
  messages_by_conversation_createdAt C (set_messages (patched mid withdrawn) db)
  = patched mid withdrawn (messages_by_conversation_createdAt C db).
Proof.
  unfold messages_by_conversation_createdAt. simpl.
  rewrite filter_patched by done.
  unfold patched. rewrite sort_by_fmap. f_equal.
  apply sort_by_ext. intros x. simpl. by case_decide.
Qed.

(** X19: when the sender deletes, through [deleteMessage] of the
    [useMessages] hook, the message that is the latest of its
    conversation, the entry of that conversation in the sidebar of every
    user who lists it still carries the message with its body, marked as
    deleted, and the row drawn for it reads "This message was deleted"
    instead of the body. *)
Theorem sidebar_preview_after_delete
    (db : DB) (mid r C : nat) (msg : Message) (now : Z) :
  get mid (messages db) = Some msg → senderId msg = r →
  last (messages_by_conversation_createdAt C db) = Some msg →
  ∀ U e,
    e ∈ getUserConversations U
          (ClientSpec.served now (UseMessages.deleteMessage (Some r) mid) db) →
    conv_id (conversation e) = C →
    latestMessage e = Some (withdrawn msg)
    ∧ body (withdrawn msg) = body msg
    ∧ ConversationItem.previewText (ConversationItem.render e U)
      = "This message was deleted".
Proof.
  intros Hg Hs Hlast U e He HC.
  assert (Hm : ClientSpec.served now (UseMessages.deleteMessage (Some r) mid) db
               = set_messages (patched mid withdrawn) db).
  { unfold ClientSpec.served, execs. simpl.
    unfold deleteMessage. munfold. simpl. rewrite Hg.
    rewrite decide_False by (intros ?; done). simpl. by rewrite Hg. }
  rewrite Hm in He.
  apply elem_of_getUserConversations in He as (m & _ & _ & He).
  pose proof (enrich_Some _ _ _ _ He) as (_ & Hid & Hlatest & _).
  change (_id (conversation e)) with (conv_id (conversation e)) in Hid.
  rewrite <- Hid, HC in Hlatest.
  rewrite messages_index_patched in Hlatest.
  unfold patched in Hlatest. rewrite fmap_last, Hlast in Hlatest.
  simpl in Hlatest. apply get_Some in Hg as [_ Hmid].
  rewrite decide_True in Hlatest by done.
  split; [done|]. split; [done|].
  unfold ConversationItem.render, ConversationService.getMessagePreview.
  simpl. by rewrite Hlatest.
Qed.

Lemma sidebar_preview_after_delete_witness :
  Forall (λ e, latestMessage e = Some (withdrawn (mkMessage 5 2 0 "hi" 1000 false))
               ∧ body (withdrawn (mkMessage 5 2 0 "hi" 1000 false)) = "hi"
               ∧ ConversationItem.previewText (ConversationItem.render e 1)
                 = "This message was deleted")
         (getUserConversations 1
            (ClientSpec.served 0 (UseMessages.deleteMessage (Some 0) 5)
                               ClientSpec.db_talk)).
Proof.
  apply Forall_forall. intros e He.
  apply (sidebar_preview_after_delete ClientSpec.db_talk 5 0 2
           (mkMessage 5 2 0 "hi" 1000 false) 0 eq_refl eq_refl eq_refl 1 e He).
  apply list_elem_of_singleton in He. by rewrite He.
Defined.


(** ** Grouping the reactions of a message *)

Section GroupReactions.
Import MessageService.
Variable u : nat.

Lemma keys_update key f (acc : Groups) :
  (fst <$> update key f acc) = (fst <$> acc).
Proof.
  unfold update. induction acc as [|[k g] acc IH]; [done|].
  rewrite !fmap_cons, IH. simpl. by case_decide.
Qed.

Lemma lookup_cons k g (acc : Groups) e :
  lookup ((k, g) :: acc) e = if decide (k = e) then Some g else lookup acc e.
Proof.
  unfold lookup. simpl. case_decide.
  - by rewrite bool_decide_true.
  - by rewrite bool_decide_false.
Qed.

Lemma lookup_None (acc : Groups) e :
  lookup acc e = None ↔ e ∉ (fst <$> acc).
Proof.
  induction acc as [|[k g] acc IH].
  - split; [intros _; apply not_elem_of_nil|done].
  - rewrite lookup_cons, fmap_cons, not_elem_of_cons. simpl.
    case_decide; [split; [done|intros [? _]; congruence]|].
    rewrite IH. split; [intros ?; split; [congruence|done]|tauto].
Qed.

Lemma lookup_elem (acc : Groups) e g :
  NoDup (fst <$> acc) → (e, g) ∈ acc ↔ lookup acc e = Some g.
Proof.
  induction acc as [|[k g'] acc IH]; intros Hnd.
  - split; [intros H; by apply elem_of_nil in H|done].
  - rewrite fmap_cons in Hnd. apply NoDup_cons in Hnd as [Hk Hnd]. simpl in Hk.
    rewrite lookup_cons, elem_of_cons. case_decide as Hke.
    + subst k. split.
      * intros [Heq|Hin]; [congruence|].
        exfalso. apply Hk. apply list_elem_of_fmap. by exists (e, g).
      * intros Heq. left. congruence.
    + rewrite <- (IH Hnd). split; [intros [Heq|Hin]; [congruence|done]|auto].
Qed.

Lemma lookup_update key f (acc : Groups) e :
  lookup (update key f acc) e
  = if decide (e = key) then f <$> lookup acc e else lookup acc e.
Proof.
  induction acc as [|[k g] acc IH].
  - by case_decide.
  - unfold update in *. rewrite fmap_cons. simpl.
    destruct (decide (k = key)) as [Hk|Hk]; rewrite !lookup_cons, IH; simpl.
    + subst k. destruct (decide (key = e)) as [<-|Hne].
      * by rewrite decide_True.
      * rewrite decide_False by congruence. done.
    + destruct (decide (k = e)) as [<-|Hne].
      * by rewrite decide_False.
      * done.
Qed.

Lemma lookup_snoc (acc : Groups) k g e :
  lookup (acc ++ [(k, g)]) e
  = match lookup acc e with
    | Some x => Some x
    | None => if decide (k = e) then Some g else None
    end.
Proof.
  induction acc as [|[k' g'] acc IH].
  - change ([] ++ [(k, g)]) with [(k, g)]. rewrite lookup_cons.
    change (lookup [] e) with (@None ReactionGroup). by case_decide.
  - change (((k', g') :: acc) ++ [(k, g)]) with ((k', g') :: (acc ++ [(k, g)])).
    rewrite !lookup_cons. destruct (decide (k' = e)); [done|apply IH].
Qed.

(** The group of a reaction after the callback has run on it. *)
Lemma lookup_step (acc : Groups) (r : Reaction * string) e :
  lookup (step u acc r) e
  = if decide (e = emoji r.1)
    then Some (ClientSpec.grown u e [r]
                 (default (mkReactionGroup e 0 false []) (lookup acc e)))
    else lookup acc e.
Proof.
  unfold step. rewrite lookup_update.
  destruct (decide (e = emoji r.1)) as [->|Hne].
  - unfold ClientSpec.grown. simpl.
    rewrite filter_cons_True, filter_nil by done. simpl.
    destruct (lookup acc (emoji r.1)) as [g|] eqn:Hl; simpl.
    + rewrite Hl. simpl. f_equal. f_equal; [lia|].
      destruct (decide (r_userId r.1 = u)) as [Hu|Hu].
      * rewrite decide_True; [done|]. by apply Exists_cons_hd.
      * rewrite decide_False; [done|].
        intros Hex. apply Exists_cons in Hex as [?|Hex]; [done|].
        by apply Exists_nil in Hex.
    + rewrite lookup_snoc, Hl, decide_True by done. simpl. f_equal.
      f_equal.
      destruct (decide (r_userId r.1 = u)) as [Hu|Hu].
      * rewrite decide_True; [done|]. by apply Exists_cons_hd.
      * rewrite decide_False; [done|].
        intros Hex. apply Exists_cons in Hex as [?|Hex]; [done|].
        by apply Exists_nil in Hex.
  - destruct (lookup acc (emoji r.1)); [done|].
    rewrite lookup_snoc. destruct (lookup acc e); [done|].
    rewrite decide_False by congruence. done.
Qed.

Lemma grown_cons_same e r rs g :
  emoji r.1 = e →
  ClientSpec.grown u e (r :: rs) g
  = ClientSpec.grown u e rs (ClientSpec.grown u e [r] g).
Proof.
  intros He. unfold ClientSpec.grown. simpl.
  rewrite !filter_cons_True, filter_nil by done. simpl.
  f_equal; [lia| |by rewrite <- app_assoc].
  destruct (decide (r_userId r.1 = u)) as [Hu|Hu].
  - rewrite (decide_True (P := Exists _ (r :: filter _ rs)))
      by (by apply Exists_cons_hd).
    rewrite (decide_True (P := Exists _ [r])) by (by apply Exists_cons_hd).
    by case_decide.
  - rewrite (decide_False (P := Exists _ [r])).
    2:{ intros Hex. apply Exists_cons in Hex as [?|Hex]; [done|].
        by apply Exists_nil in Hex. }
    destruct (decide (Exists (λ r0, r_userId r0.1 = u)
                             (filter (λ r0, emoji r0.1 = e) rs))) as [Hex|Hex].
    + rewrite decide_True; [done|]. by apply Exists_cons_tl.
    + rewrite decide_False; [done|].
      intros Hex'. apply Exists_cons in Hex' as [?|?]; done.
Qed.

Lemma grown_cons_other e r rs g :
  emoji r.1 ≠ e → ClientSpec.grown u e (r :: rs) g = ClientSpec.grown u e rs g.
Proof.
  intros He. unfold ClientSpec.grown. simpl.
  by rewrite filter_cons_False by done.
Qed.

Lemma lookup_fold (rs : list (Reaction * string)) (acc : Groups) e :
  lookup (foldl (step u) acc rs) e
  = match lookup acc e with
    | Some g => Some (ClientSpec.grown u e rs g)
    | None =>
        if decide (filter (λ r, emoji r.1 = e) rs = []) then None
        else Some (ClientSpec.grown u e rs (mkReactionGroup e 0 false []))
    end.
Proof.
  revert acc. induction rs as [|r rs IH]; intros acc.
  - simpl. destruct (lookup acc e) as [g|]; [|done].
    f_equal. unfold ClientSpec.grown. simpl. destruct g. simpl.
    f_equal; [lia|by rewrite app_nil_r].
  - simpl. rewrite IH, lookup_step.
    destruct (decide (e = emoji r.1)) as [He|He].
    + rewrite (filter_cons_True _ r) by done.
      rewrite decide_False by done.
      destruct (lookup acc e) as [g|]; simpl;
        by rewrite (grown_cons_same e r rs) by done.
    + rewrite (filter_cons_False _ r) by congruence.
      destruct (lookup acc e) as [g|];
        [by rewrite grown_cons_other by congruence|].
      case_decide; [done|]. by rewrite grown_cons_other by congruence.
Qed.

Lemma keys_step (acc : Groups) r :
  NoDup (fst <$> acc) → NoDup (fst <$> step u acc r).
Proof.
  intros Hnd. unfold step. rewrite keys_update.
  destruct (lookup acc (emoji r.1)) eqn:Hl; [done|].
  rewrite fmap_app. apply NoDup_app. split; [done|]. split.
  - intros k Hk Hk'. simpl in Hk'. apply list_elem_of_singleton in Hk'.
    subst k. by apply lookup_None in Hl.
  - apply NoDup_singleton.
Qed.

Lemma keys_fold (rs : list (Reaction * string)) (acc : Groups) :
  NoDup (fst <$> acc) → NoDup (fst <$> foldl (step u) acc rs).
Proof.
  revert acc. induction rs as [|r rs IH]; intros acc Hnd; [done|].
  simpl. apply IH. by apply keys_step.
Qed.

(** The groups are those of the emojis that occur, one each. *)
Lemma groupReactions_spec (rs : list (Reaction * string)) :
  NoDup (fst <$> groupReactions rs u)
  ∧ ∀ e g, (e, g) ∈ groupReactions rs u ↔
           filter (λ r, emoji r.1 = e) rs ≠ []
           ∧ g = ClientSpec.grown u e rs (mkReactionGroup e 0 false []).
Proof.
  assert (Hnd : NoDup (fst <$> groupReactions rs u)).
  { apply keys_fold. constructor. }
  split; [done|]. intros e g.
  rewrite (lookup_elem _ e g Hnd). unfold groupReactions.
  rewrite lookup_fold. simpl.
  change (lookup [] e) with (@None ReactionGroup).
  case_decide as Hf; split.
  - done.
  - intros [? _]. done.
  - intros Heq. split; [done|congruence].
  - intros [_ ->]. done.
Qed.

(** No reaction is lost or counted twice. *)
Lemma count_step (acc : Groups) r :
  NoDup (fst <$> acc) →
  sum_list (count ∘ snd <$> step u acc r) = S (sum_list (count ∘ snd <$> acc)).
Proof.
  intros Hnd. unfold step.
  assert (Hupd : ∀ (a : Groups) k, NoDup (fst <$> a) → k ∈ (fst <$> a) →
            sum_list (count ∘ snd
                        <$> update k
                              (λ g, mkReactionGroup
                                      (group_emoji g) (S (count g))
                                      (if decide (r_userId r.1 = u)
                                       then true else hasReacted g)
                                      (group_users g ++ [r.2])) a)
            = S (sum_list (count ∘ snd <$> a))).
  { clear. intros a k. induction a as [|[k' g] a IH]; intros Hnd Hk.
    - by apply elem_of_nil in Hk.
    - rewrite fmap_cons in Hnd. apply NoDup_cons in Hnd as [Hk' Hnd].
      unfold update in *. rewrite !fmap_cons. simpl.
      destruct (decide (k' = k)) as [->|Hne]; simpl.
      + f_equal. f_equal.
        assert (Hid : ∀ (b : Groups), k ∉ (fst <$> b) →
                  ((λ kv : string * ReactionGroup,
                      if decide (kv.1 = k)
                      then (kv.1,
                            mkReactionGroup
                              (group_emoji kv.2) (S (count kv.2))
                              (if decide (r_userId r.1 = u)
                               then true else hasReacted kv.2)
                              (group_users kv.2 ++ [r.2]))
                      else kv) <$> b) = b).
        { intros b. induction b as [|[kb gb] b IHb]; intros Hb; [done|].
          rewrite fmap_cons in Hb. apply not_elem_of_cons in Hb as [Hb1 Hb2].
          rewrite fmap_cons. simpl in *. rewrite decide_False by congruence.
          by rewrite IHb. }
        by rewrite Hid.
      + rewrite fmap_cons in Hk. apply elem_of_cons in Hk as [Hk|Hk];
          [simpl in Hk; congruence|].
        rewrite IH by done. lia. }
  destruct (lookup acc (emoji r.1)) eqn:Hl.
  - apply Hupd; [done|].
    destruct (decide (emoji r.1 ∈ (fst <$> acc))) as [|Hn]; [done|].
    apply lookup_None in Hn. congruence.
  - apply lookup_None in Hl.
    rewrite Hupd.
    + clear. induction acc as [|[k g] acc IH]; simpl in *; [lia|].
      injection IH as IH. unfold fmap in IH. rewrite IH. done.
    + rewrite fmap_app. apply NoDup_app. split; [done|]. split.
      * intros k Hk Hk'. simpl in Hk'. apply list_elem_of_singleton in Hk'.
        by subst k.
      * apply NoDup_singleton.
    + rewrite fmap_app. apply elem_of_app. right. simpl. left.
Qed.

Lemma count_fold (rs : list (Reaction * string)) (acc : Groups) :
  NoDup (fst <$> acc) →
  sum_list (count ∘ snd <$> foldl (step u) acc rs)
  = sum_list (count ∘ snd <$> acc) + length rs.
Proof.
  revert acc. induction rs as [|r rs IH]; intros acc Hnd; simpl; [lia|].
  rewrite IH by (by apply keys_step). rewrite count_step by done. lia.
Qed.

End GroupReactions.

Lemma filter_fmap_arg {A B} (f : A → B) (P : B → Prop) `{∀ x, Decision (P x)}
    (l : list A) :
  filter P (f <$> l) = f <$> filter (λ x, P (f x)) l.
Proof.
  induction l as [|x l IH]; [done|].
  rewrite fmap_cons. destruct (decide (P (f x))) as [HP|HP].
  - rewrite !filter_cons_True by done. by rewrite fmap_cons, IH.
  - by rewrite !filter_cons_False by done.
Qed.

Lemma reachable_reactions_allowed (db : DB) :
  reachable db → ∀ r, r ∈ reactions db → emoji r ∈ ALLOWED_EMOJIS.
Proof.
  induction 1 as [|c db Hr IH].
  - intros r Hin. by apply elem_of_nil in Hin.
  - apply exec_reactions_allowed; [by apply reachable_store_wf|done].
Qed.

Lemma elem_of_getMessages (db : DB) (C : nat) (em : EnrichedMessage) :
  em ∈ getMessages C db →
  message em ∈ messages db
  ∧ msg_conversationId (message em) = C
  ∧ enrichedReactions em
    = (λ reaction,
         (reaction,
          match get (r_userId reaction) (users db) with
          | Some user => name user
          | None => "Unknown"
          end)) <$> reactions_by_messageId (_id (message em)) db.
Proof.
  unfold getMessages. intros Hin.
  apply list_elem_of_fmap in Hin as (m & -> & Hm). simpl.
  apply elem_of_messages_index in Hm. tauto.
Qed.


(** X20: in every store that sequential calls produce from the empty
    store, the reaction chips that [groupReactions] makes for a message of
    the feed, as seen by user [u], are one per emoji that occurs among the
    Reactions of the message, each an allowed emoji.  The count of a chip
    is the number of Reactions with its emoji, which is the number of
    names it lists and is not zero; the counts add up to the number of
    Reactions of the message.  A chip is marked as the own reaction exactly
    when its emoji is the one Reaction of [u] on the message, so at most
    one chip is marked. *)
Theorem reaction_chips (db : DB) (C u : nat) (em : EnrichedMessage) :
  reachable db → em ∈ getMessages C db →
  NoDup (fst <$> MessageService.groupReactions (enrichedReactions em) u)
  ∧ (∀ e, e ∈ (fst <$> MessageService.groupReactions (enrichedReactions em) u)
          ↔ e ∈ (emoji <$> reactions_by_messageId (_id (message em)) db))
  ∧ (∀ e g, (e, g) ∈ MessageService.groupReactions (enrichedReactions em) u →
       e ∈ Constants.ALLOWED_REACTIONS
       ∧ MessageService.group_emoji g = e
       ∧ MessageService.count g
         = length (filter (λ r, emoji r = e)
                          (reactions_by_messageId (_id (message em)) db))
       ∧ 0 < MessageService.count g
       ∧ length (MessageService.group_users g) = MessageService.count g
       ∧ (MessageService.hasReacted g = true
          ↔ emoji <$> reactions_by_message_user (_id (message em)) u db = [e]))
  ∧ (∀ e1 g1 e2 g2,
       (e1, g1) ∈ MessageService.groupReactions (enrichedReactions em) u →
       (e2, g2) ∈ MessageService.groupReactions (enrichedReactions em) u →
       MessageService.hasReacted g1 = true →
       MessageService.hasReacted g2 = true → e1 = e2)
  ∧ sum_list (MessageService.count ∘ snd
                <$> MessageService.groupReactions (enrichedReactions em) u)
    = length (reactions_by_messageId (_id (message em)) db).
Proof.
  intros Hreach Hem.
  pose proof (reachable_store_wf db Hreach) as (_ & Hru & _ & _).
  pose proof (reachable_reactions_allowed db Hreach) as Hallowed.
  apply elem_of_getMessages in Hem as (_ & _ & Hrs).
  set (pairf := λ reaction : Reaction,
         (reaction,
          match get (r_userId reaction) (users db) with
          | Some user => name user
          | None => "Unknown"
          end)) in *.
  set (on_message := reactions_by_messageId (_id (message em)) db) in *.
  rewrite Hrs.
  destruct (groupReactions_spec u (pairf <$> on_message)) as [Hnd Hspec].
  assert (Hfilter : ∀ e, filter (λ r : Reaction * string, emoji r.1 = e)
                                (pairf <$> on_message)
                         = pairf <$> filter (λ r, emoji r = e) on_message).
  { intros e.
    rewrite (filter_fmap_arg pairf (λ r : Reaction * string, emoji r.1 = e)).
    reflexivity. }
  assert (Hown : ∀ e g,
            (e, g) ∈ MessageService.groupReactions (pairf <$> on_message) u →
            (MessageService.hasReacted g = true
             ↔ emoji <$> reactions_by_message_user (_id (message em)) u db = [e])).
  { intros e g Hg. apply Hspec in Hg as [_ ->].
    unfold ClientSpec.grown. simpl. rewrite Hfilter.
    assert (Hiff : Exists (λ r : Reaction * string, r_userId r.1 = u)
                          (pairf <$> filter (λ r, emoji r = e) on_message)
                   ↔ emoji <$> reactions_by_message_user (_id (message em)) u db = [e]).
    { rewrite Exists_fmap, Exists_exists. split.
      - intros (r & Hr & Hu). simpl in Hu.
        apply list_elem_of_filter in Hr as [He Hr].
        apply list_elem_of_filter in Hr as [Hm Hr].
        assert (Hin : r ∈ reactions_by_message_user (_id (message em)) u db)
          by (by apply list_elem_of_filter).
        specialize (Hru (_id (message em)) u).
        destruct (reactions_by_message_user (_id (message em)) u db) as [|x [|y l]];
          simpl in Hru; [by apply elem_of_nil in Hin| |lia].
        apply list_elem_of_singleton in Hin. subst x. simpl. by rewrite He.
      - intros Heq.
        destruct (reactions_by_message_user (_id (message em)) u db)
          as [|x [|y l]] eqn:Hf; simplify_eq/=.
        assert (Hx : x ∈ reactions_by_message_user (_id (message em)) u db)
          by (rewrite Hf; left).
        apply list_elem_of_filter in Hx as [[Hm Hu] Hx].
        exists x. split; [|done].
        apply list_elem_of_filter. split; [done|].
        by apply list_elem_of_filter. }
    case_decide as Hex; split; try done.
    - intros _. by apply Hiff.
    - intros Heq. exfalso. apply Hex. by apply Hiff. }
  split; [done|]. split; [|split; [|split]].
  - intros e. split.
    + intros He. apply list_elem_of_fmap in He as ([e' g] & -> & Hg).
      apply Hspec in Hg as [Hne _]. simpl. rewrite Hfilter in Hne.
      destruct (filter (λ r, emoji r = e') on_message) as [|r l] eqn:Hf; [done|].
      assert (Hr : r ∈ filter (λ r, emoji r = e') on_message) by (rewrite Hf; left).
      apply list_elem_of_filter in Hr as [He Hr].
      apply list_elem_of_fmap. by exists r.
    + intros He. apply list_elem_of_fmap in He as (r & -> & Hr).
      apply list_elem_of_fmap.
      exists (emoji r,
              ClientSpec.grown u (emoji r) (pairf <$> on_message)
                (MessageService.mkReactionGroup (emoji r) 0 false [])).
      split; [done|]. apply Hspec. split; [|done].
      rewrite Hfilter. intros Hnil.
      assert (Hin : r ∈ filter (λ r0, emoji r0 = emoji r) on_message)
        by (by apply list_elem_of_filter).
      rewrite (fmap_nil_inv _ _ Hnil) in Hin. by apply elem_of_nil in Hin.
  - intros e g Hg. pose proof (Hown e g Hg) as Hmine.
    apply Hspec in Hg as [Hne Hgeq]. rewrite Hfilter in Hne.
    assert (Hcount : MessageService.count g
                     = length (filter (λ r, emoji r = e) on_message)).
    { rewrite Hgeq. unfold ClientSpec.grown. simpl.
      by rewrite Hfilter, length_fmap. }
    assert (Husers : length (MessageService.group_users g) = MessageService.count g).
    { rewrite Hgeq. unfold ClientSpec.grown. simpl.
      by rewrite Hfilter, !length_fmap. }
    assert (Hemoji : MessageService.group_emoji g = e) by (by rewrite Hgeq).
    split; [|split; [done|split; [done|split; [|done]]]].
    + destruct (filter (λ r, emoji r = e) on_message) as [|r l] eqn:Hf; [done|].
      assert (Hr : r ∈ filter (λ r, emoji r = e) on_message) by (rewrite Hf; left).
      apply list_elem_of_filter in Hr as [He Hr].
      apply list_elem_of_filter in Hr as [_ Hr].
      rewrite <- He. by apply Hallowed.
    + rewrite Hcount.
      destruct (filter (λ r, emoji r = e) on_message); [done|simpl; lia].
  - intros e1 g1 e2 g2 H1 H2 Hh1 Hh2.
    apply (Hown e1 g1 H1) in Hh1. apply (Hown e2 g2 H2) in Hh2. congruence.
  - unfold MessageService.groupReactions.
    rewrite count_fold by constructor. simpl. by rewrite length_fmap.
Qed.

Lemma reaction_chips_witness :
  MessageService.groupReactions
    [(mkReaction 6 5 1 "👍", "Bob")] 0
  = [("👍", MessageService.mkReactionGroup "👍" 1 false ["Bob"])]
  ∧ sum_list (MessageService.count ∘ snd
                <$> MessageService.groupReactions
                      [(mkReaction 6 5 1 "👍", "Bob")] 0)
    = length (reactions_by_messageId 5 ClientSpec.db_talk).
Proof.
  split; [reflexivity|].
  refine (proj2 (proj2 (proj2 (proj2
    (reaction_chips ClientSpec.db_talk 2 0
       (mkEnrichedMessage (mkMessage 5 2 0 "hi" 1000 false)
          (Some (mkUser 0 "clerk_a" "Ann Lee" "ann@example.org" "a.png" false 10))
          [(mkReaction 6 5 1 "👍", "Bob")]) _ _))))).
  - change ClientSpec.db_talk
      with (exec (ToggleReaction 5 1 "👍")
             (exec (SendMessage 2 0 "hi" 1000)
                (exec (GetOrCreateDirectConversation 0 1 100)
                   (exec (UpsertUser "clerk_b" "Bob" "bob@example.org" "b.png" 20)
                      (exec (UpsertUser "clerk_a" "Ann Lee" "ann@example.org" "a.png" 10)
                         empty_db))))).
    do 5 apply reachable_exec. apply reachable_empty.
  - left.
Defined.


(** ** What a message bubble offers, and what the server answers *)

Lemma respond_exec (now : Z) (r : Api.Request) (db : DB) :
  (ClientSpec.respond now r db).2 = exec (Api.serve now r) db.
Proof. by destruct r. Qed.








(** ** Sending from the message input *)

(** X22: for every [trim], the send handler of the message input sends
    nothing, and leaves the refs of the typing hook alone, when the text
    trims to the empty string or a send is in progress.  A [sendMessage]
    request it sends is for the open conversation and the signed-in user
    and carries the text trimmed twice, which is not empty.  Served on a
    store where a pair has at most one TypingIndicator and row ids are
    distinct, the requests of a send append one Message with that body
    and leave the sender without a TypingIndicator in the conversation;
    the timer of the typing hook is no longer pending. *)
Theorem send_from_input
    (trim : string → string) (db : DB) (C U : nat) (isSending : bool)
    (message : string) (refs : UseTyping.Refs) (now : Z) :
  (trim message = "" ∨ isSending = true →
   ChatArea.handleSend trim C U isSending message refs = ([], refs))
  ∧ (∀ c s b,
       Api.sendMessage c s b ∈ (ChatArea.handleSend trim C U isSending message refs).1 →
       c = C ∧ s = U ∧ b = trim (trim message) ∧ b ≠ "")
  ∧ (typing_unique db → typing_ids_wf db →
     trim message ≠ "" → isSending = false → trim (trim message) ≠ "" →
     (ChatArea.handleSend trim C U isSending message refs).1
     = [Api.clearTyping C U; Api.sendMessage C U (trim (trim message))]
     ∧ messages (ClientSpec.served now
                   (ChatArea.handleSend trim C U isSending message refs).1 db)
       = messages db ++ [mkMessage (nextId db) C U (trim (trim message)) now false]
     ∧ typing_by_user_conversation U C
         (ClientSpec.served now
            (ChatArea.handleSend trim C U isSending message refs).1 db) = []
     ∧ UseTyping.typingTimeoutRef
         (ChatArea.handleSend trim C U isSending message refs).2 = None).
Proof.
  unfold ChatArea.handleSend, ChatArea.handleSendMessage, UseMessages.sendMessage.
  simpl. split; [|split].
  - intros [Hempty| ->].
    + by rewrite decide_True.
    + by case_decide.
  - intros c s b Hin.
    destruct (decide (trim message = "")) as [|Hne];
      [by apply elem_of_nil in Hin|].
    destruct isSending; [by apply elem_of_nil in Hin|]. simpl in Hin.
    apply elem_of_cons in Hin as [Hin|Hin]; [done|].
    destruct (decide (trim (trim message) = "")) as [|Hne2];
      [by apply elem_of_nil in Hin|].
    apply list_elem_of_singleton in Hin. by simplify_eq.
  - intros Hu Hids Hne -> Hne2.
    rewrite !decide_False by done. simpl. split; [done|].
    unfold ClientSpec.served, execs. simpl.
    rewrite (clearTyping_spec db C U (Hu U C)). simpl.
    pose proof (typing_unique_cleared db db C U eq_refl Hu) as Hu1.
    pose proof (typing_ids_cleared db db C U eq_refl (le_n _) Hids) as Hids1.
    rewrite (sendMessage_spec _ C U (trim (trim message)) now (Hu1 U C)).
    simpl. split; [done|]. split; [|done].
    unfold typing_by_user_conversation. simpl.
    pose proof (cleared_filter _ C U Hu1 Hids1) as Hc. simpl in Hc.
    rewrite Hc, list_filter_filter. apply filter_none. intros t _ [H1 H2]. done.
Qed.

Lemma send_from_input_witness :
  (ChatArea.handleSend ClientSpec.trimSpaces 7 1 false "  hi " UseTyping.initialRefs).1
  = [Api.clearTyping 7 1; Api.sendMessage 7 1 "hi"]
  ∧ messages (ClientSpec.served 50
                (ChatArea.handleSend ClientSpec.trimSpaces 7 1 false "  hi "
                                     UseTyping.initialRefs).1 empty_db)
    = [mkMessage 0 7 1 "hi" 50 false]
  ∧ typing_by_user_conversation 1 7
      (ClientSpec.served 50
         (ChatArea.handleSend ClientSpec.trimSpaces 7 1 false "  hi "
                              UseTyping.initialRefs).1 empty_db) = []
  ∧ UseTyping.typingTimeoutRef
      (ChatArea.handleSend ClientSpec.trimSpaces 7 1 false "  hi "
                           UseTyping.initialRefs).2 = None.
Proof.
  apply (proj2 (proj2 (send_from_input ClientSpec.trimSpaces empty_db 7 1 false
                         "  hi " UseTyping.initialRefs 50))).
  - intros u c. simpl. lia.
  - split; [constructor|]. intros t Ht. by apply elem_of_nil in Ht.
  - discriminate.
  - reflexivity.
  - discriminate.
Defined.

(** ** The debounce of the typing hook *)

Lemma sentAt_after (c u : nat) (keys : list Z) (refs : UseTyping.Refs) :
  StronglySorted Z.le keys →
  (∀ k, k ∈ keys → (UseTyping.lastTypingRef refs ≤ k)%Z) →
  ∀ t, t ∈ ClientSpec.sentAt c u keys refs →
       (t - UseTyping.lastTypingRef refs > 500)%Z ∧ t ∈ keys.
Proof.
  revert refs. induction keys as [|now keys IH]; intros refs Hs Hge t Ht.
  - by apply elem_of_nil in Ht.
  - apply StronglySorted_inv in Hs as [Hs Hall].
    rewrite Forall_forall in Hall.
    pose proof (Hge now ltac:(left)) as Hnow.
    simpl in Ht. unfold Constants.TYPING_DEBOUNCE_MS in Ht.
    destruct (decide (now - UseTyping.lastTypingRef refs > 500)%Z) as [Hgt|Hle].
    + rewrite bool_decide_true in Ht by done. simpl in Ht.
      apply elem_of_cons in Ht as [->|Ht]; [split; [done|left]|].
      apply IH in Ht as [Ht Hin]; [|done|simpl; intros k Hk; by apply Hall].
      simpl in Ht. split; [lia|by right].
    + rewrite bool_decide_false in Ht by done. simpl in Ht.
      apply IH in Ht as [Ht Hin];
        [|done|simpl; intros k Hk; apply Hge; by right].
      simpl in Ht. split; [lia|by right].
Qed.

(** X23: let [handleTyping] be called at the times [keys] of the clock of
    the client, in order and not before the last [setTyping] was sent.
    The times at which it sends [setTyping] are some of [keys], and any
    two of them are more than 500 ms apart.  After the calls, the last
    [setTyping] sent is at most 500 ms older than the last call, and the
    timer that clears the indicator is due 2000 ms after the last call. *)
Theorem typing_debounce (c u : nat) (keys : list Z) (refs : UseTyping.Refs) :
  StronglySorted Z.le keys →
  (∀ k, k ∈ keys → (UseTyping.lastTypingRef refs ≤ k)%Z) →
  ClientSpec.sentAt c u keys refs `sublist_of` keys
  ∧ StronglySorted (λ a b, (b - a > 500)%Z) (ClientSpec.sentAt c u keys refs)
  ∧ ∀ k, last keys = Some k →
         (0 ≤ k - UseTyping.lastTypingRef (ClientSpec.typedKeys c u keys refs) ≤ 500)%Z
         ∧ UseTyping.typingTimeoutRef (ClientSpec.typedKeys c u keys refs)
           = Some (k + 2000)%Z.
Proof.
  revert refs. induction keys as [|now keys IH]; intros refs Hs Hge.
  - split; [done|]. split; [constructor|]. intros k Hk. done.
  - pose proof (sentAt_after c u (now :: keys) refs Hs Hge) as Hafter.
    apply StronglySorted_inv in Hs as [Hs Hall].
    rewrite Forall_forall in Hall.
    pose proof (Hge now ltac:(left)) as Hnow.
    set (r := UseTyping.handleTyping (Some c) (Some u) now refs).
    assert (Hr : (UseTyping.lastTypingRef r.2 ≤ now)%Z
                 ∧ (0 ≤ now - UseTyping.lastTypingRef r.2 ≤ 500)%Z
                 ∧ UseTyping.typingTimeoutRef r.2 = Some (now + 2000)%Z).
    { unfold r. simpl. unfold Constants.TYPING_DEBOUNCE_MS.
      case_bool_decide; simpl; repeat split; lia. }
    destruct Hr as (Hr1 & Hr2 & Hr3).
    destruct (IH r.2 Hs) as (Hsub & Hsorted & Hlast).
    { intros k Hk. specialize (Hall k Hk). lia. }
    change (ClientSpec.sentAt c u (now :: keys) refs)
      with ((if decide (r.1 = []) then [] else [now])
              ++ ClientSpec.sentAt c u keys r.2).
    change (ClientSpec.typedKeys c u (now :: keys) refs)
      with (ClientSpec.typedKeys c u keys r.2).
    split; [|split].
    + case_decide; simpl; [by apply sublist_cons|by apply sublist_skip].
    + case_decide as Hsent; simpl; [done|].
      constructor; [done|]. apply Forall_forall. intros t Ht.
      assert (Hlast_now : UseTyping.lastTypingRef r.2 = now).
      { unfold r in *. simpl in *. unfold Constants.TYPING_DEBOUNCE_MS in *.
        case_bool_decide; simpl in *; done. }
      apply (sentAt_after c u keys r.2 Hs) in Ht as [Ht _]; [lia|].
      intros k Hk. specialize (Hall k Hk). lia.
    + intros k Hk. destruct keys as [|k' keys'].
      * simpl in Hk. injection Hk as <-. done.
      * apply Hlast. by rewrite last_cons_cons in Hk.
Qed.

Lemma typing_debounce_witness :
  ClientSpec.sentAt 7 1 [1000; 1200; 1400; 1600; 3000]%Z UseTyping.initialRefs
  = [1000; 1600; 3000]%Z
  ∧ StronglySorted (λ a b, (b - a > 500)%Z)
      (ClientSpec.sentAt 7 1 [1000; 1200; 1400; 1600; 3000]%Z UseTyping.initialRefs)
  ∧ UseTyping.typingTimeoutRef
      (ClientSpec.typedKeys 7 1 [1000; 1200; 1400; 1600; 3000]%Z UseTyping.initialRefs)
    = Some 5000%Z.
Proof.
  assert (Hs : StronglySorted Z.le [1000; 1200; 1400; 1600; 3000]%Z).
  { repeat (constructor; [|repeat (constructor; [lia|]); constructor]).
    constructor. }
  assert (Hge : ∀ k, k ∈ [1000; 1200; 1400; 1600; 3000]%Z →
                     (UseTyping.lastTypingRef UseTyping.initialRefs ≤ k)%Z).
  { intros k Hk. simpl.
    repeat (apply elem_of_cons in Hk as [->|Hk]; [lia|]).
    by apply elem_of_nil in Hk. }
  destruct (typing_debounce 7 1 _ UseTyping.initialRefs Hs Hge)
    as (_ & Hsorted & Hlast).
  split; [reflexivity|]. split; [exact Hsorted|].
  apply (Hlast 3000%Z). reflexivity.
Defined.


(** ** The group dialog *)

Lemma elem_of_toggleMember (prev : list nat) (x u : nat) :
  u ∈ CreateGroupDialog.toggleMember prev x
  ↔ if decide (u = x) then u ∉ prev else u ∈ prev.
Proof.
  unfold CreateGroupDialog.toggleMember.
  destruct (decide (x ∈ prev)) as [Hx|Hx]; case_decide as Hu; subst.
  - rewrite list_elem_of_filter. split; [intros [? _]; done|done].
  - rewrite list_elem_of_filter. split; [tauto|]. intros ?. split; [done|done].
  - rewrite elem_of_app, list_elem_of_singleton. split; [done|auto].
  - rewrite elem_of_app, list_elem_of_singleton. split; [intros [?|?]; done|auto].
Qed.

Lemma NoDup_toggleMember (prev : list nat) (x : nat) :
  NoDup prev → NoDup (CreateGroupDialog.toggleMember prev x).
Proof.
  intros Hnd. unfold CreateGroupDialog.toggleMember. case_decide as Hx.
  - by apply NoDup_filter.
  - apply NoDup_app. split; [done|]. split; [|apply NoDup_singleton].
    intros y Hy Hy'. apply list_elem_of_singleton in Hy'. by subst.
Qed.

Lemma selection_snoc (clicks : list nat) (x : nat) :
  ClientSpec.selection (clicks ++ [x])
  = CreateGroupDialog.toggleMember (ClientSpec.selection clicks) x.
Proof. unfold ClientSpec.selection. by rewrite foldl_app. Qed.

Lemma selection_spec (clicks : list nat) :
  NoDup (ClientSpec.selection clicks)
  ∧ ∀ u, u ∈ ClientSpec.selection clicks
         ↔ Nat.odd (length (filter (λ x, x = u) clicks)) = true.
Proof.
  induction clicks as [|x clicks [IHnd IH]] using rev_ind.
  - split; [constructor|]. intros u. split; [intros H; by apply elem_of_nil in H|done].
  - rewrite selection_snoc. split; [by apply NoDup_toggleMember|].
    intros u. rewrite elem_of_toggleMember, filter_app, length_app.
    destruct (decide (u = x)) as [->|Hne].
    + rewrite filter_cons_True, filter_nil by done. simpl.
      rewrite Nat.add_1_r, Nat.odd_succ, <- Nat.negb_odd.
      rewrite IH. destruct (Nat.odd _); simpl; split; done.
    + rewrite filter_cons_False, filter_nil by congruence. simpl.
      by rewrite Nat.add_0_r.
Qed.

(** X24: the users listed in the group dialog, those of [getAllUsers]
    for the signed-in user, do not include that user.  After any clicks on
    listed users the selection holds no user twice, holds exactly the
    users clicked an odd number of times, and does not hold the signed-in
    user.  [handleCreate] sends nothing when the group name trims to the
    empty string or nobody is selected; the request it sends otherwise is
    answered without an error on a store whose conversation and
    Membership rows carry ids below the counter, and the new group then
    has one Membership for the creator and one for each selected user, no
    user holding two. *)
Theorem group_dialog_members
    (trim : string → string) (db : DB) (cr : nat) (clicks : list nat)
    (groupName : string) (now : Z) :
  (∀ db0 usr, usr ∈ getAllUsers cr db0 → _id usr ≠ cr)
  ∧ NoDup (ClientSpec.selection clicks)
  ∧ (∀ u, u ∈ ClientSpec.selection clicks
          ↔ Nat.odd (length (filter (λ x, x = u) clicks)) = true)
  ∧ (trim groupName = "" ∨ ClientSpec.selection clicks = [] →
     CreateGroupDialog.handleCreate trim cr groupName (ClientSpec.selection clicks) = [])
  ∧ (Forall (λ u, u ≠ cr) clicks →
     (∀ c, c ∈ conversations db → conv_id c < nextId db) →
     (∀ m, m ∈ conversationMembers db → cm_conversationId m < nextId db) →
     ∀ r, r ∈ CreateGroupDialog.handleCreate trim cr groupName
                (ClientSpec.selection clicks) →
          r = Api.createGroupConversation (trim groupName)
                (ClientSpec.selection clicks) cr
          ∧ trim groupName ≠ ""
          ∧ (ClientSpec.respond now r db).1 = Ok ()
          ∧ cm_userId <$> members_by_conversationId (nextId db)
                            (ClientSpec.respond now r db).2
            = cr :: ClientSpec.selection clicks
          ∧ NoDup (cr :: ClientSpec.selection clicks)).
Proof.
  destruct (selection_spec clicks) as [Hnd Hodd].
  split; [|split; [done|split; [done|split]]].
  - intros db0 usr Hin. unfold getAllUsers in Hin.
    apply list_elem_of_filter in Hin. tauto.
  - unfold CreateGroupDialog.handleCreate. intros [Hn|Hs].
    + rewrite decide_True; [done|by left].
    + rewrite decide_True; [done|]. right. rewrite Hs. simpl. lia.
  - intros Hclicks Hc Hm r Hr. unfold CreateGroupDialog.handleCreate in Hr.
    case_decide as Hguard; [by apply elem_of_nil in Hr|].
    apply list_elem_of_singleton in Hr as ->.
    split; [done|]. split; [tauto|]. simpl. unfold ClientSpec.answer.
    rewrite createGroup_spec. simpl. split; [done|].
    split; [by apply createGroup_members|].
    apply NoDup_cons. split; [|done].
    intros Hin. apply Hodd in Hin.
    assert (Hnone : filter (λ x, x = cr) clicks = []).
    { apply filter_none. intros x Hx ->.
      rewrite Forall_forall in Hclicks. by apply (Hclicks cr). }
    by rewrite Hnone in Hin.
Qed.

Lemma group_dialog_members_witness :
  ClientSpec.selection [0; 9; 0; 0] = [9; 0]
  ∧ ∀ r, r ∈ CreateGroupDialog.handleCreate ClientSpec.trimSpaces 1 " team "
               (ClientSpec.selection [0; 9; 0; 0]) →
         r = Api.createGroupConversation "team" [9; 0] 1
         ∧ ClientSpec.trimSpaces " team " ≠ ""
         ∧ (ClientSpec.respond 100 r db_users).1 = Ok ()
         ∧ cm_userId <$> members_by_conversationId (nextId db_users)
                           (ClientSpec.respond 100 r db_users).2
           = [1; 9; 0]
         ∧ NoDup [1; 9; 0].
Proof.
  split; [reflexivity|].
  apply (proj2 (proj2 (proj2 (proj2
    (group_dialog_members ClientSpec.trimSpaces db_users 1 [0; 9; 0; 0]
       " team " 100))))).
  - repeat (constructor; [lia|]). constructor.
  - intros c Hc. by apply elem_of_nil in Hc.
  - intros m Hm. by apply elem_of_nil in Hm.
Defined.

(** ** The search panel *)

(** X25: for every [trim] and [toLowerCase], the users listed in the
    search panel are users of the store other than the signed-in user,
    whatever the text of the search box.  In a well-formed store a click
    on a listed user sends one request, which is answered without an
    error; afterwards a direct conversation exists whose Memberships are
    one for the signed-in user and one for the user clicked, and the store
    is well-formed. *)
Theorem search_opens_direct
    (trim toLowerCase : string → string) (db : DB) (cr : nat) (term : string)
    (usr : User) (now : Z) :
  usr ∈ UserSearch.listed trim toLowerCase cr term db →
  usr ∈ users db ∧ _id usr ≠ cr
  ∧ (conv_wf db →
     ∀ r, r ∈ UserSearch.select cr usr →
          ∃ c, mutation (getOrCreateDirectConversation cr (_id usr) now) db
               = (Ok c, (ClientSpec.respond now r db).2)
               ∧ (ClientSpec.respond now r db).1 = Ok ()
               ∧ canonical (ClientSpec.respond now r db).2 cr (_id usr) c
               ∧ conv_wf (ClientSpec.respond now r db).2).
Proof.
  intros Hin.
  assert (Hu : usr ∈ users db ∧ _id usr ≠ cr).
  { unfold UserSearch.listed, getAllUsers, searchUsers in Hin.
    case_decide; apply list_elem_of_filter in Hin; tauto. }
  destruct Hu as [Hu Hne]. split; [done|]. split; [done|].
  intros Hwf r Hr. unfold UserSearch.select in Hr.
  apply list_elem_of_singleton in Hr as ->.
  destruct (getOrCreateDirect_step db cr (_id usr) now Hwf) as (c & db' & Hm & Hwf' & Hcan);
    [congruence|].
  exists c. simpl. unfold ClientSpec.answer. rewrite Hm. simpl. done.
Qed.

Lemma search_opens_direct_witness :
  ∃ c, mutation (getOrCreateDirectConversation 0 1 100) db_users
       = (Ok c, (ClientSpec.respond 100 (Api.getOrCreateDirectConversation 0 1)
                                    db_users).2)
       ∧ (ClientSpec.respond 100 (Api.getOrCreateDirectConversation 0 1) db_users).1
         = Ok ()
       ∧ canonical (ClientSpec.respond 100 (Api.getOrCreateDirectConversation 0 1)
                                       db_users).2 0 1 c
       ∧ conv_wf (ClientSpec.respond 100 (Api.getOrCreateDirectConversation 0 1)
                                     db_users).2.
Proof.
  refine (proj2 (proj2 (search_opens_direct ClientSpec.trimSpaces (λ s, s) db_users 0
                          " b" (mkUser 1 "clerk_b" "Bob" "bob@example.org" "b.png"
                                       false 20) 100 _)) _ _ _).
  - unfold UserSearch.listed. simpl.
    apply list_elem_of_filter. split; [|right; left].
    split; [discriminate|reflexivity].
  - apply (conv_wf_frame empty_db); try reflexivity; [apply conv_wf_empty|].
    simpl. lia.
  - left.
Defined.


(** ** The Clerk webhook *)

(** The row of a [clerkId] after [upsertUser]. *)
Lemma upsertUser_row (db : DB) (c n e a : string) (now : Z) :
  length (users_by_clerkId c db) ≤ 1 →
  ∃ i db' u,
    mutation (upsertUser c n e a now) db = (Ok i, db')
    ∧ users_by_clerkId c db' = [u]
    ∧ clerkId u = c ∧ name u = n ∧ email u = e ∧ avatarUrl u = a.
Proof.
  intros Hu. rewrite (upsertUser_spec db c n e a now Hu).
  destruct (users_by_clerkId c db) as [|u [|u2 l]] eqn:Hf; simpl in Hu; [| |lia].
  - eexists _, _, (mkUser (nextId db) c n e a false now).
    split; [done|]. split; [|done].
    unfold users_by_clerkId in *. simpl. rewrite filter_app, Hf. simpl.
    by rewrite filter_cons_True.
  - assert (Hin : u ∈ users_by_clerkId c db) by (rewrite Hf; left).
    apply list_elem_of_filter in Hin as [Huc Hin].
    eexists _, _, (mkUser (user_id u) (clerkId u) n e a (isOnline u) (lastSeen u)).
    split; [done|]. split; [|done].
    unfold users_by_clerkId in *. simpl.
    rewrite filter_patched by done. rewrite Hf. unfold patched. simpl.
    by rewrite decide_True.
Qed.

(** X26: for every [trim], on a store with at most one user for the
    [clerkId] of the event, the webhook answers "OK" with status 200.  An
    event that is neither [user.created] nor [user.updated] leaves the
    store as it is.  After one of these two events the store has exactly
    one user with the [clerkId] of the event; the name of that user is
    never empty: it is the trimmed "first last" of the event, or
    "Anonymous" when that is empty; the email is that of the first address
    of the event and the avatar its image, each empty when absent. *)
Theorem webhook_syncs_user
    (trim : string → string) (body : Http.Body) (now : Z) (db : DB) :
  length (users_by_clerkId (Http.id (Http.data body)) db) ≤ 1 →
  (Http.type body ≠ "user.created" → Http.type body ≠ "user.updated" →
   Http.handler trim body now db = (Ok (Http.mkResponse "OK" 200), db))
  ∧ (Http.type body = "user.created" ∨ Http.type body = "user.updated" →
     ∃ db' u,
       Http.handler trim body now db = (Ok (Http.mkResponse "OK" 200), db')
       ∧ users_by_clerkId (Http.id (Http.data body)) db' = [u]
       ∧ name u ≠ ""
       ∧ name u
         = (if decide (trim (default "" (Http.first_name (Http.data body)) +:+ " "
                               +:+ default "" (Http.last_name (Http.data body))) = "")
            then "Anonymous"
            else trim (default "" (Http.first_name (Http.data body)) +:+ " "
                         +:+ default "" (Http.last_name (Http.data body))))
       ∧ email u
         = match Http.email_addresses (Http.data body) with
           | Some (address :: _) => default "" (Http.email_address address)
           | _ => ""
           end
       ∧ avatarUrl u = default "" (Http.image_url (Http.data body))).
Proof.
  intros Hu. unfold Http.handler. split.
  - intros H1 H2. rewrite decide_False; [done|]. intros [?|?]; done.
  - intros Hty. rewrite decide_True by done.
    destruct (upsertUser_row db (Http.id (Http.data body))
                (Http.displayName trim (Http.data body))
                (match Http.email_addresses (Http.data body) with
                 | Some (address :: _) => default "" (Http.email_address address)
                 | _ => ""
                 end)
                (default "" (Http.image_url (Http.data body))) now Hu)
      as (i & db' & u & Hm & Hrow & _ & Hn & He & Ha).
    rewrite Hm. exists db', u. split; [done|]. split; [done|].
    split; [|split; [done|split; [|done]]].
    + rewrite Hn. unfold Http.displayName. by case_decide.
    + done.
Qed.

Lemma webhook_syncs_user_witness :
  ∃ db' u,
    Http.handler ClientSpec.trimSpaces
      (Http.mkBody "user.updated"
         (Http.mkUserData "clerk_a" None None
            (Some [Http.mkEmailAddress (Some "ann@example.com")]) None))
      30 db_users
    = (Ok (Http.mkResponse "OK" 200), db')
    ∧ users_by_clerkId "clerk_a" db' = [u]
    ∧ name u ≠ ""
    ∧ name u = "Anonymous"
    ∧ email u = "ann@example.com"
    ∧ avatarUrl u = "".
Proof.
  refine (proj2 (webhook_syncs_user ClientSpec.trimSpaces
                   (Http.mkBody "user.updated"
                      (Http.mkUserData "clerk_a" None None
                         (Some [Http.mkEmailAddress (Some "ann@example.com")]) None))
                   30 db_users _) _).
  - simpl. lia.
  - by right.
Defined.


(** ** Unread counts and [markAsRead] on a single Membership *)

(** X27: the [unreadCount] that [getUserConversations] reports to [U] is, for
    every Membership of [U] on an existing conversation and for every entry
    returned, the number of Messages of that conversation with [createdAt]
    strictly above the Membership's [lastReadAt] and a sender other than
    [U].  When [(U, C)] has exactly one Membership, [markAsRead(U, C)] at
    [now] succeeds and leaves the Messages alone; afterwards every entry of
    [U] for [C] counts the Messages of [C] by others stamped after [now],
    which is 0 when every Message of [C] is stamped at or before [now].
    A message that [U] sends changes none of the counts reported to [U]. *)
Theorem unreadCount_counts (db : DB) (U : nat) :
  (∀ m conv, m ∈ conversationMembers db → cm_userId m = U →
     get (cm_conversationId m) (conversations db) = Some conv →
     ∃ e, e ∈ getUserConversations U db ∧ conversation e = conv
          ∧ unreadCount e = unreadSpec db U (cm_conversationId m) (lastReadAt m))
  ∧ (∀ e, e ∈ getUserConversations U db →
       ∃ m, m ∈ conversationMembers db ∧ cm_userId m = U
            ∧ cm_conversationId m = _id (conversation e)
            ∧ unreadCount e = unreadSpec db U (cm_conversationId m) (lastReadAt m))
  ∧ (∀ C now m, members_by_user_conversation U C db = [m] →
       ∃ db', mutation (markAsRead U C now) db = (Ok (), db')
         ∧ messages db' = messages db
         ∧ (∀ conv, get C (conversations db) = Some conv →
              ∃ e, e ∈ getUserConversations U db' ∧ conversation e = conv)
         ∧ ∀ e, e ∈ getUserConversations U db' → _id (conversation e) = C →
             unreadCount e = unreadSpec db U C now
             ∧ ((∀ msg, msg ∈ messages db → msg_conversationId msg = C →
                        (createdAt msg ≤ now)%Z) →
                unreadCount e = 0))
  ∧ (∀ C b now, length (typing_by_user_conversation U C db) ≤ 1 →
       ∃ db', mutation (sendMessage C U b now) db = (Ok (nextId db), db')
         ∧ badge <$> getUserConversations U db'
           ≡ₚ badge <$> getUserConversations U db).
Proof.
  split; [|split; [|split]].
  - intros m conv. apply unreadCount_of_member.
  - apply unreadCount_of_entry.
  - intros C now m Hm.
    exists (set_conversationMembers (patched (_id m) (readAt now)) db).
    split; [by apply markAsRead_spec|]. split; [done|].
    apply (unreadCount_after_markAsRead db U C now m Hm).
  - intros C b now. apply own_message_badges.
Qed.

Lemma unreadCount_counts_witness :
  unreadCount <$> getUserConversations 2 db_chat = [1]
  ∧ mutation (markAsRead 2 0 2000) db_chat
    = (Ok (), (mutation (markAsRead 2 0 2000) db_chat).2)
  ∧ getUserConversations 2 (mutation (markAsRead 2 0 2000) db_chat).2 ≠ []
  ∧ Forall (λ e, unreadCount e = 0)
      (getUserConversations 2 (mutation (markAsRead 2 0 2000) db_chat).2)
  ∧ badge <$> getUserConversations 1 (mutation (sendMessage 0 1 "yo" 3000) db_chat).2
    ≡ₚ badge <$> getUserConversations 1 db_chat.
Proof.
  destruct (unreadCount_counts db_chat 2) as (_ & _ & Hread & _).
  destruct (Hread 0 2000%Z (mkMember 2 0 2 100) eq_refl)
    as (db' & Hm & _ & Hentry & Hcount).
  assert (E : db' = (mutation (markAsRead 2 0 2000) db_chat).2) by (by rewrite Hm).
  subst db'.
  destruct (unreadCount_counts db_chat 1) as (_ & _ & _ & Hsend).
  destruct (Hsend 0 "yo" 3000%Z ltac:(simpl; lia)) as (db2 & Hm2 & Hperm).
  assert (E2 : db2 = (mutation (sendMessage 0 1 "yo" 3000) db_chat).2)
    by (by rewrite Hm2).
  subst db2.
  split; [reflexivity|]. split; [exact Hm|]. split; [|split; [|exact Hperm]].
  - destruct (Hentry (mkConversation 0 false None 100) eq_refl) as (e & He & _).
    intros Hnil. rewrite Hnil in He. by apply elem_of_nil in He.
  - apply Forall_forall. intros e He.
    assert (Hid : _id (conversation e) = 0).
    { apply list_elem_of_singleton in He. by subst e. }
    apply (Hcount e He Hid).
    intros msg Hmsg _. apply list_elem_of_singleton in Hmsg. subst msg. simpl. lia.
Defined.
